(** * rhvoice.py: streaming plumbing of the RHVoice REST wrapper

    A shallow embedding of [src/rhvoice.py]: the queue-backed file object
    ([FakeFile]), the header-once wave writer ([WaveWrite]), the worker
    ([BaseTTS], [OneTTS], [ProcessTTS]), the relay thread ([_InOut]) and the
    pool dispatcher ([MultiTTS]).

    Conventions.
    - [bytes] objects are lists of [byte]; Python's truth test [if data] is
      [negb (is_empty data)].
    - A [queue.Queue] is the list of its pending items, oldest first.
      A blocking [get()] on an empty queue is the result [None]: the
      sequential model cannot make progress there.
    - A [multiprocessing.Queue] is the list of the items put and not yet
      got; an item put is not at once in the pipe the getters read, and
      [get_nowait()] fails on items that are not (see [TTS]).
    - Python object references are indices into a store (a list); an
      attribute holding [None] or an object is an [option nat]. *)

From Stdlib Require Import ZArith.
From Stdlib.Strings Require Import Byte.
From stdpp Require Import base relations list strings gmap.

Local Open Scope Z_scope.

Definition bytes := list byte.

(** [not data] for a bytes object. *)
Definition is_empty (data : bytes) : bool :=
  match data with
  | [] => true
  | _ :: _ => false
  end.

(** A list of chunks none of which is the empty chunk. *)
Definition all_data (q : list bytes) : Prop := Forall (fun c => c <> []) q.

(** ** FakeFile (lines 27-64) *)

Module FakeFile.

(** [queue] is the inherited [queue.Queue]; [_open] the flag of
    [__init__]. *)
Record t := mk { queue : list bytes; _open : bool }.

Definition new : t := {| queue := []; _open := true |}.

Definition put_nowait (data : bytes) (f : t) : t :=
  {| queue := queue f ++ [data]; _open := _open f |}.

Definition qsize (f : t) : nat := length (queue f).

(** [tell] is a static method returning 0. *)
Definition tell : Z := 0.

Definition write (data : bytes) (f : t) : t :=
  if is_empty data then f else put_nowait data f.

(** The loop [while self.qsize(): data_p = self.get(); data += data_p;
    if not data_p: self._open = False], run on the items pending when the
    read starts. *)
Fixpoint drain (q : list bytes) (data : bytes) (op : bool) : bytes * bool :=
  match q with
  | [] => (data, op)
  | data_p :: q' =>
      drain q' (data ++ data_p) (if is_empty data_p then false else op)
  end.

(** [read], as one step: the chunks it takes are the ones pending when it is
    called. [None] is a [get()] that blocks on the empty queue. *)
Definition read (f : t) : option (bytes * t) :=
  if negb (_open f) then Some ([], f)
  else if (1 <? qsize f)%nat then
    let '(data, op) := drain (queue f) [] (_open f) in
    Some (data, {| queue := []; _open := op |})
  else
    match queue f with
    | [] => None
    | data :: q' =>
        Some (data, {| queue := q'; _open := if is_empty data then false else _open f |})
    end.

Definition end_ (f : t) : t :=
  if _open f then put_nowait [] f else f.

Definition close (f : t) : t := f.
Definition flush (f : t) : t := f.

(** A producer/consumer schedule: each item is one call on the object. *)
Inductive op := Write (data : bytes) | Read.

Definition is_write (o : op) : option bytes :=
  match o with Write d => Some d | Read => None end.

(** The chunks passed to [write], in call order. *)
Definition writes_of (ops : list op) : list bytes := omap is_write ops.

(** Runs a schedule; returns what the reads returned, in call order. [None]
    when some read of the schedule blocks. *)
Fixpoint run (ops : list op) (f : t) : option (list bytes * t) :=
  match ops with
  | [] => Some ([], f)
  | Write d :: ops' => run ops' (write d f)
  | Read :: ops' =>
      match read f with
      | None => None
      | Some (r, f') =>
          match run ops' f' with
          | None => None
          | Some (rs, f'') => Some (r :: rs, f'')
          end
      end
  end.

Definition nonempty_write (o : op) : Prop :=
  match o with Write d => d <> [] | Read => True end.

(** The number of terminal sentinels pending in the queue. *)
Definition sentinels (f : t) : nat :=
  length (List.filter is_empty (queue f)).

End FakeFile.

(** ** struct.pack and the wave header *)

Definition byte_of_Z (z : Z) : byte :=
  default x00 (Byte.of_N (Z.to_N (z mod 256))).

(** [width] little-endian bytes of [v]. *)
Fixpoint le_bytes (width : nat) (v : Z) : bytes :=
  match width with
  | O => []
  | S w => byte_of_Z v :: le_bytes w (v / 256)
  end.

(** [struct.pack('<L', v)] and [struct.pack('<H', v)]; [None] is
    [struct.error] for a value out of range. *)
Definition pack_L (v : Z) : option bytes :=
  if (0 <=? v) && (v <? 2 ^ 32) then Some (le_bytes 4 v) else None.

Definition pack_H (v : Z) : option bytes :=
  if (0 <=? v) && (v <? 2 ^ 16) then Some (le_bytes 2 v) else None.

Definition b_RIFF : bytes := ["R"; "I"; "F"; "F"]%byte.
Definition b_WAVE : bytes := ["W"; "A"; "V"; "E"]%byte.
Definition b_fmt : bytes := ["f"; "m"; "t"; " "]%byte.
Definition b_data : bytes := ["d"; "a"; "t"; "a"]%byte.

Definition WAVE_FORMAT_PCM : Z := 1.

(** ** Subprocesses (subprocess.Popen), as far as the worker uses them *)

Module Popen.

Inductive status := Running | Exited | Killed.

(** [stdin]: the bytes written to the child's standard input so far;
    [stdout]: the bytes the child has written and nobody has read yet. *)
Record t := mk {
  args : list string;
  stdin : bytes;
  stdin_closed : bool;
  state : status;
  stdout : bytes
}.

Definition create (argv : list string) : t :=
  {| args := argv; stdin := []; stdin_closed := false;
     state := Running; stdout := [] |}.

Definition stdin_write (data : bytes) (p : t) : t :=
  {| args := args p; stdin := stdin p ++ data; stdin_closed := stdin_closed p;
     state := state p; stdout := stdout p |}.

Definition stdin_close (p : t) : t :=
  {| args := args p; stdin := stdin p; stdin_closed := true;
     state := state p; stdout := stdout p |}.

Definition set_state (st : status) (p : t) : t :=
  {| args := args p; stdin := stdin p; stdin_closed := stdin_closed p;
     state := st; stdout := stdout p |}.

(** [kill()] signals a process that has not been reaped yet. *)
Definition kill (p : t) : t :=
  match state p with
  | Running => set_state Killed p
  | _ => p
  end.

(** [wait(timeout)]: [exited] tells whether the child exits within the
    timeout (the environment decides); otherwise [TimeoutExpired] is raised
    and the process is left as it was. The flag returned is [true] for a
    normal return. *)
Definition wait (exited : bool) (p : t) : t * bool :=
  match state p with
  | Running => if exited then (set_state Exited p, true) else (p, false)
  | _ => (p, true)
  end.

(** [stdout.read(n)] of the buffered pipe: [n] bytes when there are that
    many, everything left once the child is gone, and it blocks ([None])
    otherwise. *)
Definition stdout_read (n : nat) (p : t) : option (bytes * t) :=
  let out := {| args := args p; stdin := stdin p;
                stdin_closed := stdin_closed p; state := state p;
                stdout := drop n (stdout p) |} in
  if (n <=? length (stdout p))%nat then Some (take n (stdout p), out)
  else match state p with
       | Running => None
       | _ => Some (stdout p, out)
       end.

End Popen.

(** ** The object store and the write targets *)

(** What a [WaveWrite] writes to: a [FakeFile] or the standard input of a
    subprocess (by reference). *)
Inductive target := TFile (i : nat) | TStdin (j : nat).

(** What a relay thread reads from. *)
Inductive source := SFile (i : nat) | SStdout (j : nat).

Record Heap := mkHeap { files : list FakeFile.t; procs : list Popen.t }.

Definition set_files (fs : list FakeFile.t) (h : Heap) : Heap :=
  {| files := fs; procs := procs h |}.
Definition set_procs (ps : list Popen.t) (h : Heap) : Heap :=
  {| files := files h; procs := ps |}.

(** [FakeFile()] and [subprocess.Popen(...)]: a fresh object. *)
Definition alloc_file (h : Heap) : nat * Heap :=
  (length (files h), set_files (files h ++ [FakeFile.new]) h).
Definition alloc_proc (argv : list string) (h : Heap) : nat * Heap :=
  (length (procs h), set_procs (procs h ++ [Popen.create argv]) h).

(** [target.write(data)]. [None]: a dangling reference (never the case for
    the references the worker creates). *)
Definition target_write (tgt : target) (data : bytes) (h : Heap) : option Heap :=
  match tgt with
  | TFile i =>
      f ← files h !! i; Some (set_files (<[i := FakeFile.write data f]> (files h)) h)
  | TStdin j =>
      p ← procs h !! j; Some (set_procs (<[j := Popen.stdin_write data p]> (procs h)) h)
  end.

(** [target.tell()]: 0 for a [FakeFile]; a pipe raises [OSError]. *)
Definition target_tell (tgt : target) : option Z :=
  match tgt with
  | TFile _ => Some FakeFile.tell
  | TStdin _ => None
  end.

(** ** WaveWrite (lines 19-24) over wave.Wave_write

    [wave] is Python's standard library. The methods below follow its
    [Wave_write] as the worker uses it: opened on a file object (so
    [close()] leaves the file object open), little-endian host (no byte
    swap), no [_convert]. The two positions [_write_header] records are
    read by [_patchheader] only, which [WaveWrite] replaces by [pass]. *)

Module WaveWrite.

Record t := mk {
  _file : option target;
  _nchannels : Z;
  _sampwidth : Z;
  _framerate : Z;
  _nframes : Z;
  _nframeswritten : Z;
  _datawritten : Z;
  _datalength : Z;
  _headerwritten : bool
}.

(** [WaveWrite(f)]: [initfp]. *)
Definition new (f : target) : t :=
  {| _file := Some f; _nchannels := 0; _sampwidth := 0; _framerate := 0;
     _nframes := 0; _nframeswritten := 0; _datawritten := 0;
     _datalength := 0; _headerwritten := false |}.

Definition setnchannels (nchannels : Z) (w : t) : option t :=
  if negb (_datawritten w =? 0) then None
  else if nchannels <? 1 then None
  else Some {| _file := _file w; _nchannels := nchannels;
               _sampwidth := _sampwidth w; _framerate := _framerate w;
               _nframes := _nframes w; _nframeswritten := _nframeswritten w;
               _datawritten := _datawritten w; _datalength := _datalength w;
               _headerwritten := _headerwritten w |}.

Definition setsampwidth (sampwidth : Z) (w : t) : option t :=
  if negb (_datawritten w =? 0) then None
  else if (sampwidth <? 1) || (4 <? sampwidth) then None
  else Some {| _file := _file w; _nchannels := _nchannels w;
               _sampwidth := sampwidth; _framerate := _framerate w;
               _nframes := _nframes w; _nframeswritten := _nframeswritten w;
               _datawritten := _datawritten w; _datalength := _datalength w;
               _headerwritten := _headerwritten w |}.

Definition setframerate (framerate : Z) (w : t) : option t :=
  if negb (_datawritten w =? 0) then None
  else if framerate <=? 0 then None
  else Some {| _file := _file w; _nchannels := _nchannels w;
               _sampwidth := _sampwidth w; _framerate := framerate;
               _nframes := _nframes w; _nframeswritten := _nframeswritten w;
               _datawritten := _datawritten w; _datalength := _datalength w;
               _headerwritten := _headerwritten w |}.

(** The 36 bytes of [struct.pack('<L4s4sLHHLLHH4s', ...)]. *)
Definition pack_form (datalength nchannels framerate sampwidth : Z)
    : option bytes :=
  a ← pack_L (36 + datalength);
  b ← pack_L 16;
  c ← pack_H WAVE_FORMAT_PCM;
  d ← pack_H nchannels;
  e ← pack_L framerate;
  f ← pack_L (nchannels * framerate * sampwidth);
  g ← pack_H (nchannels * sampwidth);
  h ← pack_H (sampwidth * 8);
  Some (a ++ b_WAVE ++ b_fmt ++ b ++ c ++ d ++ e ++ f ++ g ++ h ++ b_data).

(** [_write_header(initlength)]: three writes to the target. [None]: the
    assertion fails, the writer is closed, the division is by zero, or a
    field does not fit. *)
Definition _write_header (initlength : Z) (w : t) (h : Heap)
    : option (t * Heap) :=
  if _headerwritten w then None else
  tgt ← _file w;
  h1 ← target_write tgt b_RIFF h;
  if (_nframes w =? 0) && (_nchannels w * _sampwidth w =? 0) then None else
  let nframes :=
    if _nframes w =? 0 then initlength / (_nchannels w * _sampwidth w)
    else _nframes w in
  let datalength := nframes * _nchannels w * _sampwidth w in
  form ← pack_form datalength (_nchannels w) (_framerate w) (_sampwidth w);
  h2 ← target_write tgt form h1;
  len ← pack_L datalength;
  h3 ← target_write tgt len h2;
  Some ({| _file := _file w; _nchannels := _nchannels w;
           _sampwidth := _sampwidth w; _framerate := _framerate w;
           _nframes := nframes; _nframeswritten := _nframeswritten w;
           _datawritten := _datawritten w; _datalength := datalength;
           _headerwritten := true |}, h3).

(** Overridden by [WaveWrite]: [pass]. *)
Definition _ensure_header_written (datasize : Z) (w : t) : t := w.
Definition _patchheader (w : t) : t := w.

Definition writeframesraw (data : bytes) (w : t) (h : Heap)
    : option (t * Heap) :=
  let w := _ensure_header_written (Z.of_nat (length data)) w in
  if (_sampwidth w * _nchannels w =? 0) then None else
  let nframes := Z.of_nat (length data) / (_sampwidth w * _nchannels w) in
  tgt ← _file w;
  h' ← target_write tgt data h;
  Some ({| _file := _file w; _nchannels := _nchannels w;
           _sampwidth := _sampwidth w; _framerate := _framerate w;
           _nframes := _nframes w;
           _nframeswritten := _nframeswritten w + nframes;
           _datawritten := _datawritten w + Z.of_nat (length data);
           _datalength := _datalength w;
           _headerwritten := _headerwritten w |}, h').

(** [close()]: no header is written or patched (both are [pass]); the
    target is flushed, which changes neither kind of target, and the
    reference dropped. *)
Definition close (w : t) : t :=
  let w :=
    match _file w with
    | Some _ =>
        let w := _ensure_header_written 0 w in
        if _datalength w =? _datawritten w then w else _patchheader w
    | None => w
    end in
  {| _file := None; _nchannels := _nchannels w;
     _sampwidth := _sampwidth w; _framerate := _framerate w;
     _nframes := _nframes w; _nframeswritten := _nframeswritten w;
     _datawritten := _datawritten w; _datalength := _datalength w;
     _headerwritten := _headerwritten w |}.

End WaveWrite.

(** ** The worker: BaseTTS, OneTTS, ProcessTTS (lines 81-280) *)

(** The item [[text, voice, format_]] put on the request queue. *)
Record Request := mkRequest { text : string; voice : string; format_ : string }.

(** What [engine.generate(text)] does to the worker: the callbacks it makes,
    in order. [Speech data] is [_speech_callback(samples, count)] with
    [data = string_at(samples, count * SAMPLE_SIZE)]. *)
Inductive event := SetSampleRate (rate : Z) | Speech (data : bytes).

(** The concrete class of a worker object; it selects the overriding
    methods. *)
Inductive cls := OneTTS | ProcessTTS.

(** The relay thread [_InOut]: where it reads from, and whether [run] is
    still looping. Its output is always the worker's [_stream]. *)
Record InOut := mkInOut { _in : source; alive : bool }.

Inductive error := Unsupported_format (f : string) | Still_busy.

(** One worker object with the objects it owns ([heap]).

    [_wait], [_queue], [_processing], [_reading] and [_stream] are
    synchronisation objects, shared by the caller and the worker thread or
    process. The other attributes are plain ones. A [ProcessTTS] has them
    twice, once in the parent and once in the worker process; the fields
    below are the worker process's, and [_parent_work] is the parent's copy
    of [_work], the only plain attribute the parent assigns after the
    start.

    [_stream] of a [ProcessTTS] is a [multiprocessing.Queue]: [put] leaves
    the item in the queue's buffer, and a feeder thread of the putting
    process takes the items, in order, to the pipe the getters read. The
    field [_stream] holds the items put and not yet got, in order, wherever
    they are; [qsize()] is their number. A blocking [get()] waits for the
    feeder, so it returns the first of them; [get_nowait()] returns only an
    item that has reached the pipe. How far the feeder is behind when
    [_clear_old] empties the queue is not up to the worker: [feeder_lag]
    gives, for each coming run of that loop, the number of items (the last
    ones put) that do not reach the pipe in time for the loop to get them.
    An empty schedule is a feeder that is never behind. *)
Record TTS := mkTTS {
  kind : cls;
  _CMD : gmap string (list string);
  _wait : bool;
  _queue : list (option Request);
  _sample_rate : Z;
  _format : string;
  _popen : option nat;
  _file : option nat;
  _wave : option WaveWrite.t;
  _work : bool;
  _processing : bool;
  _reading : bool;
  _stream : list bytes;
  _in_out : option InOut;
  _parent_work : bool;
  heap : Heap;
  feeder_lag : list nat
}.

Definition set_wait (v : bool) (s : TTS) : TTS :=
  {| kind := kind s; _CMD := _CMD s; _wait := v; _queue := _queue s;
     _sample_rate := _sample_rate s; _format := _format s;
     _popen := _popen s; _file := _file s; _wave := _wave s;
     _work := _work s; _processing := _processing s; _reading := _reading s;
     _stream := _stream s; _in_out := _in_out s;
     _parent_work := _parent_work s; heap := heap s;
     feeder_lag := feeder_lag s |}.
Definition set_queue (v : list (option Request)) (s : TTS) : TTS :=
  {| kind := kind s; _CMD := _CMD s; _wait := _wait s; _queue := v;
     _sample_rate := _sample_rate s; _format := _format s;
     _popen := _popen s; _file := _file s; _wave := _wave s;
     _work := _work s; _processing := _processing s; _reading := _reading s;
     _stream := _stream s; _in_out := _in_out s;
     _parent_work := _parent_work s; heap := heap s;
     feeder_lag := feeder_lag s |}.
Definition set_sample_rate (v : Z) (s : TTS) : TTS :=
  {| kind := kind s; _CMD := _CMD s; _wait := _wait s; _queue := _queue s;
     _sample_rate := v; _format := _format s; _popen := _popen s;
     _file := _file s; _wave := _wave s; _work := _work s;
     _processing := _processing s; _reading := _reading s;
     _stream := _stream s; _in_out := _in_out s;
     _parent_work := _parent_work s; heap := heap s;
     feeder_lag := feeder_lag s |}.
Definition set_format (v : string) (s : TTS) : TTS :=
  {| kind := kind s; _CMD := _CMD s; _wait := _wait s; _queue := _queue s;
     _sample_rate := _sample_rate s; _format := v; _popen := _popen s;
     _file := _file s; _wave := _wave s; _work := _work s;
     _processing := _processing s; _reading := _reading s;
     _stream := _stream s; _in_out := _in_out s;
     _parent_work := _parent_work s; heap := heap s;
     feeder_lag := feeder_lag s |}.
Definition set_popen (v : option nat) (s : TTS) : TTS :=
  {| kind := kind s; _CMD := _CMD s; _wait := _wait s; _queue := _queue s;
     _sample_rate := _sample_rate s; _format := _format s; _popen := v;
     _file := _file s; _wave := _wave s; _work := _work s;
     _processing := _processing s; _reading := _reading s;
     _stream := _stream s; _in_out := _in_out s;
     _parent_work := _parent_work s; heap := heap s;
     feeder_lag := feeder_lag s |}.
Definition set_file (v : option nat) (s : TTS) : TTS :=
  {| kind := kind s; _CMD := _CMD s; _wait := _wait s; _queue := _queue s;
     _sample_rate := _sample_rate s; _format := _format s;
     _popen := _popen s; _file := v; _wave := _wave s; _work := _work s;
     _processing := _processing s; _reading := _reading s;
     _stream := _stream s; _in_out := _in_out s;
     _parent_work := _parent_work s; heap := heap s;
     feeder_lag := feeder_lag s |}.
Definition set_wave (v : option WaveWrite.t) (s : TTS) : TTS :=
  {| kind := kind s; _CMD := _CMD s; _wait := _wait s; _queue := _queue s;
     _sample_rate := _sample_rate s; _format := _format s;
     _popen := _popen s; _file := _file s; _wave := v; _work := _work s;
     _processing := _processing s; _reading := _reading s;
     _stream := _stream s; _in_out := _in_out s;
     _parent_work := _parent_work s; heap := heap s;
     feeder_lag := feeder_lag s |}.
Definition set_work (v : bool) (s : TTS) : TTS :=
  {| kind := kind s; _CMD := _CMD s; _wait := _wait s; _queue := _queue s;
     _sample_rate := _sample_rate s; _format := _format s;
     _popen := _popen s; _file := _file s; _wave := _wave s; _work := v;
     _processing := _processing s; _reading := _reading s;
     _stream := _stream s; _in_out := _in_out s;
     _parent_work := _parent_work s; heap := heap s;
     feeder_lag := feeder_lag s |}.
Definition set_processing (v : bool) (s : TTS) : TTS :=
  {| kind := kind s; _CMD := _CMD s; _wait := _wait s; _queue := _queue s;
     _sample_rate := _sample_rate s; _format := _format s;
     _popen := _popen s; _file := _file s; _wave := _wave s;
     _work := _work s; _processing := v; _reading := _reading s;
     _stream := _stream s; _in_out := _in_out s;
     _parent_work := _parent_work s; heap := heap s;
     feeder_lag := feeder_lag s |}.
Definition set_reading (v : bool) (s : TTS) : TTS :=
  {| kind := kind s; _CMD := _CMD s; _wait := _wait s; _queue := _queue s;
     _sample_rate := _sample_rate s; _format := _format s;
     _popen := _popen s; _file := _file s; _wave := _wave s;
     _work := _work s; _processing := _processing s; _reading := v;
     _stream := _stream s; _in_out := _in_out s;
     _parent_work := _parent_work s; heap := heap s;
     feeder_lag := feeder_lag s |}.
Definition set_stream (v : list bytes) (s : TTS) : TTS :=
  {| kind := kind s; _CMD := _CMD s; _wait := _wait s; _queue := _queue s;
     _sample_rate := _sample_rate s; _format := _format s;
     _popen := _popen s; _file := _file s; _wave := _wave s;
     _work := _work s; _processing := _processing s; _reading := _reading s;
     _stream := v; _in_out := _in_out s; _parent_work := _parent_work s;
     heap := heap s;
     feeder_lag := feeder_lag s |}.
Definition set_in_out (v : option InOut) (s : TTS) : TTS :=
  {| kind := kind s; _CMD := _CMD s; _wait := _wait s; _queue := _queue s;
     _sample_rate := _sample_rate s; _format := _format s;
     _popen := _popen s; _file := _file s; _wave := _wave s;
     _work := _work s; _processing := _processing s; _reading := _reading s;
     _stream := _stream s; _in_out := v; _parent_work := _parent_work s;
     heap := heap s;
     feeder_lag := feeder_lag s |}.
Definition set_parent_work (v : bool) (s : TTS) : TTS :=
  {| kind := kind s; _CMD := _CMD s; _wait := _wait s; _queue := _queue s;
     _sample_rate := _sample_rate s; _format := _format s;
     _popen := _popen s; _file := _file s; _wave := _wave s;
     _work := _work s; _processing := _processing s; _reading := _reading s;
     _stream := _stream s; _in_out := _in_out s; _parent_work := v;
     heap := heap s;
     feeder_lag := feeder_lag s |}.
Definition set_heap (v : Heap) (s : TTS) : TTS :=
  {| kind := kind s; _CMD := _CMD s; _wait := _wait s; _queue := _queue s;
     _sample_rate := _sample_rate s; _format := _format s;
     _popen := _popen s; _file := _file s; _wave := _wave s;
     _work := _work s; _processing := _processing s; _reading := _reading s;
     _stream := _stream s; _in_out := _in_out s;
     _parent_work := _parent_work s; heap := v;
     feeder_lag := feeder_lag s |}.
Definition set_feeder_lag (v : list nat) (s : TTS) : TTS :=
  {| kind := kind s; _CMD := _CMD s; _wait := _wait s; _queue := _queue s;
     _sample_rate := _sample_rate s; _format := _format s;
     _popen := _popen s; _file := _file s; _wave := _wave s;
     _work := _work s; _processing := _processing s; _reading := _reading s;
     _stream := _stream s; _in_out := _in_out s;
     _parent_work := _parent_work s; heap := heap s; feeder_lag := v |}.

Definition BUFF_SIZE : nat := 1024.
Definition SAMPLE_SIZE : Z := 2.
Definition InOut_BUFF : nat := 1024.

(** [BaseTTS.__init__], with the events [ProcessTTS.__init__] adds. No lag of
    the feeder is scheduled; [set_feeder_lag] gives a worker a schedule. *)
Definition TTS_init (k : cls) (cmd : gmap string (list string)) : TTS :=
  {| kind := k; _CMD := cmd; _wait := false; _queue := [];
     _sample_rate := 24000; _format := "wav"; _popen := None; _file := None;
     _wave := None; _work := true; _processing := true; _reading := false;
     _stream := []; _in_out := None; _parent_work := true;
     heap := {| files := []; procs := [] |}; feeder_lag := [] |}.

Definition _popen_create (s : TTS) : option TTS :=
  argv ← _CMD s !! _format s;
  let '(j, h) := alloc_proc argv (heap s) in
  Some (set_popen (Some j) (set_heap h s)).

Definition BaseTTS_select_target (s : TTS) : option (TTS * target) :=
  match _CMD s !! _format s with
  | Some _ =>
      s' ← _popen_create s;
      j ← _popen s';
      Some (s', TStdin j)
  | None =>
      let '(i, h) := alloc_file (heap s) in
      Some (set_file (Some i) (set_heap h s), TFile i)
  end.

(** One turn of the loop of [_InOut.run]: read, put, stop on the empty
    chunk. [None]: no live relay, or the read blocks. *)
Definition relay_step (s : TTS) : option TTS :=
  io ← _in_out s;
  if negb (alive io) then None else
  match _in io with
  | SFile i =>
      f ← files (heap s) !! i;
      '(chunk, f') ← FakeFile.read f;
      Some (set_in_out (Some {| _in := _in io; alive := negb (is_empty chunk) |})
             (set_stream (_stream s ++ [chunk])
               (set_heap (set_files (<[i := f']> (files (heap s))) (heap s)) s)))
  | SStdout j =>
      p ← procs (heap s) !! j;
      '(chunk, p') ← Popen.stdout_read InOut_BUFF p;
      Some (set_in_out (Some {| _in := _in io; alive := negb (is_empty chunk) |})
             (set_stream (_stream s ++ [chunk])
               (set_heap (set_procs (<[j := p']> (procs (heap s))) (heap s)) s)))
  end.

(** [self._in_out.join()]: the relay loops until it has relayed the empty
    chunk. [None]: it blocks for ever (nothing else runs in the worker while
    it waits), or [fuel] turns were not enough. *)
Fixpoint InOut_join (fuel : nat) (s : TTS) : option TTS :=
  match _in_out s with
  | None => Some s
  | Some io =>
      if alive io then
        match fuel with
        | O => None
        | S n => s' ← relay_step s; InOut_join n s'
        end
      else Some s
  end.

(** Turns that are enough for the relay to reach the end of its input. *)
Definition join_fuel (s : TTS) : nat :=
  match _in_out s with
  | Some {| _in := SStdout j |} =>
      match procs (heap s) !! j with
      | Some p => S (S (length (Popen.stdout p)))
      | None => 0
      end
  | _ => 2
  end.

(** [self._stream.get_nowait()] with [in_pipe] of the queued items in the
    pipe: [None] is [queue.Empty], raised when no item has reached the pipe,
    also while [qsize()] is not 0. *)
Definition get_nowait (in_pipe : nat) (q : list bytes)
    : option (bytes * list bytes) :=
  match in_pipe, q with
  | S _, c :: q' => Some (c, q')
  | _, _ => None
  end.

(** [while self._stream.qsize(): try: self._stream.get_nowait()
    except queue.Empty: break]; at most [n] turns. [in_pipe]: how many of
    the queued items reach the pipe in time for the loop. *)
Fixpoint drain_stream (n : nat) (in_pipe : nat) (q : list bytes) : list bytes :=
  match n with
  | O => q
  | S n' =>
      if (length q =? 0)%nat then q
      else match get_nowait in_pipe q with
           | Some (_, q') => drain_stream n' (pred in_pipe) q'
           | None => q
           end
  end.

(** [_clear_old]: the join of the relay thread, then the loop. The loop
    takes the next entry of the feeder's schedule. *)
Definition _clear_old (s : TTS) : option TTS :=
  s1 ← match _in_out s with
       | Some _ => InOut_join (join_fuel s) s
       | None => Some s
       end;
  let q := _stream s1 in
  let lag := hd 0%nat (feeder_lag s1) in
  Some (set_feeder_lag (tl (feeder_lag s1))
          (set_stream (drain_stream (length q) (length q - lag) q) s1)).

Definition ProcessTTS_select_target (s : TTS) : option (TTS * target) :=
  s1 ← _clear_old s;
  match _CMD s1 !! _format s1 with
  | Some _ =>
      s2 ← _popen_create s1;
      j ← _popen s2;
      Some (set_in_out (Some {| _in := SStdout j; alive := true |}) s2, TStdin j)
  | None =>
      let '(i, h) := alloc_file (heap s1) in
      Some (set_in_out (Some {| _in := SFile i; alive := true |})
              (set_file (Some i) (set_heap h s1)), TFile i)
  end.

(** [self._select_target()]: the method of the object's class. *)
Definition _select_target (s : TTS) : option (TTS * target) :=
  match kind s with
  | OneTTS => BaseTTS_select_target s
  | ProcessTTS => ProcessTTS_select_target s
  end.

Definition _wave_close (s : TTS) : TTS :=
  match _wave s with
  | Some w => let _ := WaveWrite.close w in set_wave None s
  | None => s
  end.

Definition kill_proc (j : nat) (h : Heap) : Heap :=
  match procs h !! j with
  | Some p => set_procs (<[j := Popen.kill p]> (procs h)) h
  | None => h
  end.

Definition _start_stream (s : TTS) : option TTS :=
  let s := _wave_close s in
  let s := match _file s with Some _ => set_file None s | None => s end in
  let s := match _popen s with
           | Some j => set_popen None (set_heap (kill_proc j (heap s)) s)
           | None => s
           end in
  '(s, tgt) ← _select_target s;
  w ← WaveWrite.setnchannels 1 (WaveWrite.new tgt);
  w ← WaveWrite.setsampwidth SAMPLE_SIZE w;
  w ← WaveWrite.setframerate (_sample_rate s) w;
  Some (set_wave (Some w) s).

(** The callbacks return the new state and the continuation flag. [None]:
    an exception leaves the callback. *)
Definition _speech_callback (data : bytes) (s : TTS) : option (TTS * bool) :=
  w ← _wave s;
  '(w', h') ← WaveWrite.writeframesraw data w (heap s);
  Some (set_wave (Some w') (set_heap h' s), _work s).

Definition _sr_callback (rate : Z) (s : TTS) : option (TTS * bool) :=
  let s := set_sample_rate rate s in
  s ← _start_stream s;
  w ← _wave s;
  '(w', h') ← WaveWrite._write_header 0xFFFFFFF w (heap s);
  Some (set_wait true (set_wave (Some w') (set_heap h' s)), true).

(** The engine is an external library. [engine.generate] makes its
    callbacks one after the other and, as the callbacks' continuation flag
    asks, stops making them once one has returned false. *)
Definition callback (ev : event) (s : TTS) : option (TTS * bool) :=
  match ev with
  | SetSampleRate rate => _sr_callback rate s
  | Speech data => _speech_callback data s
  end.

Fixpoint engine_generate (evs : list event) (s : TTS) : option TTS :=
  match evs with
  | [] => Some s
  | ev :: evs' =>
      match callback ev s with
      | Some (s', true) => engine_generate evs' s'
      | Some (s', false) => Some s'
      | None => None
      end
  end.

(** What the environment contributes to one [_generate]: the callbacks of
    the engine, and whether the encoder exits within the 5 seconds of
    [self._popen.wait(5)]. *)
Record Env := mkEnv { callbacks : list event; exits_in_time : bool }.

Definition end_file (i : nat) (h : Heap) : option Heap :=
  f ← files h !! i;
  Some (set_files (<[i := FakeFile.end_ f]> (files h)) h).

(** [stdin.close()], then [wait(5)] with [TimeoutExpired] passed over. *)
Definition close_and_wait (exited : bool) (j : nat) (h : Heap) : option Heap :=
  p ← procs h !! j;
  let p := Popen.stdin_close p in
  let '(p, _) := Popen.wait exited p in
  Some (set_procs (<[j := p]> (procs h)) h).

Definition BaseTTS_generate (req : Request) (env : Env) (s : TTS) : option TTS :=
  let s := set_format (format_ req) s in
  s ← engine_generate (callbacks env) s;
  let s := _wave_close s in
  s ← match _file s with
      | Some i => h ← end_file i (heap s); Some (set_heap h s)
      | None => Some s
      end;
  match _popen s with
  | Some j => h ← close_and_wait (exits_in_time env) j (heap s); Some (set_heap h s)
  | None => Some s
  end.

(** [try: super()._generate(...) finally: self._processing.set()]. *)
Definition ProcessTTS_generate (req : Request) (env : Env) (s : TTS) : option TTS :=
  s' ← BaseTTS_generate req env s;
  Some (set_processing true s').

Definition _generate (req : Request) (env : Env) (s : TTS) : option TTS :=
  match kind s with
  | OneTTS => BaseTTS_generate req env s
  | ProcessTTS => ProcessTTS_generate req env s
  end.

(** The statements of [BaseTTS._generate] that follow [engine.generate]:
    what is left of a request once the engine has returned. *)
Definition BaseTTS_generate_end (exited : bool) (s : TTS) : option TTS :=
  let s := _wave_close s in
  s ← match _file s with
      | Some i => h ← end_file i (heap s); Some (set_heap h s)
      | None => Some s
      end;
  match _popen s with
  | Some j => h ← close_and_wait exited j (heap s); Some (set_heap h s)
  | None => Some s
  end.

(** [run]: the loop over the request queue, on the items queued when it is
    entered. The flag tells whether [run] has returned (it met the [None]
    marker) or waits in [get()] on the empty queue. [engine] is what the
    environment does for each request. *)
Fixpoint run_queue (engine : Request -> Env) (q : list (option Request))
    (s : TTS) : option (TTS * bool) :=
  match q with
  | [] => Some (set_queue [] s, false)
  | None :: q' => Some (set_queue q' s, true)
  | Some req :: q' =>
      s' ← _generate req (engine req) (set_queue q' s);
      run_queue engine q' s'
  end.

Definition run (engine : Request -> Env) (s : TTS) : option (TTS * bool) :=
  run_queue engine (_queue s) s.

(** [BaseTTS.say], the body of the context manager up to the wait: the check of the
    format, then the request is queued. *)
Definition BaseTTS_say (req : Request) (s : TTS) : error + TTS :=
  if negb (String.eqb (format_ req) "wav") &&
     negb (bool_decide (is_Some (_CMD s !! format_ req)))
  then inl (Unsupported_format (format_ req))
  else inr (set_queue (_queue s ++ [Some req]) s).

(** [self._wait.wait(3600); self._wait.clear()]: [None] while the event is
    not set and the hour has not passed. *)
Definition say_wait (timed_out : bool) (s : TTS) : option TTS :=
  if _wait s || timed_out then Some (set_wait false s) else None.

(** One turn of [_iter_me]: [Some chunk] is yielded, or the iterator ends
    ([None] inside); the outer [None] is a read that blocks. *)
Definition BaseTTS_iter_me (buff : nat) (s : TTS) : option (option bytes * TTS) :=
  '(chunk, s') ←
    match _popen s with
    | Some j =>
        p ← procs (heap s) !! j;
        '(chunk, p') ← Popen.stdout_read buff p;
        Some (chunk, set_heap (set_procs (<[j := p']> (procs (heap s))) (heap s)) s)
    | None =>
        i ← _file s;
        f ← files (heap s) !! i;
        '(chunk, f') ← FakeFile.read f;
        Some (chunk, set_heap (set_files (<[i := f']> (files (heap s))) (heap s)) s)
    end;
  Some (if is_empty chunk then None else Some chunk, s').

Definition ProcessTTS_iter_me (buff : nat) (s : TTS) : option (option bytes * TTS) :=
  match _stream s with
  | [] => None
  | chunk :: rest =>
      if is_empty chunk then Some (None, set_reading false (set_stream rest s))
      else Some (Some chunk, set_stream rest s)
  end.

Definition _iter_me (buff : nat) (s : TTS) : option (option bytes * TTS) :=
  match kind s with
  | OneTTS => BaseTTS_iter_me buff s
  | ProcessTTS => ProcessTTS_iter_me buff s
  end.

(** The [finally] of [ProcessTTS._iter_me] when the consumer closes or drops
    a started iterator before its end. *)
Definition ProcessTTS_iter_close (s : TTS) : TTS := set_reading false s.

Definition busy (s : TTS) : bool := negb (_processing s) || _reading s.

Definition set_busy (s : TTS) : TTS := set_reading true (set_processing false s).

(** [join], up to [super().join()]: the flag and the marker. On a
    [ProcessTTS] the caller is the parent process, and the assignment is to
    the parent's copy of the attribute. *)
Definition OneTTS_join (s : TTS) : TTS :=
  let s := set_work false s in
  set_queue (_queue s ++ [None]) s.

Definition ProcessTTS_join (s : TTS) : TTS :=
  let s := set_parent_work false s in
  set_queue (_queue s ++ [None]) s.

Definition join (s : TTS) : TTS :=
  match kind s with
  | OneTTS => OneTTS_join s
  | ProcessTTS => ProcessTTS_join s
  end.

(** ** The pool: MultiTTS (lines 283-310) *)

Module MultiTTS.

(** Seconds. *)
Definition TIMEOUT : Z := 30.

(** [time.perf_counter()] is read in nanoseconds. *)
Definition ns_per_second : Z := 1000000000.

Record t := mk { _workers : list TTS; _lock : bool; _work : bool }.

(** What [worker.say(text, voice, format_, buff)] returns: the context
    manager made by [@contextmanager]. None of the body of [say] has run
    yet; it runs up to its [yield] when the caller enters the [with]
    block. *)
Record ContextManager :=
  mkCM { cm_worker : nat; cm_request : Request; cm_buff : nat }.

Inductive outcome := Returned (cm : ContextManager) | Raised (e : error).

(** The [for] loop: the first worker that does not report busy is marked
    busy and chosen. *)
Fixpoint scan (ws : list TTS) : option (nat * list TTS) :=
  match ws with
  | [] => None
  | w :: ws' =>
      if negb (busy w) then Some (O, set_busy w :: ws')
      else match scan ws' with
           | Some (i, ws'') => Some (S i, w :: ws'')
           | None => None
           end
  end.

(** The [while True] loop. Between two scans the workers change under the
    dispatcher (they finish, their consumers finish): each item of [sched]
    is the clock reading after one [time.sleep(0.05)] and the workers as
    the next scan finds them. [None]: [sched] ends before the loop does. *)
Fixpoint poll (end_time : Z) (req : Request) (buff : nat) (ws : list TTS)
    (sched : list (Z * list TTS)) : option (list TTS * outcome) :=
  match scan ws with
  | Some (i, ws') =>
      Some (ws', Returned {| cm_worker := i; cm_request := req; cm_buff := buff |})
  | None =>
      match sched with
      | [] => None
      | (now, ws_next) :: sched' =>
          if end_time <? now then Some (ws, Raised Still_busy)
          else poll end_time req buff ws_next sched'
      end
  end.

(** [end_time = time.perf_counter() + self.TIMEOUT]. *)
Definition end_time (now : Z) : Z := now + TIMEOUT * ns_per_second.

(** The workers the last scan saw. *)
Definition last_scanned (ws : list TTS) (sched : list (Z * list TTS))
    : list TTS :=
  default ws (last (sched.*2)).

(** [say]: [now] is the clock reading on entry. [None]: the lock is held
    (the call waits in [acquire]), or [sched] is too short. *)
Definition say (req : Request) (buff : nat) (now : Z)
    (sched : list (Z * list TTS)) (pool : t) : option (t * outcome) :=
  if _lock pool then None else
  let pool := {| _workers := _workers pool; _lock := true; _work := _work pool |} in
  '(ws, out) ← poll (end_time now) req buff (_workers pool) sched;
  Some ({| _workers := ws; _lock := false; _work := _work pool |}, out).

(** Entering the [with] block: the body of [BaseTTS.say] runs on the
    chosen worker, up to the wait for the stream. *)
Definition enter (cm : ContextManager) (pool : t) : option (error + t) :=
  w ← _workers pool !! cm_worker cm;
  match BaseTTS_say (cm_request cm) w with
  | inl e => Some (inl e)
  | inr w' =>
      Some (inr {| _workers := <[cm_worker cm := w']> (_workers pool);
                   _lock := _lock pool; _work := _work pool |})
  end.

(** [join], up to the waits for the worker processes. *)
Definition join (pool : t) : t :=
  if negb (_work pool) then pool
  else {| _workers := ProcessTTS_join <$> _workers pool;
          _lock := _lock pool; _work := false |}.

End MultiTTS.

(** ** What runs while a process worker is claimed *)

(** Whether a step ends the consumer's iterator. *)
Inductive iterator := Goes_on | Ends.

(** One step of anything the model lets happen to a process worker from the
    dispatcher's [set_busy] on: the caller queues the request and waits for
    the stream; the worker process takes a request off the queue and stores
    its format, serves a callback of the engine, runs the statements of
    [_generate] that follow the engine's return and the [finally] that sets
    [_processing] (or does all of that for one request, or for the whole
    queue, in one go); the relay thread moves a chunk; the pool is shut
    down; the consumer's iterator yields a chunk. Two steps end the
    consumer's iterator, and both run the [finally] of [_iter_me]: the
    iterator receives the terminal empty chunk, or the consumer closes (or
    drops) the started iterator before that. *)
Inductive claimed_step : iterator -> TTS -> TTS -> Prop :=
  | step_say req s s' :
      BaseTTS_say req s = inr s' -> claimed_step Goes_on s s'
  | step_say_wait timed_out s s' :
      say_wait timed_out s = Some s' -> claimed_step Goes_on s s'
  | step_take req q s :
      _queue s = Some req :: q ->
      claimed_step Goes_on s (set_format (format_ req) (set_queue q s))
  | step_callback ev s s' cont :
      callback ev s = Some (s', cont) -> claimed_step Goes_on s s'
  | step_generate_end exited s s' :
      BaseTTS_generate_end exited s = Some s' ->
      claimed_step Goes_on s (set_processing true s')
  | step_generate req env s s' :
      ProcessTTS_generate req env s = Some s' -> claimed_step Goes_on s s'
  | step_run engine s s' returned :
      run engine s = Some (s', returned) -> claimed_step Goes_on s s'
  | step_relay s s' :
      relay_step s = Some s' -> claimed_step Goes_on s s'
  | step_join s :
      claimed_step Goes_on s (ProcessTTS_join s)
  | step_yield buff chunk s s' :
      ProcessTTS_iter_me buff s = Some (Some chunk, s') ->
      claimed_step Goes_on s s'
  | step_sentinel buff s s' :
      ProcessTTS_iter_me buff s = Some (None, s') -> claimed_step Ends s s'
  | step_close s :
      claimed_step Ends s (ProcessTTS_iter_close s).

Definition all_busy (ws : list TTS) : Prop := Forall (fun w => busy w = true) ws.

(** What the worker's own activity leaves alone: the class, the encoder
    table, both copies of the shutdown flag, the consumer's reading flag and
    the request queue. *)
Definition frame (s s' : TTS) : Prop :=
  kind s' = kind s /\ _CMD s' = _CMD s /\ _work s' = _work s /\
  _parent_work s' = _parent_work s /\ _reading s' = _reading s /\
  _queue s' = _queue s.

(** [returns o P]: the computation [o] returns, with a result that
    satisfies [P]. *)
Definition returns {A} (o : option A) (P : A -> Prop) : Prop :=
  match o with Some a => P a | None => False end.

(** ** Conditions under which a new stream can be started *)

(** The relay thread, if there is one, has returned or will: its input is a
    [FakeFile] that is closed or holds a terminal sentinel, or the output of
    a subprocess that is gone. Joining it then ends. *)
Definition relay_can_finish (s : TTS) : Prop :=
  match _in_out s with
  | None => True
  | Some io =>
      alive io = false \/
      match _in io with
      | SFile i =>
          exists f, files (heap s) !! i = Some f /\
                    (FakeFile._open f = false \/ [] ∈ FakeFile.queue f)
      | SStdout j =>
          exists p, procs (heap s) !! j = Some p /\
                    Popen.state p <> Popen.Running
      end
  end.

(** The first statements of [_start_stream], up to the call of
    [_select_target]. *)
Definition teardown (s : TTS) : TTS :=
  let s := _wave_close s in
  let s := match _file s with Some _ => set_file None s | None => s end in
  match _popen s with
  | Some j => set_popen None (set_heap (kill_proc j (heap s)) s)
  | None => s
  end.

(** [_select_target] makes progress: on a thread worker always, on a process
    worker when its relay thread can be joined. *)
Definition joinable (s : TTS) : Prop :=
  match kind s with
  | OneTTS => True
  | ProcessTTS => relay_can_finish s
  end.

(** A thread worker can always start a stream; a process worker joins its
    relay thread first. *)
Definition startable (s : TTS) : Prop :=
  match kind s with
  | OneTTS => True
  | ProcessTTS => relay_can_finish (teardown s)
  end.

(** What the relay thread and its join leave alone: everything but the
    stream, the thread object and the contents of the objects read. *)
Definition relay_only (s s' : TTS) : Prop :=
  frame s s' /\ _wait s' = _wait s /\ _sample_rate s' = _sample_rate s /\
  _format s' = _format s /\ _popen s' = _popen s /\ _file s' = _file s /\
  _wave s' = _wave s /\ _processing s' = _processing s /\
  length (files (heap s')) = length (files (heap s)) /\
  length (procs (heap s')) = length (procs (heap s)).

(** What the loop of [_clear_old] leaves of the queue [q] when the feeder is
    [lag] items behind: the last [lag] items. *)
Definition undelivered (lag : nat) (q : list bytes) : list bytes :=
  drop (length q - lag) q.

Definition relay_returned (s : TTS) : Prop :=
  match _in_out s with
  | None => True
  | Some io => alive io = false
  end.

(** No relay thread at work and nothing in the stream queue: a new worker,
    or one whose last stream has been relayed and read to its end. *)
Definition clean (s : TTS) : Prop := relay_returned s /\ _stream s = [].

(** ** The header of the native format *)

(** The three chunks [_write_header(initlength)] writes for one channel of
    2-byte samples at [rate]: ["RIFF"], the form chunk up to ["data"], and
    the data length. The declared data length is [initlength] rounded down
    to whole frames. *)
Definition wav_header (initlength rate : Z) : list bytes :=
  let datalength := initlength / 2 * 2 in
  [ b_RIFF;
    le_bytes 4 (36 + datalength) ++ b_WAVE ++ b_fmt ++ le_bytes 4 16 ++
    le_bytes 2 1 ++ le_bytes 2 1 ++ le_bytes 4 rate ++ le_bytes 4 (rate * 2) ++
    le_bytes 2 2 ++ le_bytes 2 16 ++ b_data;
    le_bytes 4 datalength ].

(** The chunks that reach a [FakeFile] from a list of sample buffers: the
    empty ones are not queued. *)
Definition queued (ds : list bytes) : list bytes :=
  List.filter (fun d => negb (is_empty d)) ds.

(** The writer [_start_stream] leaves behind: one channel, [SAMPLE_SIZE]
    bytes a sample, the announced rate, nothing written. *)
Definition configured (tgt : target) (rate : Z) : WaveWrite.t :=
  {| WaveWrite._file := Some tgt; WaveWrite._nchannels := 1;
     WaveWrite._sampwidth := SAMPLE_SIZE; WaveWrite._framerate := rate;
     WaveWrite._nframes := 0; WaveWrite._nframeswritten := 0;
     WaveWrite._datawritten := 0; WaveWrite._datalength := 0;
     WaveWrite._headerwritten := false |}.

(** Successive writes to one target. *)
Fixpoint target_writes (tgt : target) (chunks : list bytes) (h : Heap)
    : option Heap :=
  match chunks with
  | [] => Some h
  | c :: cs => h' ← target_write tgt c h; target_writes tgt cs h'
  end.

(** A worker in the middle of a request for the native format: its open
    writer writes to its [FakeFile] number [i], which is open and has [q]
    pending; there is no subprocess. *)
Definition streaming (s : TTS) (i : nat) (q : list bytes) : Prop :=
  _file s = Some i /\ _popen s = None /\
  files (heap s) !! i = Some {| FakeFile.queue := q; FakeFile._open := true |} /\
  exists w, _wave s = Some w /\ WaveWrite._file w = Some (TFile i) /\
            WaveWrite._sampwidth w * WaveWrite._nchannels w <> 0.

(** A worker in the middle of a request for an encoded format: its open
    writer writes to the standard input of its subprocess number [j], which
    runs [argv], has received [data] and has its input still open. *)
Definition encoding (s : TTS) (j : nat) (argv : list string) (data : bytes)
    : Prop :=
  _popen s = Some j /\ _file s = None /\
  (exists out, procs (heap s) !! j =
     Some {| Popen.args := argv; Popen.stdin := data;
             Popen.stdin_closed := false; Popen.state := Popen.Running;
             Popen.stdout := out |}) /\
  exists w, _wave s = Some w /\ WaveWrite._file w = Some (TStdin j) /\
            WaveWrite._sampwidth w * WaveWrite._nchannels w <> 0.

(** The output side of a write target: what the relay thread on it reads. *)
Definition source_of (tgt : target) : source :=
  match tgt with
  | TFile i => SFile i
  | TStdin j => SStdout j
  end.

(** The target of the request being served: the subprocess if there is one,
    else the [FakeFile]. *)
Definition current_target (s : TTS) : option target :=
  match _popen s with
  | Some j => Some (TStdin j)
  | None => TFile <$> _file s
  end.

(** What the chunk callbacks and the end of [_generate] leave alone: the
    stream, the relay thread and the references to the current target. *)
Definition kept (s s' : TTS) : Prop :=
  _stream s' = _stream s /\ _in_out s' = _in_out s /\
  _popen s' = _popen s /\ _file s' = _file s.

(** ** Example states *)

(** A worker in the middle of a request for the native format: the engine
    has announced 24000 Hz, so the header is out and the writer is open. *)
Definition started (k : cls) : TTS :=
  default (TTS_init k ∅) (fst <$> _sr_callback 24000 (TTS_init k ∅)).

Definition lame : list string := ["lame"; "-htv"; "--silent"; "-"; "-"]%string.

(** A pool of two idle process workers that can encode mp3 only. *)
Definition pool_of_two : MultiTTS.t :=
  {| MultiTTS._workers :=
       [TTS_init ProcessTTS {[ "mp3"%string := lame ]};
        TTS_init ProcessTTS {[ "mp3"%string := lame ]}];
     MultiTTS._lock := false; MultiTTS._work := true |}.

(** A pool of one process worker that has been claimed. *)
Definition pool_of_one_busy : MultiTTS.t :=
  {| MultiTTS._workers := [set_busy (TTS_init ProcessTTS ∅)];
     MultiTTS._lock := false; MultiTTS._work := true |}.


(** A request for the native format on a claimed process worker, step by
    step, the relay thread taking its turn after each callback: the worker
    is claimed ([flight0]); the caller queues the request ([flight1]); the
    worker takes it ([flight2]); the engine announces 24000 Hz ([flight3]);
    the caller passes its wait ([flight4]); the relay thread moves the
    header ([flight5]); the engine delivers two bytes of samples
    ([flight6]); the relay thread moves them ([flight7]); the engine
    returns and [_generate] ends ([flight8]); the consumer's iterator yields
    the header ([flight9]). *)
Definition hi : Request := {| text := "hi"; voice := "anna"; format_ := "wav" |}.

Definition flight0 : TTS := set_busy (TTS_init ProcessTTS ∅).
Definition flight1 : TTS :=
  match BaseTTS_say hi flight0 with inr s => s | inl _ => flight0 end.
Definition flight2 : TTS := set_format (format_ hi) (set_queue [] flight1).
Definition flight3 : TTS :=
  default flight2 (fst <$> callback (SetSampleRate 24000) flight2).
Definition flight4 : TTS := default flight3 (say_wait false flight3).
Definition flight5 : TTS := default flight4 (relay_step flight4).
Definition flight6 : TTS :=
  default flight5 (fst <$> callback (Speech ["a"; "b"]%byte) flight5).
Definition flight7 : TTS := default flight6 (relay_step flight6).
Definition flight8 : TTS :=
  set_processing true (default flight7 (BaseTTS_generate_end true flight7)).
Definition flight9 : TTS :=
  default flight8 (snd <$> ProcessTTS_iter_me 1024 flight8).

(** ** More of the file: the encoder table, the factory, the loops of the
    consumer, [to_file] *)

(** Every call on a [FakeFile] a producer or a consumer can make. *)
Inductive call := CWrite (data : bytes) | CRead | CEnd.

Definition call_write (c : call) : option bytes :=
  match c with CWrite d => Some d | _ => None end.

Definition is_end (c : call) : bool :=
  match c with CEnd => true | _ => false end.

(** Runs the calls in order; returns what the reads returned. [None] when a
    read blocks. *)
Fixpoint calls_run (cs : list call) (f : FakeFile.t)
    : option (list bytes * FakeFile.t) :=
  match cs with
  | [] => Some ([], f)
  | CWrite d :: cs' => calls_run cs' (FakeFile.write d f)
  | CEnd :: cs' => calls_run cs' (FakeFile.end_ f)
  | CRead :: cs' =>
      match FakeFile.read f with
      | None => None
      | Some (r, f') =>
          match calls_run cs' f' with
          | None => None
          | Some (rs, f'') => Some (r :: rs, f'')
          end
      end
  end.

(** [base_cmd] of [_cmd_init] (lines 68-71), in the order of the dict: the
    format, its command line, the binary looked up and the package named in
    the message. *)
Definition opusenc : list string :=
  ["opusenc"; "--quiet"; "--discard-comments"; "--ignorelength"; "-"; "-"]%string.

Definition base_cmd : list (string * (list string * string * string)) :=
  [("mp3", (lame, "lame", "lame"));
   ("opus", (opusenc, "opusenc", "opus-tools"))]%string.

(** The line printed for a format whose binary is not found. *)
Definition disable_message (key bin pkg : string) : string :=
  ("Disable " ++ key ++ " support - " ++ bin ++ " not found. Use apt install "
   ++ pkg)%string.

(** The loop of [_cmd_init]; [which] is [shutil.which] as a test. Returns the
    table and the lines printed so far. *)
Fixpoint cmd_init_loop (which : string -> bool)
    (items : list (string * (list string * string * string)))
    (cmd : gmap string (list string)) (out : list string)
    : gmap string (list string) * list string :=
  match items with
  | [] => (cmd, out)
  | (key, (argv, bin, pkg)) :: items' =>
      if which bin then cmd_init_loop which items' (<[key := argv]> cmd) out
      else cmd_init_loop which items' cmd (out ++ [disable_message key bin pkg])
  end.

Definition _cmd_init (which : string -> bool)
    : gmap string (list string) * list string :=
  cmd_init_loop which base_cmd ∅ [].

(** [MultiTTS.__init__]: [count] process workers, all built alike. *)
Definition MultiTTS_init (count : nat) (cmd : gmap string (list string))
    : MultiTTS.t :=
  {| MultiTTS._workers := replicate count (TTS_init ProcessTTS cmd);
     MultiTTS._lock := false; MultiTTS._work := true |}.

(** What [TTS(...)] returns: one thread worker or a pool. *)
Inductive tts := Single (w : TTS) | Pool (p : MultiTTS.t).

(** [TTS(lib_path, data_path, resources, threads)] (lines 313-319). *)
Definition make_TTS (which : string -> bool) (threads : Z) : tts :=
  let threads := if 0 <? threads then threads else 1 in
  let cmd := (_cmd_init which).1 in
  if threads =? 1 then Single (TTS_init OneTTS cmd)
  else Pool (MultiTTS_init (Z.to_nat threads) cmd).

(** [for chunk in read]: the turns of [_iter_me] up to the end of the
    iterator; returns the chunks yielded. [None]: a read blocks, or [fuel]
    turns were not enough. *)
Fixpoint iterate (fuel : nat) (buff : nat) (s : TTS)
    : option (list bytes * TTS) :=
  match fuel with
  | O => None
  | S n =>
      match _iter_me buff s with
      | None => None
      | Some (None, s') => Some ([], s')
      | Some (Some chunk, s') =>
          match iterate n buff s' with
          | None => None
          | Some (chunks, s'') => Some (chunk :: chunks, s'')
          end
      end
  end.

(** The request queue behind its first shutdown marker; empty when there is
    no marker. *)
Fixpoint after_marker (q : list (option Request)) : list (option Request) :=
  match q with
  | [] => []
  | None :: q' => q'
  | Some _ :: q' => after_marker q'
  end.

Definition has_marker (q : list (option Request)) : bool :=
  existsb (fun x => match x with None => true | Some _ => false end) q.

(** [fp.write(chunk)] for each chunk, on the file [filename] of a file
    system. *)
Definition fs_append (filename : string) (chunks : list bytes)
    (fs : gmap string bytes) : gmap string bytes :=
  <[filename := default [] (fs !! filename) ++ concat chunks]> fs.

(** [to_file] (lines 157-161) of a thread worker, with the worker thread
    taking its turn where the caller waits for the stream: the file is
    opened for writing (created or truncated), [say] checks and queues the
    request, the worker's [run] serves what is queued, the caller passes the
    wait and writes every chunk of the iterator. Returns the file system,
    the worker and the exception raised, if any. [timed_out]: the hour of
    the wait passes; [None]: some step blocks or [fuel] is too little. *)
Definition to_file (engine : Request -> Env) (timed_out : bool) (fuel : nat)
    (filename : string) (req : Request) (fs : gmap string bytes) (s : TTS)
    : option (gmap string bytes * TTS * option error) :=
  let fs := <[filename := []]> fs in
  match BaseTTS_say req s with
  | inl e => Some (fs, s, Some e)
  | inr s1 =>
      '(s2, _) ← run engine s1;
      s3 ← say_wait timed_out s2;
      '(chunks, s4) ← iterate fuel 1024 s3;
      Some (fs_append filename chunks fs, s4, None)
  end.

(** A pool in which the first [k] of [n] workers have been claimed and
    nothing else has happened. *)
Definition claimed (k n : nat) (cmd : gmap string (list string)) : MultiTTS.t :=
  {| MultiTTS._workers :=
       replicate k (set_busy (TTS_init ProcessTTS cmd)) ++
       replicate (n - k) (TTS_init ProcessTTS cmd);
     MultiTTS._lock := false; MultiTTS._work := true |}.

(** The pieces of at most [n] bytes [read(n)] cuts a finished output into. *)
Fixpoint pieces (fuel n : nat) (data : bytes) : list bytes :=
  match fuel with
  | O => []
  | S k =>
      match data with
      | [] => []
      | _ :: _ => take n data :: pieces k n (drop n data)
      end
  end.

(** What one call of [MultiTTS.say] may do to the workers [ws] its deciding
    scan found, leaving [ws']: raise [Still_busy] with every worker busy and
    none touched, or return the context manager of one worker that was not
    busy, now marked busy, every worker before it busy and no other worker
    touched. *)
Definition say_outcome (req : Request) (buff : nat) (ws ws' : list TTS)
    (out : MultiTTS.outcome) : Prop :=
  match out with
  | MultiTTS.Raised e => e = Still_busy /\ ws' = ws /\ all_busy ws
  | MultiTTS.Returned cm =>
      MultiTTS.cm_request cm = req /\ MultiTTS.cm_buff cm = buff /\
      exists w, ws !! MultiTTS.cm_worker cm = Some w /\ busy w = false /\
                ws' = <[MultiTTS.cm_worker cm := set_busy w]> ws /\
                all_busy (take (MultiTTS.cm_worker cm) ws)
  end.

(** * Properties *)

Lemma is_empty_true data : is_empty data = true <-> data = [].
Proof. destruct data; simpl; split; congruence. Qed.

Lemma is_empty_false data : is_empty data = false <-> data <> [].
Proof. destruct data; simpl; split; congruence. Qed.

(** ** FakeFile *)

Section FakeFileFacts.
Import FakeFile.

Lemma drain_spec q : forall data op,
  drain q data op =
    (data ++ concat q, op && forallb (fun c => negb (is_empty c)) q).
Proof.
  induction q as [|c q IH]; intros data op; simpl.
  - by rewrite app_nil_r, andb_true_r.
  - rewrite IH, <- app_assoc. f_equal.
    destruct (is_empty c), op; simpl; try reflexivity.
Qed.

Lemma all_data_forallb q :
  all_data q -> forallb (fun c => negb (is_empty c)) q = true.
Proof.
  induction 1 as [|c q Hc _ IH]; simpl; [done|].
  apply is_empty_false in Hc. by rewrite Hc, IH.
Qed.

Lemma all_data_concat (c : bytes) (q : list bytes) :
  c <> [] -> concat (c :: q) <> [].
Proof. destruct c; simpl; congruence. Qed.

(** A read on an open adapter that holds data only: it blocks on the empty
    queue, and otherwise hands over everything pending and stays open. *)
Lemma read_open_data f :
  _open f = true -> all_data (queue f) ->
  read f =
    match queue f with
    | [] => None
    | _ :: _ => Some (concat (queue f), new)
    end.
Proof.
  intros Ho Hq. unfold read, qsize. rewrite Ho. simpl.
  destruct (queue f) as [|c [|c' q]] eqn:E; simpl; [done| |].
  - apply Forall_cons in Hq as [Hc _]. apply is_empty_false in Hc.
    by rewrite Hc, app_nil_r.
  - rewrite drain_spec. simpl.
    apply Forall_cons in Hq as [Hc Hq]. apply Forall_cons in Hq as [Hc' Hq].
    apply is_empty_false in Hc, Hc'.
    rewrite Hc, Hc'. simpl.
    by rewrite (all_data_forallb _ Hq), <- app_assoc.
Qed.

Lemma write_open_data d f :
  d <> [] -> _open f = true -> all_data (queue f) ->
  _open (write d f) = true /\ all_data (queue (write d f)) /\
  queue (write d f) = queue f ++ [d].
Proof.
  intros Hd Ho Hq. unfold write. apply is_empty_false in Hd as Hd'.
  rewrite Hd'. simpl. repeat split; [done|].
  apply Forall_app. split; [done|]. by constructor.
Qed.

(** Before [end] is called: the adapter stays open, every read result is a
    non-empty chunk, and what was read plus what is pending is what was
    written. *)
Lemma run_open_data ops : forall f rs f',
  Forall nonempty_write ops ->
  _open f = true -> all_data (queue f) ->
  run ops f = Some (rs, f') ->
  _open f' = true /\ all_data (queue f') /\ all_data rs /\
  concat rs ++ concat (queue f') = concat (queue f) ++ concat (writes_of ops).
Proof.
  induction ops as [|o ops IH]; intros f rs f' Hops Ho Hq Hrun.
  - simpl in Hrun. injection Hrun as <- <-. simpl.
    rewrite app_nil_r. repeat split; try done. constructor.
  - apply Forall_cons in Hops as [Hd Hops]. destruct o as [d|]; simpl in *.
    + destruct (write_open_data d f Hd Ho Hq) as (Ho' & Hq' & Eq).
      destruct (IH _ _ _ Hops Ho' Hq' Hrun) as (H1 & H2 & H3 & H4).
      repeat split; try done.
      rewrite H4, Eq, concat_app. simpl. by rewrite app_nil_r, app_assoc.
    + rewrite (read_open_data f Ho Hq) in Hrun.
      destruct (queue f) as [|c q] eqn:E; [done|].
      destruct (run ops new) as [[rs' f'']|] eqn:R; [|done].
      injection Hrun as <- <-.
      destruct (IH new rs' f'' Hops eq_refl (List.Forall_nil _) R)
        as (H1 & H2 & H3 & H4).
      repeat split; try done.
      * constructor; [|done]. apply all_data_concat.
        by apply Forall_cons in Hq as [Hc _].
      * simpl in H4. rewrite <- H4. simpl. by rewrite <- !app_assoc.
Qed.

(** Once closed, every read returns the empty chunk at once and changes
    nothing. *)
Lemma read_closed f : _open f = false -> read f = Some ([], f).
Proof. intros Ho. unfold read. by rewrite Ho. Qed.

Lemma run_closed n f :
  _open f = false -> run (repeat Read n) f = Some (repeat [] n, f).
Proof.
  intros Ho. induction n as [|n IH]; simpl; [done|].
  by rewrite (read_closed f Ho), IH.
Qed.

(** The first read after [end] on an adapter holding data only. *)
Lemma read_after_end f :
  _open f = true -> all_data (queue f) ->
  read (end_ f) = Some (concat (queue f), {| queue := []; _open := false |}).
Proof.
  intros Ho Hq. unfold end_, read, put_nowait, qsize. rewrite Ho. simpl.
  rewrite length_app. simpl.
  destruct (queue f) as [|c q] eqn:E; simpl; [done|].
  replace (1 <? S (length q + 1))%nat with true
    by (symmetry; apply Nat.ltb_lt; lia).
  rewrite drain_spec. simpl. do 2 f_equal.
  - by rewrite concat_app; simpl; rewrite !app_nil_r.
  - f_equal. rewrite forallb_app. simpl.
    by rewrite andb_false_r, andb_false_r.
Qed.

End FakeFileFacts.

(** C1. Any interleaving of writes of non-empty chunks with reads that find
    something to return, then one [end()], then reads: the read results are
    non-empty chunks whose concatenation is the concatenation of the written
    chunks in write order, then the empty chunk; no read after [end()]
    blocks, all reads after the first empty one return the empty chunk, the
    queue is left empty and the adapter closed. *)
Theorem C1_reads_return_writes_then_empty
    (ops : list FakeFile.op) (n : nat) (rs : list bytes) (f : FakeFile.t) :
  Forall FakeFile.nonempty_write ops ->
  FakeFile.run ops FakeFile.new = Some (rs, f) ->
  exists post data k f',
    FakeFile.run (repeat FakeFile.Read (S (S n))) (FakeFile.end_ f)
      = Some (post, f') /\
    rs ++ post = data ++ repeat [] (S k) /\
    all_data data /\
    concat data = concat (FakeFile.writes_of ops) /\
    (n <= k)%nat /\
    FakeFile.queue f' = [] /\ FakeFile._open f' = false /\
    FakeFile.read f' = Some ([], f').
Proof.
  intros Hops Hrun.
  destruct (run_open_data ops FakeFile.new _ _ Hops eq_refl (List.Forall_nil _) Hrun)
    as (Ho & Hq & Hrs & Hcat).
  simpl in Hcat.
  set (f' := {| FakeFile.queue := []; FakeFile._open := false |}).
  assert (Hpost : FakeFile.run (repeat FakeFile.Read (S (S n))) (FakeFile.end_ f)
                  = Some (concat (FakeFile.queue f) :: repeat [] (S n), f')).
  { change (repeat FakeFile.Read (S (S n)))
      with (FakeFile.Read :: repeat FakeFile.Read (S n)).
    cbn [FakeFile.run]. rewrite (read_after_end f Ho Hq).
    fold f'. by rewrite (run_closed (S n) f' eq_refl). }
  destruct (FakeFile.queue f) as [|c q] eqn:E.
  - exists ([] :: repeat [] (S n)), rs, (S n), f'.
    simpl in Hcat, Hpost. rewrite app_nil_r in Hcat.
    repeat split; try done. lia.
  - exists (concat (c :: q) :: repeat [] (S n)), (rs ++ [concat (c :: q)]), n, f'.
    repeat split; try done.
    + by rewrite <- app_assoc.
    + apply Forall_app. split; [done|]. constructor; [|constructor].
      apply all_data_concat. by apply Forall_cons in Hq as [Hc _].
    + rewrite concat_app. simpl. by rewrite app_nil_r.
Qed.

Lemma C1_reads_return_writes_then_empty_witness :
  exists post data k f',
    FakeFile.run (repeat FakeFile.Read 3)
      (FakeFile.end_ (FakeFile.mk [["b"%byte]; ["c"%byte]] true))
      = Some (post, f') /\
    [["a"%byte]] ++ post = data ++ repeat [] (S k) /\
    all_data data /\
    concat data =
      concat (FakeFile.writes_of
        [FakeFile.Write ["a"%byte]; FakeFile.Read;
         FakeFile.Write ["b"%byte]; FakeFile.Write ["c"%byte]]) /\
    (1 <= k)%nat /\
    FakeFile.queue f' = [] /\ FakeFile._open f' = false /\
    FakeFile.read f' = Some ([], f').
Proof.
  apply (C1_reads_return_writes_then_empty
           [FakeFile.Write ["a"%byte]; FakeFile.Read;
            FakeFile.Write ["b"%byte]; FakeFile.Write ["c"%byte]] 1).
  - repeat constructor; discriminate.
  - reflexivity.
Defined.

(** C2, as stated, fails: on a fresh adapter the second [end()] enqueues a
    second terminal sentinel. *)
Lemma C2_second_end_enqueues_again :
  FakeFile.queue (FakeFile.end_ (FakeFile.end_ FakeFile.new)) = [[]; []] /\
  FakeFile.queue (FakeFile.end_ (FakeFile.end_ FakeFile.new))
    <> FakeFile.queue (FakeFile.end_ FakeFile.new) /\
  FakeFile.sentinels (FakeFile.end_ (FakeFile.end_ FakeFile.new)) = 2%nat.
Proof. repeat split. discriminate. Qed.

(** C2, amended. [end()] leaves the queue alone only on a closed adapter
    (one whose reader has consumed a sentinel); on an open adapter each call
    enqueues a sentinel, so two calls enqueue two. The reader cannot tell:
    from the first read on, results and adapter state after two [end()]
    calls are those after one. *)
Theorem C2_end_twice_same_reads (f : FakeFile.t) (n : nat) :
  FakeFile.queue (FakeFile.end_ (FakeFile.end_ f)) =
    (if FakeFile._open f then FakeFile.queue f ++ [[]; []] else FakeFile.queue f) /\
  FakeFile.run (repeat FakeFile.Read (S n)) (FakeFile.end_ (FakeFile.end_ f)) =
    FakeFile.run (repeat FakeFile.Read (S n)) (FakeFile.end_ f).
Proof.
  destruct f as [q o]. unfold FakeFile.end_, FakeFile.put_nowait. simpl.
  destruct o; simpl; [|done]. split; [by rewrite <- app_assoc|].
  unfold FakeFile.read, FakeFile.qsize. simpl.
  rewrite !length_app. simpl.
  replace (1 <? length q + 1 + 1)%nat with true
    by (symmetry; apply Nat.ltb_lt; lia).
  rewrite !drain_spec, !forallb_app. simpl.
  rewrite !concat_app. simpl. rewrite !app_nil_r, !andb_false_r.
  destruct q as [|c q]; simpl; [done|].
  replace (1 <? S (length q + 1))%nat with true
    by (symmetry; apply Nat.ltb_lt; lia).
  reflexivity.
Qed.

(** C9. Writing the empty chunk changes nothing, whatever the state, and no
    write, empty or not, adds a terminal sentinel to the queue or touches the
    open flag. *)
Theorem C9_empty_write_is_noop (f : FakeFile.t) (data : bytes) :
  FakeFile.write [] f = f /\
  FakeFile.sentinels (FakeFile.write data f) = FakeFile.sentinels f /\
  FakeFile._open (FakeFile.write data f) = FakeFile._open f.
Proof.
  split; [done|]. unfold FakeFile.write, FakeFile.sentinels.
  destruct data as [|b data]; simpl; [done|]. split; [|done].
  rewrite List.filter_app, length_app. simpl. lia.
Qed.

(** ** The worker: what its activity leaves alone *)

Ltac inv_some :=
  repeat match goal with
  | H : Some _ = Some _ |- _ => injection H as H; try subst
  | H : None = Some _ |- _ => discriminate H
  | H : Some _ = None |- _ => discriminate H
  | H : (_, _) = (_, _) |- _ => injection H as ? ?; try subst
  | H : mbind _ ?o = Some _ |- _ =>
      let E := fresh "E" in destruct o eqn:E; simpl in H; [|discriminate H]
  | H : (let '(_, _) := ?p in _) = Some _ |- _ => destruct p; simpl in H
  | H : (if ?b then _ else _) = Some _ |- _ =>
      let E := fresh "E" in destruct b eqn:E; simpl in H
  | H : match ?x with _ => _ end = Some _ |- _ =>
      let E := fresh "E" in destruct x eqn:E; simpl in H
  end.

Ltac frame_close :=
  unfold frame, _wave_close in *; simpl in *;
  repeat case_match; simpl in *; intuition congruence.

Lemma frame_refl s : frame s s.
Proof. by repeat split. Qed.

Lemma frame_trans s1 s2 s3 : frame s1 s2 -> frame s2 s3 -> frame s1 s3.
Proof.
  unfold frame. intros (?&?&?&?&?&?) (?&?&?&?&?&?). repeat split; congruence.
Qed.

Lemma relay_step_frame s s' : relay_step s = Some s' -> frame s s'.
Proof. unfold relay_step. intros H. inv_some; by repeat split. Qed.

Lemma InOut_join_frame n : forall s s', InOut_join n s = Some s' -> frame s s'.
Proof.
  induction n as [|n IH]; intros s s' H; simpl in H; inv_some;
    try apply frame_refl.
  eapply frame_trans; [by apply relay_step_frame|by apply IH].
Qed.

Lemma clear_old_frame s s' : _clear_old s = Some s' -> frame s s'.
Proof.
  unfold _clear_old. intros H. inv_some; [|by repeat split].
  apply InOut_join_frame in E. frame_close.
Qed.

Lemma popen_create_frame s s' : _popen_create s = Some s' -> frame s s'.
Proof. unfold _popen_create. intros H. inv_some. by repeat split. Qed.

Lemma select_target_frame s s' tgt :
  _select_target s = Some (s', tgt) -> frame s s'.
Proof.
  unfold _select_target, BaseTTS_select_target, ProcessTTS_select_target.
  intros H. inv_some.
  all: repeat match goal with
       | H : _popen_create _ = Some _ |- _ => apply popen_create_frame in H
       | H : _clear_old _ = Some _ |- _ => apply clear_old_frame in H
       end.
  all: frame_close.
Qed.

Lemma start_stream_frame s s' : _start_stream s = Some s' -> frame s s'.
Proof.
  unfold _start_stream. intros H. inv_some.
  apply select_target_frame in E. frame_close.
Qed.

Lemma callback_frame ev s s' b : callback ev s = Some (s', b) -> frame s s'.
Proof.
  destruct ev; simpl; unfold _sr_callback, _speech_callback; intros H; inv_some.
  - apply start_stream_frame in E. frame_close.
  - by repeat split.
Qed.

Lemma engine_generate_frame evs : forall s s',
  engine_generate evs s = Some s' -> frame s s'.
Proof.
  induction evs as [|ev evs IH]; intros s s' H; simpl in H; inv_some.
  - apply frame_refl.
  - eapply frame_trans; [by eapply callback_frame|by apply IH].
  - by eapply callback_frame.
Qed.

Lemma BaseTTS_generate_frame req env s s' :
  BaseTTS_generate req env s = Some s' -> frame s s'.
Proof.
  unfold BaseTTS_generate. intros H. inv_some.
  all: apply engine_generate_frame in E.
  all: frame_close.
Qed.

Lemma generate_reading req env s s' :
  _generate req env s = Some s' -> _reading s' = _reading s.
Proof.
  unfold _generate, ProcessTTS_generate. intros H. inv_some.
  all: match goal with
       | H : BaseTTS_generate _ _ _ = Some _ |- _ =>
           apply BaseTTS_generate_frame in H
       end.
  all: frame_close.
Qed.

Lemma run_queue_reading engine q : forall s s' r,
  run_queue engine q s = Some (s', r) -> _reading s' = _reading s.
Proof.
  induction q as [|[req|] q IH]; intros s s' r H; simpl in H; inv_some;
    try done.
  apply generate_reading in E. apply IH in H. simpl in *. congruence.
Qed.

(** Every step that does not end the consumer's iterator keeps the reading
    flag. *)
Lemma claimed_step_reading s s' :
  claimed_step Goes_on s s' -> _reading s' = _reading s.
Proof.
  intros Hs.
  inversion Hs as [req x y H|t x y H|req q x H|ev x y c H|ex x y H|req env x y H
                  |engine x y r H|x y H|x|buff chunk x y H| |]; subst.
  - unfold BaseTTS_say in H. case_match; [done|]. by injection H as <-.
  - unfold say_wait in H. case_match; [|done]. by injection H as <-.
  - done.
  - apply callback_frame in H. frame_close.
  - unfold BaseTTS_generate_end, _wave_close in H.
    destruct (_wave s); simpl in H; inv_some; done.
  - unfold ProcessTTS_generate in H. inv_some.
    apply BaseTTS_generate_frame in E. frame_close.
  - by apply run_queue_reading in H.
  - apply relay_step_frame in H. frame_close.
  - done.
  - unfold ProcessTTS_iter_me in H. inv_some. done.
Qed.

Lemma scan_picks_idle ws : forall i ws',
  MultiTTS.scan ws = Some (i, ws') ->
  exists w, ws !! i = Some w /\ busy w = false /\ ws' = <[i := set_busy w]> ws /\
            all_busy (take i ws).
Proof.
  induction ws as [|w ws IH]; intros i ws' H; simpl in H; [done|].
  destruct (busy w) eqn:B; simpl in H.
  - destruct (MultiTTS.scan ws) as [[k ws'']|] eqn:S; [|done].
    injection H as <- <-. destruct (IH _ _ eq_refl) as (w' & L & B' & -> & A).
    exists w'. repeat split; try done. simpl. by constructor.
  - injection H as <- <-. exists w. repeat split; try done. constructor.
Qed.

Lemma scan_all_busy ws : all_busy ws -> MultiTTS.scan ws = None.
Proof.
  induction 1 as [|w ws B _ IH]; simpl; [done|]. by rewrite B, IH.
Qed.

(** The steps of the worker process on one request make up
    [ProcessTTS._generate]. *)
Lemma generate_in_steps req env s :
  ProcessTTS_generate req env s =
    (s1 ← engine_generate (callbacks env) (set_format (format_ req) s);
     s2 ← BaseTTS_generate_end (exits_in_time env) s1;
     Some (set_processing true s2)).
Proof.
  unfold ProcessTTS_generate, BaseTTS_generate, BaseTTS_generate_end.
  by destruct (engine_generate _ _).
Qed.

(** C8, as stated, fails. A claimed process worker serves a request for the
    native format, the relay thread moving the header and then the samples
    to the stream queue; the consumer takes the first chunk (the header) and
    closes its iterator. The [finally] of [_iter_me] clears the reading
    flag: the worker, which was busy up to there, reports not busy with the
    samples unread in the stream queue (and the terminal chunk not yet
    relayed), and the next scan of the pool picks it. *)
Lemma C8_early_close_leaves_output_unread :
  let header := concat (wav_header 0xFFFFFFF 24000) in
  BaseTTS_say hi flight0 = inr flight1 /\
  _queue flight1 = [Some hi] /\
  callback (SetSampleRate 24000) flight2 = Some (flight3, true) /\
  say_wait false flight3 = Some flight4 /\
  relay_step flight4 = Some flight5 /\ _stream flight5 = [header] /\
  callback (Speech ["a"; "b"]%byte) flight5 = Some (flight6, true) /\
  relay_step flight6 = Some flight7 /\
  _stream flight7 = [header; ["a"; "b"]%byte] /\
  (s ← BaseTTS_generate_end true flight7; Some (set_processing true s))
    = Some flight8 /\
  ProcessTTS_iter_me 1024 flight8 = Some (Some header, flight9) /\
  busy flight9 = true /\
  busy (ProcessTTS_iter_close flight9) = false /\
  _stream (ProcessTTS_iter_close flight9) = [["a"; "b"]%byte] /\
  MultiTTS.scan [ProcessTTS_iter_close flight9] =
    Some (0%nat, [set_busy (ProcessTTS_iter_close flight9)]).
Proof.
  intros header.
  split; [vm_compute; reflexivity|]. split; [vm_compute; reflexivity|].
  split; [vm_compute; reflexivity|]. split; [vm_compute; reflexivity|].
  split; [vm_compute; reflexivity|]. split; [vm_compute; reflexivity|].
  split; [vm_compute; reflexivity|]. split; [vm_compute; reflexivity|].
  split; [vm_compute; reflexivity|]. split; [vm_compute; reflexivity|].
  split; [vm_compute; reflexivity|]. split; [vm_compute; reflexivity|].
  split; [vm_compute; reflexivity|]. split; vm_compute; reflexivity.
Qed.

(** C8, amended. From [set_busy] on, whatever the caller, the worker
    process, the relay thread and the consumer do short of ending the
    consumer's iterator, the worker reports busy, and a scan of a pool never
    picks it. The iterator ends in one of two ways, and both clear the
    reading flag, after which the worker is busy only as long as its request
    is being processed: on the terminal empty chunk, which it takes off the
    stream queue, or when the consumer closes it early, with the stream
    queue left as it is, unread output included. *)
Theorem C8_busy_until_iterator_ends (s s' : TTS) :
  rtc (claimed_step Goes_on) (set_busy s) s' ->
  busy s' = true /\
  (forall ws i ws', MultiTTS.scan ws = Some (i, ws') -> ws !! i <> Some s') /\
  (forall s'', claimed_step Ends s' s'' ->
     _reading s'' = false /\ busy s'' = negb (_processing s') /\
     ((head (_stream s') = Some [] /\ _stream s'' = tail (_stream s')) \/
      _stream s'' = _stream s')).
Proof.
  intros Hsteps.
  assert (R : _reading s' = true).
  { remember (set_busy s) as s0 eqn:E0.
    assert (R0 : _reading s0 = true) by by subst.
    clear E0. induction Hsteps as [|x y z Hxy _ IH]; [done|].
    apply IH. by rewrite (claimed_step_reading _ _ Hxy). }
  assert (B : busy s' = true) by (unfold busy; rewrite R; apply orb_true_r).
  split; [done|]. split.
  - intros ws i ws' Hscan Hi.
    destruct (scan_picks_idle _ _ _ Hscan) as (w & L & Bw & _).
    congruence.
  - intros s'' Hend.
    inversion Hend as [| | | | | | | | | |buff x y H|x]; subst.
    + unfold ProcessTTS_iter_me in H.
      destruct (_stream s') as [|c rest] eqn:Est; [done|].
      destruct (is_empty c) eqn:Ec; [|done].
      injection H as <-. apply is_empty_true in Ec. subst c.
      split; [done|]. split; [unfold busy; simpl; by rewrite orb_false_r|].
      left. done.
    + split; [done|].
      split; [unfold busy, ProcessTTS_iter_close; simpl; by rewrite orb_false_r|].
      by right.
Qed.

Lemma C8_busy_until_iterator_ends_witness :
  busy flight9 = true /\
  (forall ws i ws', MultiTTS.scan ws = Some (i, ws') -> ws !! i <> Some flight9) /\
  (forall s'', claimed_step Ends flight9 s'' ->
     _reading s'' = false /\ busy s'' = negb (_processing flight9) /\
     ((head (_stream flight9) = Some [] /\ _stream s'' = tail (_stream flight9)) \/
      _stream s'' = _stream flight9)).
Proof.
  apply (C8_busy_until_iterator_ends (TTS_init ProcessTTS ∅) flight9).
  change (set_busy (TTS_init ProcessTTS ∅)) with flight0.
  apply (rtc_l _ _ flight1); [apply (step_say hi); vm_compute; reflexivity|].
  apply (rtc_l _ _ flight2); [apply (step_take hi []); vm_compute; reflexivity|].
  apply (rtc_l _ _ flight3);
    [apply (step_callback (SetSampleRate 24000) _ _ true); vm_compute; reflexivity|].
  apply (rtc_l _ _ flight4); [apply (step_say_wait false); vm_compute; reflexivity|].
  apply (rtc_l _ _ flight5); [apply step_relay; vm_compute; reflexivity|].
  apply (rtc_l _ _ flight6);
    [apply (step_callback (Speech ["a"; "b"]%byte) _ _ true); vm_compute; reflexivity|].
  apply (rtc_l _ _ flight7); [apply step_relay; vm_compute; reflexivity|].
  apply (rtc_l _ _ flight8);
    [apply (step_generate_end true flight7
              (default flight7 (BaseTTS_generate_end true flight7)));
     vm_compute; reflexivity|].
  apply (rtc_l _ _ flight9);
    [apply (step_yield 1024 (concat (wav_header 0xFFFFFFF 24000)));
     vm_compute; reflexivity|].
  apply rtc_refl.
Defined.

(** A consumer that closes its iterator early frees the worker (once the
    generation is over) with the stream as it is; what is left there is for
    the [_clear_old] of the next stream to remove, as far as the feeder has
    delivered it. *)
Lemma iter_close_frees_worker s :
  _processing s = true ->
  busy (ProcessTTS_iter_close s) = false /\
  _stream (ProcessTTS_iter_close s) = _stream s.
Proof. intros H. unfold busy, ProcessTTS_iter_close. simpl. by rewrite H. Qed.

(** ** Joining the relay thread and clearing the stream *)

Lemma returns_Some {A} (o : option A) P : returns o P <-> exists a, o = Some a /\ P a.
Proof. destruct o; simpl; split; [eauto|by intros (?&[= <-]&?)|done|by intros (?&?&?)]. Qed.

Lemma returns_bind {A B} (o : option A) (f : A -> option B) P :
  returns o (fun a => returns (f a) P) -> returns (o ≫= f) P.
Proof. by destruct o. Qed.

Lemma returns_mono {A} (o : option A) (P Q : A -> Prop) :
  returns o P -> (forall a, o = Some a -> P a -> Q a) -> returns o Q.
Proof. destruct o; simpl; [|done]. intros HP H. by apply H. Qed.

Lemma relay_only_refl s : relay_only s s.
Proof. unfold relay_only. repeat split. Qed.

Lemma relay_only_trans s1 s2 s3 : relay_only s1 s2 -> relay_only s2 s3 -> relay_only s1 s3.
Proof.
  unfold relay_only. intros (F1&?&?&?&?&?&?&?&?&?) (F2&?&?&?&?&?&?&?&?&?).
  split; [by eapply frame_trans|]. repeat split; congruence.
Qed.

Lemma relay_step_only s s' : relay_step s = Some s' -> relay_only s s'.
Proof.
  intros H. split; [by apply relay_step_frame|].
  unfold relay_step in H. inv_some; simpl; repeat split; try done.
  all: by rewrite length_insert.
Qed.

Lemma InOut_join_only n : forall s s', InOut_join n s = Some s' -> relay_only s s'.
Proof.
  induction n as [|n IH]; intros s s' H; simpl in H; inv_some;
    try apply relay_only_refl.
  eapply relay_only_trans; [by apply relay_step_only|by apply IH].
Qed.

Lemma read_ended f :
  FakeFile._open f = false \/ [] ∈ FakeFile.queue f ->
  exists chunk f', FakeFile.read f = Some (chunk, f') /\ FakeFile._open f' = false.
Proof.
  intros Hend. unfold FakeFile.read.
  destruct (FakeFile._open f) eqn:Ho; simpl; [|by eauto].
  destruct Hend as [|Hs]; [done|].
  destruct (1 <? FakeFile.qsize f)%nat eqn:Q.
  - rewrite drain_spec. do 2 eexists. split; [done|]. simpl.
    apply not_true_is_false. intros Hall. rewrite forallb_forall in Hall.
    apply list_elem_of_In in Hs. by specialize (Hall _ Hs).
  - unfold FakeFile.qsize in Q. apply Nat.ltb_ge in Q.
    destruct (FakeFile.queue f) as [|c [|c' q]] eqn:Eq; simpl in *; try lia.
    + by apply elem_of_nil in Hs.
    + apply list_elem_of_singleton in Hs. subst c. by eauto.
Qed.

Lemma InOut_join_file s io i f :
  _in_out s = Some io -> alive io = true -> _in io = SFile i ->
  files (heap s) !! i = Some f ->
  (FakeFile._open f = false \/ [] ∈ FakeFile.queue f) ->
  returns (InOut_join 2 s) relay_returned.
Proof.
  intros Hio Ha Hin Hf Hend.
  destruct (read_ended f Hend) as (chunk & f' & R & Hclosed).
  assert (Hstep : relay_step s =
    Some (set_in_out (Some {| _in := _in io; alive := negb (is_empty chunk) |})
           (set_stream (_stream s ++ [chunk])
             (set_heap (set_files (<[i := f']> (files (heap s))) (heap s)) s)))).
  { unfold relay_step. rewrite Hio. simpl. rewrite Ha, Hin. simpl.
    rewrite Hf. simpl. by rewrite R. }
  cbn [InOut_join]. rewrite Hio, Ha, Hstep. simpl.
  destruct (is_empty chunk) eqn:Ec; simpl; [done|].
  unfold relay_step. simpl. rewrite Hin.
  rewrite list_lookup_insert_eq by (by eapply lookup_lt_Some).
  simpl. by rewrite (read_closed f' Hclosed).
Qed.

Lemma stdout_read_gone n p :
  Popen.state p <> Popen.Running ->
  exists chunk p', Popen.stdout_read n p = Some (chunk, p') /\
    Popen.state p' = Popen.state p /\
    (is_empty chunk = false -> (length (Popen.stdout p') < length (Popen.stdout p) \/ n = 0)%nat).
Proof.
  intros Hs. unfold Popen.stdout_read.
  destruct (n <=? length (Popen.stdout p))%nat eqn:L.
  - do 2 eexists. split; [done|]. split; [done|]. simpl. intros Hne.
    apply Nat.leb_le in L. rewrite length_drop.
    destruct n; [by right|]. left. lia.
  - destruct (Popen.state p) eqn:S; [done| |].
    all: do 2 eexists; (split; [done|]); simpl; (split; [done|]).
    all: intros Hne; left; rewrite length_drop; apply Nat.leb_gt in L.
    all: destruct (Popen.stdout p); [done|simpl in *; lia].
Qed.

Lemma InOut_join_stdout fuel : forall s io j p,
  _in_out s = Some io -> alive io = true -> _in io = SStdout j ->
  procs (heap s) !! j = Some p -> Popen.state p <> Popen.Running ->
  (length (Popen.stdout p) < fuel)%nat ->
  returns (InOut_join fuel s) relay_returned.
Proof.
  induction fuel as [|fuel IH]; intros s io j p Hio Ha Hin Hp Hs Hf; [lia|].
  destruct (stdout_read_gone InOut_BUFF p Hs) as (chunk & p' & R & Hs' & Hlen).
  assert (Hstep : relay_step s =
    Some (set_in_out (Some {| _in := _in io; alive := negb (is_empty chunk) |})
           (set_stream (_stream s ++ [chunk])
             (set_heap (set_procs (<[j := p']> (procs (heap s))) (heap s)) s)))).
  { unfold relay_step. rewrite Hio. simpl. rewrite Ha, Hin. simpl.
    rewrite Hp. simpl. by rewrite R. }
  cbn [InOut_join]. rewrite Hio, Ha, Hstep. simpl.
  destruct (is_empty chunk) eqn:Ec.
  - destruct fuel; simpl; done.
  - eapply (IH _ _ j p'); simpl; try done.
    + apply list_lookup_insert_eq. by eapply lookup_lt_Some.
    + congruence.
    + destruct (Hlen eq_refl) as [?|?]; [lia|done].
Qed.

Lemma drain_stream_spec n : forall in_pipe q,
  (length q <= n)%nat ->
  drain_stream n in_pipe q = drop (in_pipe `min` length q) q.
Proof.
  induction n as [|n IH]; intros in_pipe q Hn.
  - destruct q; [|simpl in Hn; lia]. by rewrite drop_nil.
  - destruct q as [|c q]; [by rewrite drop_nil|]. cbn [drain_stream].
    change (length (c :: q) =? 0)%nat with false. cbv iota.
    destruct in_pipe as [|k]; [done|]. cbn [get_nowait Nat.pred].
    rewrite IH by (simpl in Hn; lia). done.
Qed.

Lemma drain_stream_lag lag q :
  drain_stream (length q) (length q - lag) q = undelivered lag q.
Proof.
  rewrite drain_stream_spec by done. unfold undelivered. f_equal. lia.
Qed.


Lemma relay_step_feeder_lag s s' :
  relay_step s = Some s' -> feeder_lag s' = feeder_lag s.
Proof. unfold relay_step. intros H. inv_some; done. Qed.

Lemma InOut_join_feeder_lag n : forall s s',
  InOut_join n s = Some s' -> feeder_lag s' = feeder_lag s.
Proof.
  induction n as [|n IH]; intros s s' H; simpl in H; inv_some; try done.
  apply relay_step_feeder_lag in E1. apply IH in H. congruence.
Qed.

Lemma InOut_join_returned n s : relay_returned s -> InOut_join n s = Some s.
Proof.
  unfold relay_returned. intros H. destruct n; simpl.
  all: destruct (_in_out s) as [io|]; [|done]; simpl in H; by rewrite H.
Qed.

Lemma InOut_join_ok s :
  relay_can_finish s -> returns (InOut_join (join_fuel s) s) relay_returned.
Proof.
  unfold relay_can_finish, join_fuel. intros H.
  destruct (_in_out s) as [io|] eqn:Hio.
  2: { assert (R : relay_returned s) by (unfold relay_returned; by rewrite Hio).
       by rewrite (InOut_join_returned _ s R). }
  destruct (alive io) eqn:Ha.
  2: { assert (R : relay_returned s) by (unfold relay_returned; by rewrite Hio).
       by rewrite (InOut_join_returned _ s R). }
  destruct H as [|H]; [done|]. destruct io as [src a]. simpl in *. subst a.
  destruct src as [i|j].
  - destruct H as (f & Hf & Hend). by eapply InOut_join_file.
  - destruct H as (p & Hp & Hs). rewrite Hp.
    eapply InOut_join_stdout; try done. lia.
Qed.

(** [_clear_old] on a worker whose relay thread can finish: the relay thread
    is joined, and of what the stream then holds the loop leaves what the
    feeder has not delivered. *)
Lemma clear_old_ok s :
  relay_can_finish s ->
  returns (_clear_old s)
    (fun s1 => relay_only s s1 /\
               (exists s0, InOut_join (join_fuel s) s = Some s0 /\
                           _stream s1 =
                             undelivered (hd 0%nat (feeder_lag s)) (_stream s0) /\
                           feeder_lag s1 = tl (feeder_lag s)) /\
               relay_returned s1).
Proof.
  intros H. unfold _clear_old.
  destruct (_in_out s) as [io|] eqn:Hio.
  - pose proof (InOut_join_ok s H) as J.
    destruct (InOut_join (join_fuel s) s) as [s1|] eqn:E; [|done].
    pose proof (InOut_join_feeder_lag _ _ _ E) as L.
    simpl in *.
    apply InOut_join_only in E. split; [|split].
    + destruct E as (F & E). split; [frame_close|]. simpl. done.
    + exists s1. split; [done|]. rewrite L. split; [apply drain_stream_lag|done].
    + done.
  - simpl. split; [by repeat split|]. split.
    + exists s. split; [|split; [apply drain_stream_lag|done]].
      unfold join_fuel. rewrite Hio. simpl. by rewrite Hio.
    + unfold relay_returned. simpl. by rewrite Hio.
Qed.

Lemma returns_inv {A} (o : option A) P : returns o P -> exists a, o = Some a /\ P a.
Proof. apply returns_Some. Qed.


(** The same with the relay thread keeping up. The consumer of the first
    request has closed its iterator early ([flight9], closed): the samples
    are in the stream queue, delivered, and the terminal chunk is still in
    the [FakeFile]. The pool gives the worker a second request; the join in
    [_clear_old] makes the relay thread put the terminal chunk, the loop
    removes the samples and stops at the terminal chunk, which the feeder
    has not delivered yet. The iterator of the second request ends on it at
    once: its consumer is given nothing, and the output of the second
    request stays in the stream queue. *)
Lemma early_close_then_lag_cuts_the_next_stream :
  let second := {| text := "two"; voice := "anna"; format_ := "wav" |} in
  let engine := fun _ : Request =>
    {| callbacks := [SetSampleRate 16000; Speech ["c"%byte; "d"%byte]];
       exits_in_time := true |} in
  let new := concat (wav_header 0xFFFFFFF 16000) ++ ["c"%byte; "d"%byte] in
  let s := set_feeder_lag [1%nat] (ProcessTTS_iter_close flight9) in
  exists s1 s2 s3 s4,
    _stream s = [["a"; "b"]%byte] /\
    MultiTTS.scan [s] = Some (0%nat, [set_busy s]) /\
    BaseTTS_say second (set_busy s) = inr s1 /\
    run engine s1 = Some (s2, false) /\ _stream s2 = [[]] /\
    iterate 1 1024 s2 = Some ([], s3) /\ busy s3 = false /\
    InOut_join 2 s3 = Some s4 /\ _stream s4 = [new; []].
Proof.
  intros second engine new s.
  pose (s1 := match BaseTTS_say second (set_busy s) with
              | inr x => x | inl _ => s end).
  pose (s2 := default s (fst <$> run engine s1)).
  pose (s3 := default s (snd <$> iterate 1 1024 s2)).
  pose (s4 := default s (InOut_join 2 s3)).
  exists s1, s2, s3, s4.
  split; [vm_compute; reflexivity|]. split; [vm_compute; reflexivity|].
  split; [vm_compute; reflexivity|]. split; [vm_compute; reflexivity|].
  split; [vm_compute; reflexivity|]. split; [vm_compute; reflexivity|].
  split; [vm_compute; reflexivity|]. split; vm_compute; reflexivity.
Qed.



(** ** Shutdown *)

(** C6, as stated, fails on a thread worker: with a request in flight (the
    rate callback has been made), [join] makes the next chunk callback return
    false, and the engine, told to stop, never delivers the chunk after it. *)
Lemma C6_join_stops_request_in_flight :
  snd <$> _speech_callback ["a"%byte; "b"%byte] (started OneTTS) = Some true /\
  snd <$> _speech_callback ["a"%byte; "b"%byte] (join (started OneTTS))
    = Some false /\
  (s2 ← engine_generate
          [Speech ["a"%byte; "b"%byte]; Speech ["c"%byte; "d"%byte]]
          (join (started OneTTS));
   FakeFile.queue <$> files (heap s2) !! 0%nat) =
    Some (wav_header 0xFFFFFFF 24000 ++ [["a"%byte; "b"%byte]]).
Proof. split; [|split]; vm_compute; reflexivity. Qed.

(** C6, amended. After [join] the chunk callback still writes its chunk. On
    a thread worker it then returns false, so the engine stops the request
    in flight after that chunk; on a process worker, where [join] clears the
    parent's copy of the flag, it returns what it returned before. The
    shutdown marker goes behind the requests already queued. *)
Theorem C6_join_and_the_chunk_callback
    (s : TTS) (data : bytes) (s1 : TTS) (b : bool) :
  _speech_callback data s = Some (s1, b) ->
  exists s2,
    _speech_callback data (join s) =
      Some (s2, match kind s with OneTTS => false | ProcessTTS => b end) /\
    heap s2 = heap s1 /\ _wave s2 = _wave s1 /\
    _queue (join s) = _queue s ++ [None] /\
    (kind s = OneTTS ->
     forall evs, engine_generate (Speech data :: evs) (join s) = Some s2).
Proof.
  intros H. unfold _speech_callback in H.
  destruct (_wave s) as [w|] eqn:E; [simpl in H|done].
  destruct (WaveWrite.writeframesraw data w (heap s)) as [[w' h']|] eqn:E0;
    [simpl in H|done].
  injection H as <- <-.
  assert (Hw : _wave (join s) = _wave s) by (unfold join; by destruct (kind s)).
  assert (Hh : heap (join s) = heap s) by (unfold join; by destruct (kind s)).
  assert (Hq : _queue (join s) = _queue s ++ [None])
    by (unfold join; by destruct (kind s)).
  assert (Hk : _work (join s) = match kind s with OneTTS => false | ProcessTTS => _work s end)
    by (unfold join; by destruct (kind s)).
  exists (set_wave (Some w') (set_heap h' (join s))).
  assert (Hcb : _speech_callback data (join s) =
                Some (set_wave (Some w') (set_heap h' (join s)),
                      match kind s with OneTTS => false | ProcessTTS => _work s end)).
  { unfold _speech_callback. rewrite Hw, Hh, E, Hk. simpl. by rewrite E0. }
  split; [done|]. split; [done|]. split; [done|]. split; [done|].
  intros K evs. cbn [engine_generate callback]. by rewrite Hcb, K.
Qed.

Lemma C6_join_and_the_chunk_callback_witness :
  exists s2,
    _speech_callback ["a"%byte; "b"%byte] (join (started OneTTS)) = Some (s2, false) /\
    heap s2 =
      heap (default (started OneTTS)
              (fst <$> _speech_callback ["a"%byte; "b"%byte] (started OneTTS))) /\
    _wave s2 =
      _wave (default (started OneTTS)
               (fst <$> _speech_callback ["a"%byte; "b"%byte] (started OneTTS))) /\
    _queue (join (started OneTTS)) = _queue (started OneTTS) ++ [None] /\
    (kind (started OneTTS) = OneTTS ->
     forall evs,
       engine_generate (Speech ["a"%byte; "b"%byte] :: evs) (join (started OneTTS))
         = Some s2).
Proof.
  apply (C6_join_and_the_chunk_callback (started OneTTS) ["a"%byte; "b"%byte]
           (default (started OneTTS)
              (fst <$> _speech_callback ["a"%byte; "b"%byte] (started OneTTS)))
           true).
  vm_compute. reflexivity.
Defined.

(** ** The pool *)

(** C3, evaluated where it fails: two idle workers, mp3 the only encoder, a
    request for flac. [MultiTTS.say] raises nothing and returns the context
    manager of the first worker, which it has marked busy; the error comes
    when the caller enters the context manager, and the worker, with nothing
    queued for it, stays busy. *)
Theorem C3_unsupported_format_claims_a_worker :
  let req := {| text := "hi"; voice := "anna"; format_ := "flac" |} in
  exists pool' cm,
    MultiTTS.say req 1024 0 [] pool_of_two = Some (pool', MultiTTS.Returned cm) /\
    MultiTTS.cm_worker cm = 0%nat /\
    busy <$> MultiTTS._workers pool_of_two = [false; false] /\
    busy <$> MultiTTS._workers pool' = [true; false] /\
    MultiTTS.enter cm pool' = Some (inl (Unsupported_format "flac")) /\
    _queue <$> MultiTTS._workers pool' = [[]; []].
Proof.
  intros req.
  exists {| MultiTTS._workers :=
              [set_busy (TTS_init ProcessTTS {[ "mp3"%string := lame ]});
               TTS_init ProcessTTS {[ "mp3"%string := lame ]}];
            MultiTTS._lock := false; MultiTTS._work := true |},
         {| MultiTTS.cm_worker := 0; MultiTTS.cm_request := req;
            MultiTTS.cm_buff := 1024 |}.
  split; [reflexivity|]. split; [reflexivity|].
  split; [reflexivity|]. split; [reflexivity|].
  split; [vm_compute; reflexivity|reflexivity].
Qed.

(** On a single worker the check comes first: nothing is queued. *)
Lemma BaseTTS_say_unsupported req s :
  format_ req <> "wav"%string -> _CMD s !! format_ req = None ->
  BaseTTS_say req s = inl (Unsupported_format (format_ req)).
Proof.
  intros Hw Hc. unfold BaseTTS_say.
  apply String.eqb_neq in Hw. by rewrite Hw, Hc.
Qed.

Lemma last_scanned_cons ws t0 ws0 pre :
  MultiTTS.last_scanned ws0 pre = MultiTTS.last_scanned ws ((t0, ws0) :: pre).
Proof.
  unfold MultiTTS.last_scanned. rewrite fmap_cons. simpl.
  generalize (pre.*2). intros l. destruct l as [|x l]; [done|].
  rewrite last_cons_cons. revert x.
  induction l as [|y l IH]; intros x; [done|].
  rewrite last_cons_cons. apply IH.
Qed.

Lemma poll_while_busy end_time req buff pre : forall ws t wsn post,
  all_busy ws ->
  Forall (fun r => r.1 <= end_time /\ all_busy r.2) pre ->
  MultiTTS.poll end_time req buff ws (pre ++ (t, wsn) :: post) =
    if end_time <? t
    then Some (MultiTTS.last_scanned ws pre, MultiTTS.Raised Still_busy)
    else MultiTTS.poll end_time req buff wsn post.
Proof.
  induction pre as [|[t0 ws0] pre IH]; intros ws t wsn post Hb Hpre; simpl.
  - rewrite (scan_all_busy _ Hb). done.
  - rewrite (scan_all_busy _ Hb).
    apply Forall_cons in Hpre as [[Ht Hb0] Hpre]. simpl in Ht, Hb0.
    replace (end_time <? t0) with false by (symmetry; apply Z.ltb_ge; lia).
    rewrite (IH ws0 t wsn post Hb0 Hpre).
    unfold MultiTTS.last_scanned. simpl.
    destruct (end_time <? t); [|done]. do 2 f_equal.
    apply (last_scanned_cons ws t0 ws0 pre).
Qed.

(** C4. While every scan finds all workers busy and the clock has not passed
    the end time ([TIMEOUT] seconds after the entry), [say] keeps polling.
    At the first clock reading past the end time it raises [Still_busy], the
    lock released and the workers as the last scan saw them; if before that
    a scan finds a worker that is not busy, the first such worker is marked
    busy and the context manager of its stream is returned, the lock
    released. *)
Theorem C4_admission_timeout
    (pool : MultiTTS.t) (req : Request) (buff : nat) (now : Z)
    (pre : list (Z * list TTS)) (t : Z) (ws : list TTS)
    (post : list (Z * list TTS)) :
  MultiTTS._lock pool = false ->
  all_busy (MultiTTS._workers pool) ->
  Forall (fun r => r.1 <= MultiTTS.end_time now /\ all_busy r.2) pre ->
  (MultiTTS.end_time now < t ->
   MultiTTS.say req buff now (pre ++ (t, ws) :: post) pool =
     Some ({| MultiTTS._workers := MultiTTS.last_scanned (MultiTTS._workers pool) pre;
              MultiTTS._lock := false; MultiTTS._work := MultiTTS._work pool |},
           MultiTTS.Raised Still_busy)) /\
  (t <= MultiTTS.end_time now ->
   forall i ws', MultiTTS.scan ws = Some (i, ws') ->
   MultiTTS.say req buff now (pre ++ (t, ws) :: post) pool =
     Some ({| MultiTTS._workers := ws';
              MultiTTS._lock := false; MultiTTS._work := MultiTTS._work pool |},
           MultiTTS.Returned
             {| MultiTTS.cm_worker := i; MultiTTS.cm_request := req;
                MultiTTS.cm_buff := buff |}) /\
   exists w, ws !! i = Some w /\ busy w = false /\
             ws' = <[i := set_busy w]> ws /\ all_busy (take i ws)).
Proof.
  intros Hlock Hb Hpre. unfold MultiTTS.say. rewrite Hlock. simpl.
  rewrite (poll_while_busy _ req buff pre _ t ws post Hb Hpre). split.
  - intros Ht. apply Z.ltb_lt in Ht. by rewrite Ht.
  - intros Ht i ws' Hscan.
    replace (MultiTTS.end_time now <? t) with false
      by (symmetry; apply Z.ltb_ge; lia).
    split; [|by apply scan_picks_idle].
    destruct post; simpl; by rewrite Hscan.
Qed.

Lemma C4_admission_timeout_witness :
  let req := {| text := "hi"; voice := "anna"; format_ := "wav" |} in
  let w := TTS_init ProcessTTS ∅ in
  MultiTTS.say req 1024 0
    ([(1, [set_busy w])] ++ (30000000001, [w]) :: []) pool_of_one_busy =
    Some (pool_of_one_busy, MultiTTS.Raised Still_busy) /\
  MultiTTS.say req 1024 0
    ([(1, [set_busy w])] ++ (30000000000, [w]) :: []) pool_of_one_busy =
    Some (pool_of_one_busy,
          MultiTTS.Returned
            {| MultiTTS.cm_worker := 0; MultiTTS.cm_request := req;
               MultiTTS.cm_buff := 1024 |}).
Proof.
  intros req w.
  assert (Hb : all_busy (MultiTTS._workers pool_of_one_busy))
    by (repeat constructor).
  assert (Hpre : Forall (fun r : Z * list TTS =>
                           r.1 <= MultiTTS.end_time 0 /\ all_busy r.2)
                   [(1, [set_busy w])]).
  { constructor; [|constructor]. split; [|repeat constructor]. simpl.
    unfold MultiTTS.end_time, MultiTTS.TIMEOUT, MultiTTS.ns_per_second. lia. }
  split.
  - apply (proj1 (C4_admission_timeout pool_of_one_busy req 1024 0
                    [(1, [set_busy w])] 30000000001 [w] [] eq_refl Hb Hpre)).
    reflexivity.
  - apply (proj2 (C4_admission_timeout pool_of_one_busy req 1024 0
                    [(1, [set_busy w])] 30000000000 [w] [] eq_refl Hb Hpre)).
    + unfold MultiTTS.end_time, MultiTTS.TIMEOUT, MultiTTS.ns_per_second. lia.
    + reflexivity.
Defined.

(** ** A request, from the rate callback to the end of [_generate] *)

Lemma pack_L_ok v : 0 <= v < 2 ^ 32 -> pack_L v = Some (le_bytes 4 v).
Proof.
  intros [H1 H2]. unfold pack_L.
  apply Z.leb_le in H1. apply Z.ltb_lt in H2. by rewrite H1, H2.
Qed.

Lemma configure_wave tgt rate :
  0 < rate ->
  (w ← WaveWrite.setnchannels 1 (WaveWrite.new tgt);
   w ← WaveWrite.setsampwidth SAMPLE_SIZE w;
   WaveWrite.setframerate rate w) = Some (configured tgt rate).
Proof.
  intros H. unfold WaveWrite.setnchannels, WaveWrite.setsampwidth. simpl.
  unfold WaveWrite.setframerate. simpl.
  replace (rate <=? 0) with false by (symmetry; apply Z.leb_gt; lia). done.
Qed.

Lemma pack_form_ok rate :
  0 < rate < 2 ^ 31 ->
  WaveWrite.pack_form (0xFFFFFFF / (1 * SAMPLE_SIZE) * 1 * SAMPLE_SIZE) 1 rate SAMPLE_SIZE
  = Some (le_bytes 4 (36 + 0xFFFFFFF / 2 * 2) ++ b_WAVE ++ b_fmt ++ le_bytes 4 16 ++
    le_bytes 2 1 ++ le_bytes 2 1 ++ le_bytes 4 rate ++ le_bytes 4 (rate * 2) ++
    le_bytes 2 2 ++ le_bytes 2 16 ++ b_data).
Proof.
  intros H. unfold WaveWrite.pack_form.
  change (0xFFFFFFF / (1 * SAMPLE_SIZE) * 1 * SAMPLE_SIZE) with 268435454.
  change (0xFFFFFFF / 2 * 2) with 268435454.
  change (pack_L (36 + 268435454)) with (Some (le_bytes 4 (36 + 268435454))).
  change (pack_L 16) with (Some (le_bytes 4 16)).
  change (pack_H WAVE_FORMAT_PCM) with (Some (le_bytes 2 1)).
  change (pack_H 1) with (Some (le_bytes 2 1)).
  change (pack_H (1 * SAMPLE_SIZE)) with (Some (le_bytes 2 2)).
  change (pack_H (SAMPLE_SIZE * 8)) with (Some (le_bytes 2 16)).
  rewrite (pack_L_ok rate) by lia.
  replace (1 * rate * SAMPLE_SIZE) with (rate * 2) by (unfold SAMPLE_SIZE; lia).
  rewrite (pack_L_ok (rate * 2)) by lia.
  reflexivity.
Qed.

Lemma write_header_ok tgt rate h :
  0 < rate < 2 ^ 31 ->
  WaveWrite._write_header 0xFFFFFFF (configured tgt rate) h =
    h' ← target_writes tgt (wav_header 0xFFFFFFF rate) h;
    Some ({| WaveWrite._file := Some tgt; WaveWrite._nchannels := 1;
             WaveWrite._sampwidth := SAMPLE_SIZE; WaveWrite._framerate := rate;
             WaveWrite._nframes := 0xFFFFFFF / (1 * SAMPLE_SIZE);
             WaveWrite._nframeswritten := 0;
             WaveWrite._datawritten := 0;
             WaveWrite._datalength := 0xFFFFFFF / (1 * SAMPLE_SIZE) * 1 * SAMPLE_SIZE;
             WaveWrite._headerwritten := true |}, h').
Proof.
  intros H. unfold WaveWrite._write_header, configured.
  cbn [WaveWrite._headerwritten WaveWrite._file WaveWrite._nframes
       WaveWrite._nchannels WaveWrite._sampwidth WaveWrite._framerate
       WaveWrite._nframeswritten WaveWrite._datawritten].
  change (0 =? 0) with true. change (1 * SAMPLE_SIZE =? 0) with false.
  cbn [andb]. cbv iota.
  rewrite (pack_form_ok rate H).
  change (pack_L (0xFFFFFFF / (1 * SAMPLE_SIZE) * 1 * SAMPLE_SIZE))
    with (Some (le_bytes 4 (0xFFFFFFF / 2 * 2))).
  unfold wav_header. cbn [target_writes mbind option_bind mret].
  destruct (target_write tgt b_RIFF h) as [h1|]; [|done]. cbn.
  destruct (target_write tgt _ h1) as [h2|]; [|done]. cbn.
  destruct (target_write tgt _ h2) as [h3|]; done.
Qed.

Lemma target_writes_file chunks : forall h i q o,
  files h !! i = Some {| FakeFile.queue := q; FakeFile._open := o |} ->
  returns (target_writes (TFile i) chunks h) (fun h' =>
    files h' !! i = Some {| FakeFile.queue := q ++ queued chunks; FakeFile._open := o |} /\
    length (files h') = length (files h) /\ procs h' = procs h).
Proof.
  induction chunks as [|c cs IH]; intros h i q o Hf; simpl.
  - by rewrite app_nil_r.
  - rewrite Hf. simpl.
    eapply returns_mono.
    + apply (IH _ i (q ++ queued [c]) o). simpl.
      rewrite list_lookup_insert_eq by (by eapply lookup_lt_Some).
      f_equal. unfold FakeFile.write, queued. simpl.
      destruct (is_empty c); simpl; [by rewrite app_nil_r|done].
    + simpl. intros h' _ (H1 & H2 & H3). rewrite H1, H2, H3, length_insert.
      repeat split. f_equal. f_equal. rewrite <- app_assoc. f_equal.
      by destruct (is_empty c).
Qed.

Lemma target_writes_stdin chunks : forall h j p,
  procs h !! j = Some p ->
  returns (target_writes (TStdin j) chunks h) (fun h' =>
    procs h' !! j = Some (Popen.stdin_write (concat chunks) p) /\
    length (procs h') = length (procs h) /\ files h' = files h).
Proof.
  induction chunks as [|c cs IH]; intros h j p Hp; simpl.
  - destruct p. unfold Popen.stdin_write. simpl. by rewrite app_nil_r.
  - rewrite Hp. simpl.
    eapply returns_mono.
    + apply (IH _ j (Popen.stdin_write c p)). simpl.
      apply list_lookup_insert_eq. by eapply lookup_lt_Some.
    + simpl. intros h' _ (H1 & H2 & H3). rewrite H1, H2, H3, length_insert.
      repeat split. f_equal. unfold Popen.stdin_write. simpl.
      by rewrite <- app_assoc.
Qed.

Lemma target_write_writes tgt d h : target_write tgt d h = target_writes tgt [d] h.
Proof. simpl. by destruct (target_write tgt d h). Qed.

Lemma select_target_native s :
  joinable s -> _CMD s !! _format s = None ->
  returns (_select_target s) (fun '(s', tgt) =>
    tgt = TFile (length (files (heap s))) /\
    frame s s' /\ _file s' = Some (length (files (heap s))) /\
    _popen s' = _popen s /\ _wave s' = _wave s /\
    _sample_rate s' = _sample_rate s /\ _format s' = _format s /\
    _processing s' = _processing s /\
    files (heap s') !! length (files (heap s)) = Some FakeFile.new /\
    length (procs (heap s')) = length (procs (heap s))).
Proof.
  unfold joinable, _select_target. intros J Hc. destruct (kind s) eqn:K.
  - unfold BaseTTS_select_target. rewrite Hc. simpl.
    repeat (split; [done|]). split; [|done].
    rewrite lookup_app_r by done. by rewrite Nat.sub_diag.
  - destruct (returns_inv _ _ (clear_old_ok s J)) as (s1 & E1 & Ro & Hst & Hret).
    destruct Ro as (F & ? & ? & Hfmt & ? & ? & ? & ? & Hlf & Hlp).
    pose proof F as (Hk & HC & _).
    unfold ProcessTTS_select_target. rewrite E1. simpl.
    rewrite HC, Hfmt, Hc. simpl. rewrite Hlf.
    split; [done|]. split; [frame_close|].
    repeat (split; [done|]). split; [|done].
    rewrite <- Hlf, lookup_app_r by done. by rewrite Nat.sub_diag.
Qed.

Lemma select_target_encoded s argv :
  joinable s -> _CMD s !! _format s = Some argv ->
  returns (_select_target s) (fun '(s', tgt) =>
    tgt = TStdin (length (procs (heap s))) /\
    frame s s' /\ _popen s' = Some (length (procs (heap s))) /\
    _file s' = _file s /\ _wave s' = _wave s /\
    _sample_rate s' = _sample_rate s /\ _format s' = _format s /\
    _processing s' = _processing s /\
    procs (heap s') !! length (procs (heap s)) = Some (Popen.create argv) /\
    length (files (heap s')) = length (files (heap s))).
Proof.
  unfold joinable, _select_target. intros J Hc. destruct (kind s) eqn:K.
  - unfold BaseTTS_select_target, _popen_create. rewrite Hc. simpl.
    repeat (split; [done|]). split; [|done].
    rewrite lookup_app_r by done. by rewrite Nat.sub_diag.
  - destruct (returns_inv _ _ (clear_old_ok s J)) as (s1 & E1 & Ro & Hst & Hret).
    destruct Ro as (F & ? & ? & Hfmt & ? & ? & ? & ? & Hlf & Hlp).
    pose proof F as (Hk & HC & _).
    unfold ProcessTTS_select_target, _popen_create. rewrite E1. simpl.
    rewrite HC, Hfmt, Hc. simpl. rewrite Hlp.
    split; [done|]. split; [frame_close|].
    repeat (split; [done|]). split; [|done].
    rewrite <- Hlp, lookup_app_r by done. by rewrite Nat.sub_diag.
Qed.

Lemma teardown_fields s :
  frame s (teardown s) /\ _wave (teardown s) = None /\
  _file (teardown s) = None /\ _popen (teardown s) = None /\
  _format (teardown s) = _format s /\ _sample_rate (teardown s) = _sample_rate s /\
  _processing (teardown s) = _processing s /\
  files (heap (teardown s)) = files (heap s) /\
  length (procs (heap (teardown s))) = length (procs (heap s)).
Proof.
  destruct s as [k cmd wt q sr fmt po fi wv wk pr rd st io pw hp fl].
  unfold teardown, _wave_close, kill_proc, frame.
  destruct wv, fi, po as [j|]; simpl.
  all: try destruct (procs hp !! j); simpl.
  all: rewrite ?length_insert; by repeat split.
Qed.

Lemma start_stream_unfold s :
  _start_stream s =
    '(s', tgt) ← _select_target (teardown s);
    w ← WaveWrite.setnchannels 1 (WaveWrite.new tgt);
    w ← WaveWrite.setsampwidth SAMPLE_SIZE w;
    w ← WaveWrite.setframerate (_sample_rate s') w;
    Some (set_wave (Some w) s').
Proof. reflexivity. Qed.

Lemma startable_joinable s : startable s -> joinable (teardown s).
Proof.
  unfold startable, joinable.
  destruct (teardown_fields s) as ((-> & _) & _). done.
Qed.

Lemma configure_in_place tgt s :
  0 < _sample_rate s ->
  (w ← WaveWrite.setnchannels 1 (WaveWrite.new tgt);
   w ← WaveWrite.setsampwidth SAMPLE_SIZE w;
   w ← WaveWrite.setframerate (_sample_rate s) w;
   Some (set_wave (Some w) s)) =
  Some (set_wave (Some (configured tgt (_sample_rate s))) s).
Proof.
  intros H. unfold WaveWrite.setnchannels, WaveWrite.setsampwidth. simpl.
  unfold WaveWrite.setframerate. simpl.
  replace (_sample_rate s <=? 0) with false by (symmetry; apply Z.leb_gt; lia).
  done.
Qed.

Lemma start_stream_native s :
  startable s -> _CMD s !! _format s = None -> 0 < _sample_rate s ->
  returns (_start_stream s) (fun s' =>
    frame s s' /\ _processing s' = _processing s /\
    _format s' = _format s /\
    streaming s' (length (files (heap s))) [] /\
    _wave s' = Some (configured (TFile (length (files (heap s)))) (_sample_rate s)) /\
    length (procs (heap s')) = length (procs (heap s))).
Proof.
  intros St Hc Hr.
  destruct (teardown_fields s) as (F & Hw & Hf & Hp & Hfmt & Hsr & Hpr & Hfl & Hpl).
  pose proof F as (_ & HC & _).
  rewrite start_stream_unfold.
  apply returns_bind.
  eapply returns_mono;
    [apply (select_target_native (teardown s));
       [by apply startable_joinable|by rewrite HC, Hfmt]|].
  intros [s' tgt] _ (-> & F' & Hf' & Hp' & Hw' & Hsr' & Hfmt' & Hpr' & Hnew & Hpl').
  rewrite Hfl in *.
  rewrite configure_in_place by lia. simpl.
  split; [by eapply frame_trans|]. split; [congruence|]. split; [congruence|].
  split; [|split; [by rewrite Hsr', Hsr|congruence]].
  unfold streaming. simpl. split; [done|]. split; [congruence|]. split; [done|].
  eexists. split; [done|]. simpl. split; [done|]. done.
Qed.

Lemma start_stream_encoded s argv :
  startable s -> _CMD s !! _format s = Some argv -> 0 < _sample_rate s ->
  returns (_start_stream s) (fun s' =>
    frame s s' /\ _processing s' = _processing s /\
    _format s' = _format s /\
    encoding s' (length (procs (heap s))) argv [] /\
    _wave s' = Some (configured (TStdin (length (procs (heap s)))) (_sample_rate s)) /\
    length (files (heap s')) = length (files (heap s))).
Proof.
  intros St Hc Hr.
  destruct (teardown_fields s) as (F & Hw & Hf & Hp & Hfmt & Hsr & Hpr & Hfl & Hpl).
  pose proof F as (_ & HC & _).
  rewrite start_stream_unfold.
  apply returns_bind.
  eapply returns_mono;
    [apply (select_target_encoded (teardown s) argv);
       [by apply startable_joinable|by rewrite HC, Hfmt]|].
  intros [s' tgt] _ (-> & F' & Hp' & Hf' & Hw' & Hsr' & Hfmt' & Hpr' & Hnew & Hfl').
  rewrite Hpl in *.
  rewrite configure_in_place by lia. simpl.
  split; [by eapply frame_trans|]. split; [congruence|]. split; [congruence|].
  split; [|split; [by rewrite Hsr', Hsr|congruence]].
  unfold encoding. simpl. split; [done|]. split; [congruence|].
  split; [by exists []|].
  eexists. split; [done|]. simpl. split; [done|]. done.
Qed.

Lemma queued_header initlength rate :
  queued (wav_header initlength rate) = wav_header initlength rate.
Proof. reflexivity. Qed.

Lemma queued_app a b : queued (a ++ b) = queued a ++ queued b.
Proof. apply List.filter_app. Qed.

Lemma startable_set_sample_rate rate s : startable s -> startable (set_sample_rate rate s).
Proof.
  unfold startable, relay_can_finish.
  destruct s as [k cmd wt q sr fmt po fi wv wk pr rd st io pw hp fl].
  unfold teardown, _wave_close. simpl.
  destruct k; [done|]. by destruct wv, fi, po.
Qed.

Lemma startable_set_format f s : startable s -> startable (set_format f s).
Proof.
  unfold startable, relay_can_finish.
  destruct s as [k cmd wt q sr fmt po fi wv wk pr rd st io pw hp fl].
  unfold teardown, _wave_close. simpl.
  destruct k; [done|]. by destruct wv, fi, po.
Qed.

Lemma sr_callback_native rate s :
  startable s -> _CMD s !! _format s = None -> 0 < rate < 2 ^ 31 ->
  returns (_sr_callback rate s) (fun '(s', b) =>
    b = true /\ frame s s' /\ _processing s' = _processing s /\
    _format s' = _format s /\
    streaming s' (length (files (heap s))) (wav_header 0xFFFFFFF rate) /\
    length (procs (heap s')) = length (procs (heap s))).
Proof.
  intros St Hc Hr. unfold _sr_callback.
  apply returns_bind.
  eapply returns_mono;
    [apply (start_stream_native (set_sample_rate rate s));
       [by apply startable_set_sample_rate|done|simpl; lia]|].
  simpl. intros s1 _ (F & Hpr & Hfmt & (Hf & Hp & Hfile & _) & Hw & Hpl).
  rewrite Hw. simpl. rewrite write_header_ok by done.
  pose proof (target_writes_file (wav_header 0xFFFFFFF rate) _ _ _ _ Hfile) as W.
  destruct (target_writes _ _ (heap s1)) as [h'|]; [|done]. simpl in *.
  destruct W as (W1 & W2 & W3).
  split; [done|]. split; [frame_close|]. split; [done|]. split; [done|].
  split; [|congruence].
  unfold streaming. simpl. repeat (split; [done|]).
  eexists. split; [done|]. done.
Qed.

Lemma speech_callback_native d s i q :
  streaming s i q ->
  returns (_speech_callback d s) (fun '(s', b) =>
    b = _work s /\ frame s s' /\ _processing s' = _processing s /\
    _format s' = _format s /\ streaming s' i (q ++ queued [d]) /\
    length (procs (heap s')) = length (procs (heap s))).
Proof.
  intros (Hf & Hp & Hfile & w & Hw & Ht & Hnz). unfold _speech_callback.
  rewrite Hw. simpl. unfold WaveWrite.writeframesraw, WaveWrite._ensure_header_written.
  apply Z.eqb_neq in Hnz. rewrite Hnz, Ht. cbn -[target_write].
  rewrite target_write_writes.
  pose proof (target_writes_file [d] _ _ _ _ Hfile) as W.
  destruct (target_writes _ _ (heap s)) as [h'|]; [|done]. simpl in *.
  destruct W as (W1 & W2 & W3).
  split; [done|]. split; [by repeat split|]. split; [done|]. split; [done|].
  split; [|congruence].
  unfold streaming. simpl. repeat (split; [done|]).
  eexists. split; [done|]. simpl. split; [done|]. by apply Z.eqb_neq.
Qed.

Lemma engine_speeches_native ds : forall s i q,
  _work s = true -> streaming s i q ->
  returns (engine_generate (Speech <$> ds) s) (fun s' =>
    frame s s' /\ _processing s' = _processing s /\
    _format s' = _format s /\ streaming s' i (q ++ queued ds) /\
    length (procs (heap s')) = length (procs (heap s))).
Proof.
  induction ds as [|d ds IH]; intros s i q Hwk Hs.
  - simpl. rewrite app_nil_r. split; [apply frame_refl|].
    by repeat (split; [done|]).
  - rewrite fmap_cons. cbn [engine_generate callback].
    pose proof (speech_callback_native d s i q Hs) as C.
    destruct (_speech_callback d s) as [[s1 b]|]; [|done]. simpl in C.
    destruct C as (-> & F & Hpr & Hfmt & Hs1 & Hpl). rewrite Hwk.
    assert (Hq : q ++ queued (d :: ds) = (q ++ queued [d]) ++ queued ds).
    { change (d :: ds) with ([d] ++ ds). by rewrite queued_app, app_assoc. }
    rewrite Hq.
    eapply returns_mono; [apply (IH s1 i _ ltac:(frame_close) Hs1)|].
    cbv beta. intros s' _ (F' & Hpr' & Hfmt' & Hs' & Hpl').
    split; [by eapply frame_trans|]. split; [congruence|]. split; [congruence|].
    split; [done|congruence].
Qed.

Lemma engine_native rate ds s :
  startable s -> _CMD s !! _format s = None -> _work s = true ->
  0 < rate < 2 ^ 31 ->
  returns (engine_generate (SetSampleRate rate :: (Speech <$> ds)) s) (fun s' =>
    frame s s' /\ _processing s' = _processing s /\ _format s' = _format s /\
    streaming s' (length (files (heap s))) (wav_header 0xFFFFFFF rate ++ queued ds) /\
    length (procs (heap s')) = length (procs (heap s))).
Proof.
  intros St Hc Hwk Hr. cbn [engine_generate callback].
  pose proof (sr_callback_native rate s St Hc Hr) as C.
  destruct (_sr_callback rate s) as [[s1 b]|]; [|done]. simpl in C.
  destruct C as (-> & F & Hpr & Hfmt & Hs1 & Hpl).
  eapply returns_mono;
    [apply (engine_speeches_native ds s1 _ _ ltac:(frame_close) Hs1)|].
  cbv beta. intros s' _ (F' & Hpr' & Hfmt' & Hs' & Hpl').
  split; [by eapply frame_trans|]. split; [congruence|]. split; [congruence|].
  split; [done|congruence].
Qed.

Lemma BaseTTS_generate_native req rate ds exited s :
  _CMD s !! format_ req = None -> startable s -> _work s = true ->
  0 < rate < 2 ^ 31 ->
  returns (BaseTTS_generate req
             {| callbacks := SetSampleRate rate :: (Speech <$> ds);
                exits_in_time := exited |} s) (fun s' =>
    frame s s' /\ _processing s' = _processing s /\
    _file s' = Some (length (files (heap s))) /\ _popen s' = None /\
    _wave s' = None /\
    files (heap s') !! length (files (heap s)) =
      Some {| FakeFile.queue := wav_header 0xFFFFFFF rate ++ queued ds ++ [[]];
              FakeFile._open := true |}).
Proof.
  intros Hc St Hwk Hr. unfold BaseTTS_generate. cbn [callbacks exits_in_time].
  pose proof (engine_native rate ds (set_format (format_ req) s)
                (startable_set_format _ s St) Hc Hwk Hr) as E.
  rewrite (app_assoc (wav_header 0xFFFFFFF rate)).
  set (q := wav_header 0xFFFFFFF rate ++ queued ds) in *. clearbody q.
  destruct (engine_generate _ _) as [s1|]; [|done]. simpl in E.
  destruct E as (F & Hpr & Hfmt & (Hf & Hp & Hfile & w & Hw & _) & Hpl).
  cbn [mbind option_bind]. unfold _wave_close. rewrite Hw. simpl.
  rewrite Hf. unfold end_file. simpl. rewrite Hfile. simpl. rewrite Hp.
  split; [frame_close|]. do 4 (split; [done|]). simpl.
  rewrite list_lookup_insert_eq by (by eapply lookup_lt_Some). done.
Qed.

(** C7. A request for the native format whose engine makes one rate
    callback and then chunk callbacks, on a worker that has not been told to
    stop: at every point of the request (after the rate callback and any
    number of the chunk callbacks) and at its end, the [FakeFile] created for
    the request holds the header chunks, written by [_write_header(0xFFFFFFF)]
    in the rate callback, once, first, followed by the non-empty sample
    buffers as they were passed, and at the end by the terminal sentinel.
    Nothing written later changes what is already queued. *)
Theorem C7_header_written_once
    (s : TTS) (req : Request) (rate : Z) (ds : list bytes) (exited : bool) :
  _CMD s !! format_ req = None -> startable s -> _work s = true ->
  0 < rate < 2 ^ 31 ->
  exists s1 s',
    engine_generate (SetSampleRate rate :: (Speech <$> ds))
      (set_format (format_ req) s) = Some s1 /\
    streaming s1 (length (files (heap s)))
      (wav_header 0xFFFFFFF rate ++ queued ds) /\
    _generate req {| callbacks := SetSampleRate rate :: (Speech <$> ds);
                     exits_in_time := exited |} s = Some s' /\
    _file s' = Some (length (files (heap s))) /\ _wave s' = None /\
    files (heap s') !! length (files (heap s)) =
      Some {| FakeFile.queue := wav_header 0xFFFFFFF rate ++ queued ds ++ [[]];
              FakeFile._open := true |}.
Proof.
  intros Hc St Hwk Hr.
  destruct (returns_inv _ _ (engine_native rate ds (set_format (format_ req) s)
              (startable_set_format _ s St) Hc Hwk Hr))
    as (s1 & E1 & _ & _ & _ & Hs1 & _).
  destruct (returns_inv _ _ (BaseTTS_generate_native req rate ds exited s Hc St Hwk Hr))
    as (s' & E' & _ & _ & Hf & _ & Hw & Hq).
  exists s1. unfold _generate, ProcessTTS_generate. rewrite E'.
  destruct (kind s); eexists; repeat (split; [done|]); done.
Qed.

Lemma sr_callback_encoded rate s argv :
  startable s -> _CMD s !! _format s = Some argv -> 0 < rate < 2 ^ 31 ->
  returns (_sr_callback rate s) (fun '(s', b) =>
    b = true /\ frame s s' /\ _processing s' = _processing s /\
    _format s' = _format s /\
    encoding s' (length (procs (heap s))) argv (concat (wav_header 0xFFFFFFF rate)) /\
    length (files (heap s')) = length (files (heap s))).
Proof.
  intros St Hc Hr. unfold _sr_callback.
  pose proof (write_header_ok (TStdin (length (procs (heap s)))) rate) as WH.
  set (hdr := wav_header 0xFFFFFFF rate) in *. clearbody hdr.
  apply returns_bind.
  eapply returns_mono;
    [apply (start_stream_encoded (set_sample_rate rate s) argv);
       [by apply startable_set_sample_rate|done|simpl; lia]|].
  simpl. intros s1 _ (F & Hpr & Hfmt & (Hp & Hf & (out & Hproc) & _) & Hw & Hfl).
  rewrite Hw. simpl. rewrite WH by done.
  pose proof (target_writes_stdin hdr _ _ _ Hproc) as W.
  destruct (target_writes _ _ (heap s1)) as [h'|]; [|done]. simpl in *.
  destruct W as (W1 & W2 & W3).
  split; [done|]. split; [frame_close|]. split; [done|]. split; [done|].
  split; [|congruence].
  unfold encoding. simpl. repeat (split; [done|]). split; [by exists out|].
  eexists. split; [done|]. done.
Qed.

Lemma speech_callback_encoded d s j argv data :
  encoding s j argv data ->
  returns (_speech_callback d s) (fun '(s', b) =>
    b = _work s /\ frame s s' /\ _processing s' = _processing s /\
    _format s' = _format s /\ encoding s' j argv (data ++ d) /\
    length (files (heap s')) = length (files (heap s))).
Proof.
  intros (Hp & Hf & (out & Hproc) & w & Hw & Ht & Hnz). unfold _speech_callback.
  rewrite Hw. simpl. unfold WaveWrite.writeframesraw, WaveWrite._ensure_header_written.
  apply Z.eqb_neq in Hnz. rewrite Hnz, Ht. cbn -[target_write].
  rewrite target_write_writes.
  pose proof (target_writes_stdin [d] _ _ _ Hproc) as W.
  destruct (target_writes _ _ (heap s)) as [h'|]; [|done]. simpl in *.
  destruct W as (W1 & W2 & W3).
  split; [done|]. split; [by repeat split|]. split; [done|]. split; [done|].
  split; [|congruence].
  unfold encoding. simpl. repeat (split; [done|]).
  split; [exists out; rewrite W1; unfold Popen.stdin_write; simpl; by rewrite app_nil_r|].
  eexists. split; [done|]. simpl. split; [done|]. by apply Z.eqb_neq.
Qed.

Lemma engine_speeches_encoded ds : forall s j argv data,
  _work s = true -> encoding s j argv data ->
  returns (engine_generate (Speech <$> ds) s) (fun s' =>
    frame s s' /\ _processing s' = _processing s /\
    _format s' = _format s /\ encoding s' j argv (data ++ concat ds) /\
    length (files (heap s')) = length (files (heap s))).
Proof.
  induction ds as [|d ds IH]; intros s j argv data Hwk Hs.
  - simpl. rewrite app_nil_r. split; [apply frame_refl|].
    by repeat (split; [done|]).
  - rewrite fmap_cons. cbn [engine_generate callback].
    pose proof (speech_callback_encoded d s j argv data Hs) as C.
    destruct (_speech_callback d s) as [[s1 b]|]; [|done]. cbv beta in C.
    destruct C as (-> & F & Hpr & Hfmt & Hs1 & Hpl). rewrite Hwk.
    assert (Hq : data ++ concat (d :: ds) = (data ++ d) ++ concat ds)
      by (simpl; by rewrite app_assoc).
    rewrite Hq.
    eapply returns_mono; [apply (IH s1 j argv _ ltac:(frame_close) Hs1)|].
    cbv beta. intros s' _ (F' & Hpr' & Hfmt' & Hs' & Hpl').
    split; [by eapply frame_trans|]. split; [congruence|]. split; [congruence|].
    split; [done|congruence].
Qed.

Lemma engine_encoded rate ds s argv :
  startable s -> _CMD s !! _format s = Some argv -> _work s = true ->
  0 < rate < 2 ^ 31 ->
  returns (engine_generate (SetSampleRate rate :: (Speech <$> ds)) s) (fun s' =>
    frame s s' /\ _processing s' = _processing s /\ _format s' = _format s /\
    encoding s' (length (procs (heap s))) argv
      (concat (wav_header 0xFFFFFFF rate) ++ concat ds) /\
    length (files (heap s')) = length (files (heap s))).
Proof.
  intros St Hc Hwk Hr. cbn [engine_generate callback].
  pose proof (sr_callback_encoded rate s argv St Hc Hr) as C.
  destruct (_sr_callback rate s) as [[s1 b]|]; [|done]. cbv beta in C.
  destruct C as (-> & F & Hpr & Hfmt & Hs1 & Hpl).
  eapply returns_mono;
    [apply (engine_speeches_encoded ds s1 _ _ _ ltac:(frame_close) Hs1)|].
  cbv beta. intros s' _ (F' & Hpr' & Hfmt' & Hs' & Hpl').
  split; [by eapply frame_trans|]. split; [congruence|]. split; [congruence|].
  split; [done|congruence].
Qed.

Lemma BaseTTS_generate_encoded req rate ds exited s argv :
  _CMD s !! format_ req = Some argv -> startable s -> _work s = true ->
  0 < rate < 2 ^ 31 ->
  returns (BaseTTS_generate req
             {| callbacks := SetSampleRate rate :: (Speech <$> ds);
                exits_in_time := exited |} s) (fun s' =>
    frame s s' /\ _processing s' = _processing s /\
    _popen s' = Some (length (procs (heap s))) /\ _file s' = None /\
    _wave s' = None /\
    exists out,
      procs (heap s') !! length (procs (heap s)) =
        Some {| Popen.args := argv;
                Popen.stdin := concat (wav_header 0xFFFFFFF rate) ++ concat ds;
                Popen.stdin_closed := true;
                Popen.state := if exited then Popen.Exited else Popen.Running;
                Popen.stdout := out |}).
Proof.
  intros Hc St Hwk Hr. unfold BaseTTS_generate. cbn [callbacks exits_in_time].
  pose proof (engine_encoded rate ds (set_format (format_ req) s) argv
                (startable_set_format _ s St) Hc Hwk Hr) as E.
  set (data := concat (wav_header 0xFFFFFFF rate) ++ concat ds) in *.
  clearbody data.
  destruct (engine_generate _ _) as [s1|]; [|done]. cbv beta in E.
  cbn [heap set_format _processing _format] in E.
  destruct E as (F & Hpr & Hfmt & (Hp & Hf & (out & Hproc) & w & Hw & _) & Hpl).
  cbn [mbind option_bind]. unfold _wave_close. rewrite Hw. simpl.
  rewrite Hf. simpl. rewrite Hp. unfold close_and_wait. simpl. rewrite Hproc.
  simpl. unfold Popen.wait. simpl.
  destruct exited; simpl.
  all: split; [frame_close|]; do 4 (split; [done|]); exists out.
  all: by rewrite list_lookup_insert_eq by (by eapply lookup_lt_Some).
Qed.

Lemma teardown_kills s j p :
  _popen s = Some j -> procs (heap s) !! j = Some p ->
  procs (heap (teardown s)) !! j = Some (Popen.kill p).
Proof.
  destruct s as [k cmd wt q sr fmt po fi wv wk pr rd st io pw hp fl].
  simpl. intros -> Hp. unfold teardown, _wave_close, kill_proc.
  destruct wv, fi; simpl; rewrite Hp; simpl.
  all: apply list_lookup_insert_eq; by eapply lookup_lt_Some.
Qed.

(** C5, as stated, fails: when the wait times out nothing is done to the
    encoder. After the request the subprocess is still running and still the
    worker's [_popen]. *)
Lemma C5_encoder_left_running :
  let s := TTS_init OneTTS {[ "mp3"%string := lame ]} in
  let req := {| text := "hi"; voice := "anna"; format_ := "mp3" |} in
  let env := {| callbacks := [SetSampleRate 24000; Speech ["a"%byte; "b"%byte]];
                exits_in_time := false |} in
  (s' ← _generate req env s; Popen.state <$> procs (heap s') !! 0%nat)
    = Some Popen.Running /\
  (s' ← _generate req env s; Some (_popen s')) = Some (Some 0%nat).
Proof. split; vm_compute; reflexivity. Qed.

(** C5, amended. When the wait for the encoder times out, [_generate]
    returns normally (no error reaches the caller) and leaves the subprocess
    running, its input closed, as the worker's [_popen]; the worker kills it
    when it next starts a stream (the first statements of [_start_stream],
    in the rate callback of the next request). *)
Theorem C5_timeout_leaves_encoder_running
    (s : TTS) (req : Request) (argv : list string) (rate : Z) (ds : list bytes) :
  _CMD s !! format_ req = Some argv -> startable s -> _work s = true ->
  0 < rate < 2 ^ 31 ->
  exists s' out,
    _generate req {| callbacks := SetSampleRate rate :: (Speech <$> ds);
                     exits_in_time := false |} s = Some s' /\
    _popen s' = Some (length (procs (heap s))) /\
    procs (heap s') !! length (procs (heap s)) =
      Some {| Popen.args := argv;
              Popen.stdin := concat (wav_header 0xFFFFFFF rate) ++ concat ds;
              Popen.stdin_closed := true;
              Popen.state := Popen.Running;
              Popen.stdout := out |} /\
    Popen.state <$> procs (heap (teardown s')) !! length (procs (heap s))
      = Some Popen.Killed.
Proof.
  intros Hc St Hwk Hr.
  destruct (returns_inv _ _
              (BaseTTS_generate_encoded req rate ds false s argv Hc St Hwk Hr))
    as (s' & E' & _ & _ & Hp & _ & _ & out & Hproc).
  unfold _generate, ProcessTTS_generate. rewrite E'.
  destruct (kind s).
  - exists s', out. repeat (split; [done|]).
    by rewrite (teardown_kills s' _ _ Hp Hproc).
  - exists (set_processing true s'), out. repeat (split; [done|]).
    by rewrite (teardown_kills (set_processing true s') _ _ Hp Hproc).
Qed.

Lemma C5_timeout_leaves_encoder_running_witness :
  let s := TTS_init ProcessTTS {[ "mp3"%string := lame ]} in
  let req := {| text := "hi"; voice := "anna"; format_ := "mp3" |} in
  exists s' out,
    _generate req {| callbacks := SetSampleRate 24000 :: (Speech <$> [["a"%byte; "b"%byte]]);
                     exits_in_time := false |} s = Some s' /\
    _popen s' = Some (length (procs (heap s))) /\
    procs (heap s') !! length (procs (heap s)) =
      Some {| Popen.args := lame;
              Popen.stdin := concat (wav_header 0xFFFFFFF 24000) ++ concat [["a"%byte; "b"%byte]];
              Popen.stdin_closed := true;
              Popen.state := Popen.Running;
              Popen.stdout := out |} /\
    Popen.state <$> procs (heap (teardown s')) !! length (procs (heap s))
      = Some Popen.Killed.
Proof.
  intros s req.
  apply (C5_timeout_leaves_encoder_running s req lame 24000 [["a"%byte; "b"%byte]]).
  - reflexivity.
  - exact I.
  - reflexivity.
  - split; reflexivity.
Defined.

Lemma C7_header_written_once_witness :
  let s := TTS_init OneTTS ∅ in
  let req := {| text := "hi"; voice := "anna"; format_ := "wav" |} in
  let ds := [["a"%byte; "b"%byte]; []; ["c"%byte; "d"%byte]] in
  exists s1 s',
    engine_generate (SetSampleRate 24000 :: (Speech <$> ds))
      (set_format (format_ req) s) = Some s1 /\
    streaming s1 (length (files (heap s)))
      (wav_header 0xFFFFFFF 24000 ++ queued ds) /\
    _generate req {| callbacks := SetSampleRate 24000 :: (Speech <$> ds);
                     exits_in_time := true |} s = Some s' /\
    _file s' = Some (length (files (heap s))) /\ _wave s' = None /\
    files (heap s') !! length (files (heap s)) =
      Some {| FakeFile.queue := wav_header 0xFFFFFFF 24000 ++ queued ds ++ [[]];
              FakeFile._open := true |}.
Proof.
  intros s req ds.
  apply (C7_header_written_once s req 24000 ds true).
  - reflexivity.
  - exact I.
  - reflexivity.
  - split; reflexivity.
Defined.

(** ** Process workers: the relay thread across a request *)

Lemma speech_callback_kept d s s' b :
  _speech_callback d s = Some (s', b) -> kept s s'.
Proof. unfold _speech_callback. intros H. inv_some. by repeat split. Qed.

Lemma engine_speeches_kept ds : forall s s',
  engine_generate (Speech <$> ds) s = Some s' -> kept s s'.
Proof.
  induction ds as [|d ds IH]; intros s s' H.
  - simpl in H. injection H as <-. by repeat split.
  - rewrite fmap_cons in H. cbn [engine_generate callback] in H.
    destruct (_speech_callback d s) as [[s1 b]|] eqn:E; [|done].
    apply speech_callback_kept in E. destruct E as (?&?&?&?).
    destruct b.
    + apply IH in H. destruct H as (?&?&?&?). repeat split; congruence.
    + injection H as <-. by repeat split.
Qed.

Lemma teardown_relay s :
  _in_out (teardown s) = _in_out s.
Proof.
  destruct s as [k cmd wt q sr fmt po fi wv wk pr rd st io pw hp fl].
  unfold teardown, _wave_close. by destruct wv, fi, po.
Qed.

Lemma teardown_stream s : _stream (teardown s) = _stream s.
Proof.
  destruct s as [k cmd wt q sr fmt po fi wv wk pr rd st io pw hp fl].
  unfold teardown, _wave_close. by destruct wv, fi, po.
Qed.

(** On a clean worker [_clear_old] has nothing to join and nothing to
    remove, however far the feeder is behind. *)
Lemma clear_old_clean s s1 :
  clean s -> _clear_old s = Some s1 -> _stream s1 = [].
Proof.
  intros (R & Hst) E. unfold _clear_old in E.
  assert (J : match _in_out s with
              | Some _ => InOut_join (join_fuel s) s
              | None => Some s
              end = Some s).
  { destruct (_in_out s); [|done]. by apply InOut_join_returned. }
  rewrite J in E. simpl in E. injection E as <-. simpl. by rewrite Hst.
Qed.

Lemma start_stream_process s s' :
  kind s = ProcessTTS -> _start_stream s = Some s' ->
  (clean s -> _stream s' = []) /\
  exists tgt, current_target s' = Some tgt /\
              _in_out s' = Some {| _in := source_of tgt; alive := true |}.
Proof.
  intros K H. rewrite start_stream_unfold in H.
  destruct (teardown_fields s) as ((Hk & _) & _ & Hf & Hp & _).
  destruct (_select_target (teardown s)) as [[x tgt]|] eqn:E; [|done].
  simpl in H. unfold _select_target in E. rewrite Hk, K in E.
  unfold ProcessTTS_select_target in E.
  destruct (_clear_old (teardown s)) as [s1|] eqn:E1; [|done]. simpl in E.
  assert (Hs1 : (clean s -> _stream s1 = []) /\ _popen s1 = None /\ _file s1 = None).
  { split.
    - intros (R & Hst). apply (clear_old_clean (teardown s)); [|done].
      split; [|by rewrite teardown_stream].
      unfold relay_returned. by rewrite teardown_relay.
    - unfold _clear_old in E1.
      destruct (_in_out (teardown s)).
      + destruct (InOut_join _ _) as [y|] eqn:J; [|done]. simpl in E1.
        injection E1 as <-. apply InOut_join_only in J.
        destruct J as (_ & _ & _ & _ & Hp' & Hf' & _). simpl.
        split; congruence.
      + simpl in E1. injection E1 as <-. simpl. done. }
  destruct Hs1 as (Hst & Hp1 & Hf1).
  assert (Hx : _stream x = _stream s1 /\ current_target x = Some tgt /\
               _in_out x = Some {| _in := source_of tgt; alive := true |}).
  { destruct (_CMD s1 !! _format s1).
    - unfold _popen_create in E.
      destruct (_CMD s1 !! _format s1); [|done]. simpl in E.
      injection E as <- <-. by repeat split.
    - simpl in E. injection E as <- <-. unfold current_target. simpl.
      rewrite Hp1. by repeat split. }
  assert (Hs' : exists w, s' = set_wave (Some w) x).
  { clear -H. inv_some. by eexists. }
  destruct Hs' as (w & ->). destruct Hx as (Hxs & ? & ?).
  split; [|by exists tgt]. intros C. simpl. rewrite Hxs. by apply Hst.
Qed.

Lemma engine_process rate ds s s' :
  kind s = ProcessTTS ->
  engine_generate (SetSampleRate rate :: (Speech <$> ds)) s = Some s' ->
  (clean s -> _stream s' = []) /\
  exists tgt, current_target s' = Some tgt /\
              _in_out s' = Some {| _in := source_of tgt; alive := true |}.
Proof.
  intros K H. cbn [engine_generate callback] in H.
  destruct (_sr_callback rate s) as [[s1 b]|] eqn:E; [|done].
  assert (H1 : (clean s -> _stream s1 = []) /\
               exists tgt, current_target s1 = Some tgt /\
                 _in_out s1 = Some {| _in := source_of tgt; alive := true |}).
  { unfold _sr_callback in E.
    destruct (_start_stream (set_sample_rate rate s)) as [x|] eqn:Ex; [|done].
    apply start_stream_process in Ex; [|done]. simpl in E.
    clear -E Ex. inv_some. done. }
  assert (K1 : kept s1 s').
  { destruct b; [by apply engine_speeches_kept in H|].
    injection H as <-. by repeat split. }
  destruct K1 as (Ks & Ki & Kp & Kf). destruct H1 as (Hs & tgt & Ht & Hi).
  split; [intros C; rewrite Ks; by apply Hs|]. exists tgt. unfold current_target in *.
  rewrite Kp, Kf, Ki. done.
Qed.

Lemma BaseTTS_generate_process req rate ds exited s s' :
  kind s = ProcessTTS ->
  BaseTTS_generate req
    {| callbacks := SetSampleRate rate :: (Speech <$> ds);
       exits_in_time := exited |} s = Some s' ->
  (clean s -> _stream s' = []) /\
  exists tgt, current_target s' = Some tgt /\
              _in_out s' = Some {| _in := source_of tgt; alive := true |}.
Proof.
  intros K H. unfold BaseTTS_generate in H. cbn [callbacks exits_in_time] in H.
  destruct (engine_generate _ _) as [s1|] eqn:E; [|done].
  apply engine_process in E; [|done]. simpl in H.
  destruct E as (Hs & tgt & Ht & Hi).
  assert (K1 : kept s1 s').
  { clear -H. unfold _wave_close in H.
    destruct (_wave s1); simpl in H; inv_some; by repeat split. }
  destruct K1 as (Ks & Ki & Kp & Kf).
  split; [intros C; rewrite Ks; by apply Hs|]. exists tgt. unfold current_target in *.
  rewrite Kp, Kf, Ki. done.
Qed.

Lemma concat_queued ds : concat (queued ds) = concat ds.
Proof.
  induction ds as [|d ds IH]; [done|]. unfold queued in *. simpl.
  destruct d; simpl; [done|]. by rewrite IH.
Qed.

Lemma kill_not_running p : Popen.state (Popen.kill p) <> Popen.Running.
Proof. unfold Popen.kill. by destruct (Popen.state p) eqn:E; simpl; rewrite ?E. Qed.

Lemma startable_set_processing b s : startable s -> startable (set_processing b s).
Proof.
  unfold startable, relay_can_finish.
  destruct s as [k cmd wt q sr fmt po fi wv wk pr rd st io pw hp fl].
  unfold teardown, _wave_close. simpl.
  destruct k; [done|]. by destruct wv, fi, po.
Qed.

(** A request leaves the worker ready for the next one. *)
Lemma startable_after_request req rate ds exited s :
  startable s -> _work s = true -> 0 < rate < 2 ^ 31 ->
  exists s',
    _generate req {| callbacks := SetSampleRate rate :: (Speech <$> ds);
                     exits_in_time := exited |} s = Some s' /\
    startable s' /\ frame s s'.
Proof.
  intros St Hwk Hr.
  assert (G : exists s', BaseTTS_generate req
                {| callbacks := SetSampleRate rate :: (Speech <$> ds);
                   exits_in_time := exited |} s = Some s' /\ frame s s' /\
              (kind s = ProcessTTS -> relay_can_finish (teardown s'))).
  { destruct (_CMD s !! format_ req) as [argv|] eqn:Hc.
    - destruct (returns_inv _ _
        (BaseTTS_generate_encoded req rate ds exited s argv Hc St Hwk Hr))
        as (s' & E' & F & _ & Hp & _ & _ & out & Hproc).
      exists s'. split; [done|]. split; [done|]. intros K.
      destruct (BaseTTS_generate_process _ _ _ _ _ _ K E')
        as (_ & tgt & Ht & Hi).
      unfold current_target in Ht. rewrite Hp in Ht. injection Ht as <-.
      unfold relay_can_finish. rewrite teardown_relay, Hi. right. simpl.
      eexists. split; [by apply (teardown_kills s' _ _ Hp Hproc)|].
      apply kill_not_running.
    - destruct (returns_inv _ _
        (BaseTTS_generate_native req rate ds exited s Hc St Hwk Hr))
        as (s' & E' & F & _ & Hf & Hp & _ & Hfile).
      exists s'. split; [done|]. split; [done|]. intros K.
      destruct (BaseTTS_generate_process _ _ _ _ _ _ K E')
        as (_ & tgt & Ht & Hi).
      unfold current_target in Ht. rewrite Hp, Hf in Ht. injection Ht as <-.
      unfold relay_can_finish. rewrite teardown_relay, Hi. right. simpl.
      destruct (teardown_fields s') as (_ & _ & _ & _ & _ & _ & _ & -> & _).
      eexists. split; [done|]. right. cbn [FakeFile.queue].
      rewrite !elem_of_app. right. right. apply list_elem_of_singleton. done. }
  destruct G as (s' & E' & F & Hrel).
  unfold _generate, ProcessTTS_generate. rewrite E'. pose proof F as (Hk & _).
  destruct (kind s) eqn:K; simpl.
  - exists s'. split; [done|]. split; [|done]. unfold startable. by rewrite Hk.
  - exists (set_processing true s'). split; [done|]. split; [|frame_close].
    apply startable_set_processing. unfold startable. rewrite Hk.
    by apply Hrel.
Qed.

(** A clean worker can start a stream. *)
Lemma clean_startable s : clean s -> startable s.
Proof.
  intros (R & _). unfold startable. destruct (kind s); [done|].
  unfold relay_can_finish. rewrite teardown_relay.
  unfold relay_returned in R. destruct (_in_out s); [by left|done].
Qed.

(** On a clean process worker: after a request for the native format the
    relay thread, run to its end, has delivered the header and the samples
    and then the terminal chunk. *)
Lemma process_native_request_stream req rate ds exited s :
  kind s = ProcessTTS -> _CMD s !! format_ req = None ->
  clean s -> _work s = true -> 0 < rate < 2 ^ 31 ->
  let data := concat (wav_header 0xFFFFFFF rate) ++ concat ds in
  exists s1 s2,
    _generate req {| callbacks := SetSampleRate rate :: (Speech <$> ds);
                     exits_in_time := exited |} s = Some s1 /\
    _stream s1 = [] /\ join_fuel s1 = 2%nat /\
    InOut_join 2 s1 = Some s2 /\ _stream s2 = [data; []].
Proof.
  intros K Hc Cl Hwk Hr data.
  destruct (returns_inv _ _
      (BaseTTS_generate_native req rate ds exited s Hc (clean_startable s Cl)
         Hwk Hr))
      as (s' & E' & F & _ & Hf & Hp & _ & Hfile).
  destruct (BaseTTS_generate_process _ _ _ _ _ _ K E') as (Hst & tgt & Ht & Hi).
  specialize (Hst Cl).
  unfold current_target in Ht. rewrite Hp, Hf in Ht. injection Ht as <-.
  simpl in Hi. pose proof F as (Hk & _).
  assert (Hdata : concat (wav_header 0xFFFFFFF rate ++ queued ds ++ [[]]) = data).
  { rewrite !concat_app, concat_queued. simpl. by rewrite app_nil_r. }
  assert (Hne : is_empty data = false) by reflexivity.
  set (q := wav_header 0xFFFFFFF rate ++ queued ds ++ [[]]) in *.
  assert (Hlen : (1 <? length q)%nat = true) by reflexivity.
  assert (Hall : forallb (fun c => negb (is_empty c)) q = false).
  { unfold q. rewrite !forallb_app. simpl. by rewrite !andb_false_r. }
  clearbody q data.
  set (s1 := set_processing true s').
  set (f' := {| FakeFile.queue := []; FakeFile._open := false |}).
  set (h2 := set_files (<[length (files (heap s)) := f']> (files (heap s'))) (heap s')).
  set (s2a := set_in_out (Some {| _in := SFile (length (files (heap s))); alive := true |})
               (set_stream [data] (set_heap h2 s1))).
  set (s2 := set_in_out (Some {| _in := SFile (length (files (heap s))); alive := false |})
               (set_stream [data; []] (set_heap h2 s1))).
  assert (R1 : relay_step s1 = Some s2a).
  { unfold relay_step. simpl. rewrite Hi. simpl. rewrite Hfile. simpl.
    unfold FakeFile.read, FakeFile.qsize. simpl. rewrite Hlen.
    rewrite drain_spec. simpl. rewrite Hdata, Hall, Hne, Hst. done. }
  assert (R2 : relay_step s2a = Some s2).
  { unfold relay_step. simpl.
    rewrite list_lookup_insert_eq by (by eapply lookup_lt_Some).
    simpl. unfold s2, h2. simpl. rewrite list_insert_insert_eq. done. }
  exists s1, s2.
  split; [unfold _generate, ProcessTTS_generate; by rewrite K, E'|].
  split; [done|].
  split; [unfold join_fuel; simpl; by rewrite Hi|].
  split; [|done].
  cbn [InOut_join]. simpl. rewrite Hi. simpl. rewrite R1. simpl. by rewrite R2.
Qed.

(** ** Thread workers: the consumer's iterator *)

(** On a thread worker: after a request for the native format the
    consumer's iterator yields the header and the samples and ends. *)
Lemma thread_native_request_stream req rate ds exited s :
  kind s = OneTTS -> _CMD s !! format_ req = None ->
  _work s = true -> 0 < rate < 2 ^ 31 ->
  let data := concat (wav_header 0xFFFFFFF rate) ++ concat ds in
  exists s1 s2 s3,
    _generate req {| callbacks := SetSampleRate rate :: (Speech <$> ds);
                     exits_in_time := exited |} s = Some s1 /\
    _iter_me 1024 s1 = Some (Some data, s2) /\
    _iter_me 1024 s2 = Some (None, s3) /\
    _iter_me 1024 s3 = Some (None, s3).
Proof.
  intros K Hc Hwk Hr data.
  assert (St : startable s) by (unfold startable; by rewrite K).
  destruct (returns_inv _ _
      (BaseTTS_generate_native req rate ds exited s Hc St Hwk Hr))
      as (s' & E' & F & _ & Hf & Hp & _ & Hfile).
  pose proof F as (Hk & _).
  assert (Hdata : concat (wav_header 0xFFFFFFF rate ++ queued ds ++ [[]]) = data).
  { rewrite !concat_app, concat_queued. simpl. by rewrite app_nil_r. }
  assert (Hne : is_empty data = false) by reflexivity.
  set (q := wav_header 0xFFFFFFF rate ++ queued ds ++ [[]]) in *.
  assert (Hlen : (1 <? length q)%nat = true) by reflexivity.
  assert (Hall : forallb (fun c => negb (is_empty c)) q = false).
  { unfold q. rewrite !forallb_app. simpl. by rewrite !andb_false_r. }
  clearbody q data.
  set (f' := {| FakeFile.queue := []; FakeFile._open := false |}).
  set (s2 := set_heap (set_files (<[length (files (heap s)) := f']> (files (heap s')))
                         (heap s')) s').
  assert (R2 : _iter_me 1024 s2 = Some (None, s2)).
  { unfold _iter_me, BaseTTS_iter_me. simpl. rewrite Hk, K, Hp, Hf. simpl.
    rewrite list_lookup_insert_eq by (by eapply lookup_lt_Some).
    simpl. unfold s2. by rewrite list_insert_insert_eq. }
  exists s', s2, s2.
  split; [unfold _generate; by rewrite K|]. split; [|done].
  unfold _iter_me, BaseTTS_iter_me. rewrite Hk, K, Hp, Hf. simpl.
  rewrite Hfile. simpl. unfold FakeFile.read, FakeFile.qsize. simpl.
  rewrite Hlen, drain_spec. simpl. by rewrite Hdata, Hall, Hne.
Qed.

(** ** The adapter under any sequence of calls *)

Lemma read_conserves f r f' :
  FakeFile.read f = Some (r, f') ->
  r ++ concat (FakeFile.queue f') = concat (FakeFile.queue f).
Proof.
  unfold FakeFile.read. destruct (FakeFile._open f); simpl.
  - destruct (1 <? FakeFile.qsize f)%nat.
    + rewrite drain_spec. intros [= <- <-]. simpl. by rewrite app_nil_r.
    + destruct (FakeFile.queue f) as [|d q]; [done|]. by intros [= <- <-].
  - by intros [= <- <-].
Qed.

Lemma write_queue d f :
  concat (FakeFile.queue (FakeFile.write d f)) = concat (FakeFile.queue f) ++ d.
Proof.
  unfold FakeFile.write. destruct d; simpl; [by rewrite app_nil_r|].
  rewrite concat_app. simpl. by rewrite app_nil_r.
Qed.

Lemma end_queue f :
  concat (FakeFile.queue (FakeFile.end_ f)) = concat (FakeFile.queue f).
Proof.
  unfold FakeFile.end_. destruct (FakeFile._open f); simpl; [|done].
  rewrite concat_app. simpl. by rewrite app_nil_r.
Qed.

(** X1. Whatever calls are made on a [FakeFile], in whatever order (writes
    of any data, reads, [end()]), as long as no read blocks: the bytes the
    reads returned followed by the bytes still queued are the bytes that
    were queued at the start followed by the bytes written, in order. The
    adapter drops, duplicates and reorders nothing; the empty marker of
    [end()] carries no byte. *)
Theorem X1_no_byte_invented_or_reordered (cs : list call) :
  forall (f : FakeFile.t) (rs : list bytes) (f' : FakeFile.t),
  calls_run cs f = Some (rs, f') ->
  concat rs ++ concat (FakeFile.queue f') =
    concat (FakeFile.queue f) ++ concat (omap call_write cs).
Proof.
  induction cs as [|c cs IH]; intros f rs f' H; simpl in H.
  - injection H as <- <-. simpl. by rewrite app_nil_r.
  - destruct c as [d| |]; simpl.
    + rewrite (IH _ _ _ H), write_queue. by rewrite app_assoc.
    + destruct (FakeFile.read f) as [[r f1]|] eqn:R; [|done].
      destruct (calls_run cs f1) as [[rs1 f2]|] eqn:E; [|done].
      injection H as <- <-. simpl. rewrite <- app_assoc, (IH _ _ _ E).
      by rewrite app_assoc, (read_conserves _ _ _ R).
    + by rewrite (IH _ _ _ H), end_queue.
Qed.

Lemma X1_no_byte_invented_or_reordered_witness :
  concat [["a"%byte]; ["b"%byte]; []; []] ++
    concat (FakeFile.queue (FakeFile.mk [["c"%byte]] false)) =
  concat (FakeFile.queue FakeFile.new) ++
    concat (omap call_write
      [CWrite ["a"%byte]; CRead; CEnd; CWrite ["b"%byte]; CRead; CRead;
       CWrite ["c"%byte]; CRead]).
Proof.
  apply (X1_no_byte_invented_or_reordered
    [CWrite ["a"%byte]; CRead; CEnd; CWrite ["b"%byte]; CRead; CRead;
     CWrite ["c"%byte]; CRead] FakeFile.new).
  reflexivity.
Defined.

(** X2. Once a [FakeFile] is closed (a read has met the terminal chunk) it
    stays closed: whatever is called on it afterwards, no read blocks, every
    read returns the empty chunk, [end()] queues nothing, and the non-empty
    writes pile up in the queue unread. *)
Theorem X2_closed_adapter_delivers_nothing (cs : list call) :
  forall f : FakeFile.t,
  FakeFile._open f = false ->
  exists rs f',
    calls_run cs f = Some (rs, f') /\ Forall (fun r => r = []) rs /\
    FakeFile._open f' = false /\
    FakeFile.queue f' = FakeFile.queue f ++ queued (omap call_write cs).
Proof.
  induction cs as [|c cs IH]; intros f Hc; simpl.
  - exists [], f. by rewrite app_nil_r.
  - destruct c as [d| |]; simpl.
    + assert (Hc' : FakeFile._open (FakeFile.write d f) = false)
        by (unfold FakeFile.write; by destruct (is_empty d)).
      destruct (IH _ Hc') as (rs & f' & E & Hrs & Ho & Hq).
      exists rs, f'. repeat (split; [done|]). rewrite Hq.
      unfold FakeFile.write, queued. simpl.
      destruct (is_empty d); simpl; [done|]. by rewrite <- app_assoc.
    + rewrite (read_closed f Hc).
      destruct (IH _ Hc) as (rs & f' & E & Hrs & Ho & Hq). rewrite E.
      exists ([] :: rs), f'. repeat split; try done. by constructor.
    + assert (He : FakeFile.end_ f = f) by (unfold FakeFile.end_; by rewrite Hc).
      rewrite He. apply (IH _ Hc).
Qed.

Lemma X2_closed_adapter_delivers_nothing_witness :
  exists rs f',
    calls_run [CWrite ["a"%byte]; CRead; CEnd; CRead]
      (FakeFile.mk [["x"%byte]] false) = Some (rs, f') /\
    Forall (fun r => r = []) rs /\ FakeFile._open f' = false /\
    FakeFile.queue f' =
      FakeFile.queue (FakeFile.mk [["x"%byte]] false) ++
      queued (omap call_write [CWrite ["a"%byte]; CRead; CEnd; CRead]).
Proof.
  apply (X2_closed_adapter_delivers_nothing
           [CWrite ["a"%byte]; CRead; CEnd; CRead]
           (FakeFile.mk [["x"%byte]] false)).
  reflexivity.
Defined.

Lemma write_keeps_data d f :
  FakeFile._open f = true -> all_data (FakeFile.queue f) ->
  FakeFile._open (FakeFile.write d f) = true /\
  all_data (FakeFile.queue (FakeFile.write d f)).
Proof.
  intros Ho Hq. unfold FakeFile.write. destruct (is_empty d) eqn:E; [done|].
  simpl. split; [done|]. apply Forall_app. split; [done|].
  constructor; [|constructor]. by apply is_empty_false.
Qed.

(** X3. Without a call of [end()] no read reports the end of the stream:
    on an open adapter that holds data only, after any writes (empty ones
    included) and reads, every read result is a non-empty chunk and the
    adapter is still open and holds data only. *)
Theorem X3_no_end_of_stream_without_end (cs : list call) :
  forall (f : FakeFile.t) (rs : list bytes) (f' : FakeFile.t),
  FakeFile._open f = true -> all_data (FakeFile.queue f) ->
  Forall (fun c => is_end c = false) cs ->
  calls_run cs f = Some (rs, f') ->
  all_data rs /\ FakeFile._open f' = true /\ all_data (FakeFile.queue f').
Proof.
  induction cs as [|c cs IH]; intros f rs f' Ho Hq Hcs H; simpl in H.
  - injection H as <- <-. repeat split; try done. constructor.
  - apply Forall_cons in Hcs as [Hc Hcs]. destruct c as [d| |]; [| |done].
    + destruct (write_keeps_data d f Ho Hq) as (Ho' & Hq').
      by apply (IH _ _ _ Ho' Hq' Hcs H).
    + rewrite (read_open_data f Ho Hq) in H.
      destruct (FakeFile.queue f) as [|c q] eqn:E; [done|].
      destruct (calls_run cs FakeFile.new) as [[rs1 f1]|] eqn:R; [|done].
      injection H as <- <-.
      destruct (IH FakeFile.new _ _ eq_refl (List.Forall_nil _) Hcs R)
        as (H1 & H2 & H3).
      repeat split; try done. constructor; [|done].
      apply all_data_concat. by apply Forall_cons in Hq as [? _].
Qed.

Lemma X3_no_end_of_stream_without_end_witness :
  all_data [["a"%byte]] /\ FakeFile._open (FakeFile.mk [["b"%byte]] true) = true /\
  all_data (FakeFile.queue (FakeFile.mk [["b"%byte]] true)).
Proof.
  apply (X3_no_end_of_stream_without_end
           [CWrite ["a"%byte]; CWrite []; CRead; CWrite ["b"%byte]]
           FakeFile.new).
  - reflexivity.
  - constructor.
  - repeat constructor.
  - reflexivity.
Defined.

(** X4. After the end of the stream has been announced (the adapter is
    closed, or a terminal chunk is queued) no read blocks, whatever else is
    called in between, and the adapter remains in such a state. *)
Theorem X4_no_read_blocks_after_end (cs : list call) :
  forall f : FakeFile.t,
  FakeFile._open f = false \/ [] ∈ FakeFile.queue f ->
  exists rs f', calls_run cs f = Some (rs, f') /\
                (FakeFile._open f' = false \/ [] ∈ FakeFile.queue f').
Proof.
  induction cs as [|c cs IH]; intros f H; simpl.
  - by exists [], f.
  - destruct c as [d| |].
    + apply IH. unfold FakeFile.write. destruct (is_empty d); simpl; [done|].
      destruct H as [?|?]; [by left|right]. apply elem_of_app. by left.
    + destruct (read_ended f H) as (r & f1 & R & Hc). rewrite R.
      destruct (IH f1 (or_introl Hc)) as (rs & f' & E & H'). rewrite E.
      by exists (r :: rs), f'.
    + apply IH. unfold FakeFile.end_.
      destruct (FakeFile._open f) eqn:Ho; simpl; [|by rewrite Ho].
      right. apply elem_of_app. right. by apply list_elem_of_singleton.
Qed.

Lemma X4_no_read_blocks_after_end_witness :
  exists rs f',
    calls_run [CRead; CWrite ["a"%byte]; CRead; CRead]
      (FakeFile.end_ FakeFile.new) = Some (rs, f') /\
    (FakeFile._open f' = false \/ [] ∈ FakeFile.queue f').
Proof.
  apply (X4_no_read_blocks_after_end [CRead; CWrite ["a"%byte]; CRead; CRead]
           (FakeFile.end_ FakeFile.new)).
  right. simpl. apply list_elem_of_singleton. reflexivity.
Defined.

(** ** The encoder table and the formats accepted *)

Lemma cmd_init_lookup (which : string -> bool) (fmt : string) :
  (_cmd_init which).1 !! fmt =
    (if String.eqb fmt "mp3" then (if which "lame" then Some lame else None)
     else if String.eqb fmt "opus"
          then (if which "opusenc" then Some opusenc else None)
          else None).
Proof.
  unfold _cmd_init, base_cmd. cbn [cmd_init_loop].
  destruct (which "lame"), (which "opusenc"); cbn [fst snd].
  all: destruct (String.eqb_spec fmt "mp3") as [->|N1]; [by simplify_map_eq|].
  all: destruct (String.eqb_spec fmt "opus") as [->|N2]; by simplify_map_eq.
Qed.

(** X5. The table [_cmd_init] returns, for any outcome of the look-ups of
    the binaries: mp3 is mapped to the lame command line exactly when lame is
    found, opus to the opusenc command line exactly when opusenc is found,
    and no other format is in the table; each of the two formats is either
    in the table or reported by one printed line, in the order mp3, opus. *)
Theorem X5_cmd_init_table (which : string -> bool) (fmt : string) :
  (_cmd_init which).1 !! fmt =
    (if String.eqb fmt "mp3" then (if which "lame" then Some lame else None)
     else if String.eqb fmt "opus"
          then (if which "opusenc" then Some opusenc else None)
          else None) /\
  (length (_cmd_init which).2 + size (_cmd_init which).1 = 2)%nat /\
  (_cmd_init which).2 =
    (if which "lame" then []
     else ["Disable mp3 support - lame not found. Use apt install lame"%string]) ++
    (if which "opusenc" then []
     else ["Disable opus support - opusenc not found. Use apt install opus-tools"%string]).
Proof.
  split; [apply cmd_init_lookup|].
  unfold _cmd_init, base_cmd. cbn [cmd_init_loop].
  destruct (which "lame"), (which "opusenc"); cbn [fst snd].
  all: split; [|reflexivity].
  all: rewrite ?map_size_insert_None, ?map_size_empty by by simplify_map_eq.
  all: reflexivity.
Qed.

(** X6. The formats [say] accepts on a new worker built on the table of
    [_cmd_init]: wav always, mp3 when lame is found, opus when opusenc is
    found; then the request is queued. Any other format raises
    [Unsupported_format] and queues nothing. *)
Theorem X6_formats_accepted (which : string -> bool) (k : cls) (req : Request) :
  BaseTTS_say req (TTS_init k (_cmd_init which).1) =
    if String.eqb (format_ req) "wav"
       || (String.eqb (format_ req) "mp3" && which "lame")
       || (String.eqb (format_ req) "opus" && which "opusenc")
    then inr (set_queue [Some req] (TTS_init k (_cmd_init which).1))
    else inl (Unsupported_format (format_ req)).
Proof.
  unfold BaseTTS_say. cbn [_CMD TTS_init].
  rewrite (cmd_init_lookup which (format_ req)).
  destruct req as [t v f]. cbn [format_].
  destruct (String.eqb_spec f "wav") as [->|N0]; [reflexivity|].
  destruct (String.eqb_spec f "mp3") as [->|N1];
    [destruct (which "lame"); reflexivity|].
  destruct (String.eqb_spec f "opus") as [->|N2];
    [destruct (which "opusenc"); reflexivity|].
  reflexivity.
Qed.

(** ** The factory and the admission to the pool *)

Lemma scan_claimed w k m :
  busy w = false ->
  MultiTTS.scan (replicate k (set_busy w) ++ replicate (S m) w) =
    Some (k, replicate (S k) (set_busy w) ++ replicate m w).
Proof.
  intros Hw. induction k as [|k IH]; simpl.
  - by rewrite Hw.
  - replace (busy (set_busy w)) with true
      by reflexivity.
    simpl. simpl in IH. by rewrite IH.
Qed.

(** X7. [TTS(threads=n)] with [n >= 2] builds a pool of [n] idle process
    workers on the table of [_cmd_init], and the pool hands them out first
    fit: with the first [k < n] workers claimed and nothing finished, [say]
    claims worker number [k] at its first scan, whatever the format asked
    for, and returns its context manager with the lock released. *)
Theorem X7_fresh_pool_first_fit
    (which : string -> bool) (threads : Z) (k : nat) (req : Request)
    (buff : nat) (now : Z) (sched : list (Z * list TTS)) :
  2 <= threads -> (k < Z.to_nat threads)%nat ->
  let cmd := (_cmd_init which).1 in
  let n := Z.to_nat threads in
  make_TTS which threads = Pool (claimed 0 n cmd) /\
  MultiTTS.say req buff now sched (claimed k n cmd) =
    Some (claimed (S k) n cmd,
          MultiTTS.Returned
            {| MultiTTS.cm_worker := k; MultiTTS.cm_request := req;
               MultiTTS.cm_buff := buff |}).
Proof.
  intros Ht Hk cmd n. split.
  - unfold make_TTS.
    replace (0 <? threads) with true by (symmetry; apply Z.ltb_lt; lia).
    replace (threads =? 1) with false by (symmetry; apply Z.eqb_neq; lia).
    unfold MultiTTS_init, claimed. simpl. by rewrite Nat.sub_0_r.
  - unfold MultiTTS.say, claimed. simpl.
    destruct (n - k)%nat as [|m] eqn:E; [lia|].
    assert (Hs : MultiTTS.scan
              (replicate k (set_busy (TTS_init ProcessTTS cmd)) ++
               replicate (S m) (TTS_init ProcessTTS cmd)) =
            Some (k, replicate (S k) (set_busy (TTS_init ProcessTTS cmd)) ++
                     replicate m (TTS_init ProcessTTS cmd)))
      by by apply scan_claimed.
    replace (n - S k)%nat with m by lia.
    destruct sched; simpl; simpl in Hs; by rewrite Hs.
Qed.

Lemma X7_fresh_pool_first_fit_witness :
  let cmd := (_cmd_init (fun _ => true)).1 in
  let req := {| text := "hi"; voice := "anna"; format_ := "mp3" |} in
  make_TTS (fun _ => true) 3 = Pool (claimed 0 3 cmd) /\
  MultiTTS.say req 1024 0 [] (claimed 2 3 cmd) =
    Some (claimed 3 3 cmd,
          MultiTTS.Returned
            {| MultiTTS.cm_worker := 2; MultiTTS.cm_request := req;
               MultiTTS.cm_buff := 1024 |}).
Proof.
  intros cmd req.
  apply (X7_fresh_pool_first_fit (fun _ => true) 3 2 req 1024 0 []).
  - lia.
  - simpl. lia.
Defined.

Lemma scan_None ws : MultiTTS.scan ws = None -> all_busy ws.
Proof.
  induction ws as [|w ws IH]; simpl; intros H; [constructor|].
  destruct (busy w) eqn:B; simpl in H; [|done].
  destruct (MultiTTS.scan ws) as [[i ws']|]; [done|].
  constructor; [done|by apply IH].
Qed.

Lemma poll_outcome end_time req buff sched : forall ws ws' out,
  MultiTTS.poll end_time req buff ws sched = Some (ws', out) ->
  exists ws0, ws0 ∈ ws :: sched.*2 /\ say_outcome req buff ws0 ws' out.
Proof.
  induction sched as [|[t wsn] sched IH]; intros ws ws' out H; simpl in H.
  - destruct (MultiTTS.scan ws) as [[i ws1]|] eqn:S; [|done].
    injection H as <- <-. exists ws. split; [by left|]. simpl.
    repeat (split; [done|]). by apply scan_picks_idle.
  - destruct (MultiTTS.scan ws) as [[i ws1]|] eqn:S.
    + injection H as <- <-. exists ws. split; [by left|]. simpl.
      repeat (split; [done|]). by apply scan_picks_idle.
    + destruct (end_time <? t).
      * injection H as <- <-. exists ws. split; [by left|]. simpl.
        repeat (split; [done|]). by apply scan_None.
      * destruct (IH _ _ _ H) as (ws0 & Hin & Ho). exists ws0.
        split; [|done]. rewrite fmap_cons. simpl. by right.
Qed.

(** X8. Whenever [MultiTTS.say] returns or raises, the lock is released
    and the shutdown flag is as before, and with respect to the workers as
    its deciding scan found them (the pool's own, or one of the later states
    of the schedule): either it raised [Still_busy], all of them busy and
    none changed, or it returned the context manager of exactly one worker,
    which was not busy and is now marked busy, while every worker before it
    was busy and no other worker changed. It never hands out a busy worker
    and never marks two. *)
Theorem X8_say_claims_one_worker_or_none
    (req : Request) (buff : nat) (now : Z) (sched : list (Z * list TTS))
    (pool pool' : MultiTTS.t) (out : MultiTTS.outcome) :
  MultiTTS.say req buff now sched pool = Some (pool', out) ->
  MultiTTS._lock pool' = false /\
  MultiTTS._work pool' = MultiTTS._work pool /\
  exists ws, ws ∈ MultiTTS._workers pool :: sched.*2 /\
             say_outcome req buff ws (MultiTTS._workers pool') out.
Proof.
  unfold MultiTTS.say. intros H.
  destruct (MultiTTS._lock pool); [done|]. simpl in H.
  destruct (MultiTTS.poll _ _ _ _ _) as [[ws out']|] eqn:P; [|done].
  simpl in H. injection H as <- <-. simpl. repeat (split; [done|]).
  by apply (poll_outcome _ _ _ _ _ _ _ P).
Qed.

Lemma X8_say_claims_one_worker_or_none_witness :
  MultiTTS._lock pool_of_one_busy = false /\
  MultiTTS._work pool_of_one_busy = MultiTTS._work pool_of_one_busy /\
  exists ws,
    ws ∈ MultiTTS._workers pool_of_one_busy ::
         [(30000000001, [TTS_init ProcessTTS ∅])].*2 /\
    say_outcome {| text := "hi"; voice := "anna"; format_ := "wav" |} 1024 ws
      (MultiTTS._workers pool_of_one_busy) (MultiTTS.Raised Still_busy).
Proof.
  apply (X8_say_claims_one_worker_or_none
           {| text := "hi"; voice := "anna"; format_ := "wav" |} 1024 0
           [(30000000001, [TTS_init ProcessTTS ∅])] pool_of_one_busy
           pool_of_one_busy (MultiTTS.Raised Still_busy)).
  reflexivity.
Defined.

(** X9. [MultiTTS.join] acts once: it clears the pool's flag and queues one
    shutdown marker on every worker when the pool was working, and does
    nothing when it was not, so that a second [join] changes nothing. The
    workers' own [_work] flags, which live in the worker processes, are not
    changed by it. *)
Theorem X9_pool_join_once (pool : MultiTTS.t) :
  MultiTTS.join (MultiTTS.join pool) = MultiTTS.join pool /\
  MultiTTS._work (MultiTTS.join pool) = false /\
  _work <$> MultiTTS._workers (MultiTTS.join pool) =
    _work <$> MultiTTS._workers pool /\
  _queue <$> MultiTTS._workers (MultiTTS.join pool) =
    (if MultiTTS._work pool
     then (fun w => _queue w ++ [None]) <$> MultiTTS._workers pool
     else _queue <$> MultiTTS._workers pool).
Proof.
  unfold MultiTTS.join. destruct pool as [ws l w]. simpl.
  destruct w; simpl.
  - repeat split; try done.
    + rewrite <- list_fmap_compose. by apply list_fmap_ext.
    + rewrite <- list_fmap_compose. by apply list_fmap_ext.
  - by repeat split.
Qed.

(** ** The output of an encoder on its way to the consumer *)

Lemma pieces_fuel n : (0 < n)%nat -> forall fuel fuel' data,
  (length data <= fuel)%nat -> (length data <= fuel')%nat ->
  pieces fuel n data = pieces fuel' n data.
Proof.
  intros Hn. induction fuel as [|fuel IH]; intros fuel' data H H'.
  - destruct data; [|simpl in H; lia]. by destruct fuel'.
  - destruct data as [|b data]; [by destruct fuel'|].
    destruct fuel' as [|fuel']; [simpl in H'; lia|].
    cbn [pieces]. f_equal. apply IH.
    all: rewrite length_drop; simpl in *; lia.
Qed.

Lemma pieces_concat n : (0 < n)%nat -> forall fuel data,
  (length data <= fuel)%nat -> concat (pieces fuel n data) = data.
Proof.
  intros Hn. induction fuel as [|fuel IH]; intros data H.
  - by destruct data; [|simpl in H; lia].
  - destruct data as [|b data]; [done|]. cbn [pieces concat].
    rewrite IH by (rewrite length_drop; simpl in *; lia).
    apply take_drop.
Qed.

Lemma pieces_bound n : (0 < n)%nat -> forall fuel data,
  Forall (fun c => c <> [] /\ (length c <= n)%nat) (pieces fuel n data).
Proof.
  intros Hn. induction fuel as [|fuel IH]; intros data; [constructor|].
  destruct data as [|b data]; [constructor|]. cbn [pieces].
  constructor; [|apply IH]. split.
  - destruct n; [lia|]. done.
  - rewrite length_take. lia.
Qed.

Lemma stdout_read_gone_eq n p :
  Popen.state p <> Popen.Running ->
  Popen.stdout_read n p =
    Some (take n (Popen.stdout p),
          {| Popen.args := Popen.args p; Popen.stdin := Popen.stdin p;
             Popen.stdin_closed := Popen.stdin_closed p;
             Popen.state := Popen.state p;
             Popen.stdout := drop n (Popen.stdout p) |}).
Proof.
  intros Hs. unfold Popen.stdout_read.
  destruct (n <=? length (Popen.stdout p))%nat eqn:L; [done|].
  apply Nat.leb_gt in L. rewrite take_ge by lia.
  by destruct (Popen.state p).
Qed.

Lemma relay_encoder_output fuel : forall s j p,
  _in_out s = Some {| _in := SStdout j; alive := true |} ->
  procs (heap s) !! j = Some p -> Popen.state p <> Popen.Running ->
  (length (Popen.stdout p) < fuel)%nat ->
  exists s',
    InOut_join fuel s = Some s' /\
    _stream s' =
      _stream s ++
      pieces (length (Popen.stdout p)) InOut_BUFF (Popen.stdout p) ++ [[]] /\
    _in_out s' = Some {| _in := SStdout j; alive := false |} /\
    Popen.stdout <$> procs (heap s') !! j = Some [].
Proof.
  induction fuel as [|fuel IH]; intros s j p Hio Hp Hs Hf; [lia|].
  assert (Hstep : relay_step s =
    Some (set_in_out
            (Some {| _in := SStdout j;
                     alive := negb (is_empty (take InOut_BUFF (Popen.stdout p))) |})
           (set_stream (_stream s ++ [take InOut_BUFF (Popen.stdout p)])
             (set_heap (set_procs
                (<[j := {| Popen.args := Popen.args p; Popen.stdin := Popen.stdin p;
                           Popen.stdin_closed := Popen.stdin_closed p;
                           Popen.state := Popen.state p;
                           Popen.stdout := drop InOut_BUFF (Popen.stdout p) |}]>
                   (procs (heap s))) (heap s)) s)))).
  { unfold relay_step. rewrite Hio. simpl. rewrite Hp. simpl.
    by rewrite (stdout_read_gone_eq InOut_BUFF p Hs). }
  cbn [InOut_join]. rewrite Hio. cbn [alive]. rewrite Hstep. cbn [mbind option_bind].
  destruct (Popen.stdout p) as [|b out] eqn:Eo.
  - eexists. split; [by destruct fuel|]. simpl. split; [done|]. split; [done|].
    rewrite list_lookup_insert_eq by (by eapply lookup_lt_Some). done.
  - set (p' := {| Popen.args := Popen.args p; Popen.stdin := Popen.stdin p;
                  Popen.stdin_closed := Popen.stdin_closed p;
                  Popen.state := Popen.state p;
                  Popen.stdout := drop InOut_BUFF (b :: out) |}).
    set (s1 := set_in_out _ _).
    destruct (IH s1 j p') as (s' & E & Hst & Hio' & Hout).
    + done.
    + simpl. apply list_lookup_insert_eq. by eapply lookup_lt_Some.
    + done.
    + simpl Popen.stdout. rewrite length_drop. simpl in Hf. unfold InOut_BUFF.
      simpl. lia.
    + exists s'. split; [done|]. split; [|done]. rewrite Hst. simpl.
      rewrite <- app_assoc. f_equal. cbn [pieces app]. f_equal. f_equal.
      apply pieces_fuel; [unfold InOut_BUFF; lia|done|].
      rewrite length_drop. simpl. lia.
Qed.

(** X10. The relay thread on the output of a subprocess that is gone runs
    to its end: joining it returns, and it has appended to the stream the
    pending output, cut into non-empty pieces of at most [BUFF] bytes, in
    order, followed by one empty chunk; nothing of the output is left in the
    pipe. *)
Theorem X10_relay_delivers_encoder_output (s : TTS) (j : nat) (p : Popen.t) :
  _in_out s = Some {| _in := SStdout j; alive := true |} ->
  procs (heap s) !! j = Some p -> Popen.state p <> Popen.Running ->
  exists s' chunks,
    InOut_join (join_fuel s) s = Some s' /\
    _stream s' = _stream s ++ chunks ++ [[]] /\
    concat chunks = Popen.stdout p /\
    Forall (fun c => c <> [] /\ (length c <= InOut_BUFF)%nat) chunks /\
    relay_returned s' /\
    Popen.stdout <$> procs (heap s') !! j = Some [].
Proof.
  intros Hio Hp Hs.
  destruct (relay_encoder_output (join_fuel s) s j p Hio Hp Hs)
    as (s' & E & Hst & Hio' & Hout).
  { unfold join_fuel. rewrite Hio, Hp. lia. }
  exists s', (pieces (length (Popen.stdout p)) InOut_BUFF (Popen.stdout p)).
  split; [done|]. split; [done|].
  split; [apply pieces_concat; [unfold InOut_BUFF; lia|done]|].
  split; [apply pieces_bound; unfold InOut_BUFF; lia|].
  split; [|done]. unfold relay_returned. by rewrite Hio'.
Qed.

Lemma iterate_S fuel buff s :
  iterate (S fuel) buff s =
    match _iter_me buff s with
    | None => None
    | Some (None, s') => Some ([], s')
    | Some (Some chunk, s') =>
        match iterate fuel buff s' with
        | None => None
        | Some (chunks, s'') => Some (chunk :: chunks, s'')
        end
    end.
Proof. reflexivity. Qed.

Lemma iterate_stream buff chunks : forall s rest,
  kind s = ProcessTTS -> all_data chunks ->
  _stream s = chunks ++ [] :: rest ->
  iterate (S (length chunks)) buff s =
    Some (chunks, set_reading false (set_stream rest s)).
Proof.
  induction chunks as [|c chunks IH]; intros s rest K Hd Hst.
  - cbn [iterate length]. unfold _iter_me, ProcessTTS_iter_me. rewrite K, Hst.
    done.
  - apply Forall_cons in Hd as [Hc Hd]. apply is_empty_false in Hc.
    change (length (c :: chunks)) with (S (length chunks)).
    rewrite iterate_S. unfold _iter_me, ProcessTTS_iter_me. rewrite K, Hst.
    cbn [app]. rewrite Hc.
    rewrite (IH (set_stream (chunks ++ [] :: rest) s) rest K Hd eq_refl).
    done.
Qed.

Lemma iterate_blocks buff fuel : forall s,
  kind s = ProcessTTS -> all_data (_stream s) -> iterate fuel buff s = None.
Proof.
  induction fuel as [|fuel IH]; intros s K Hd; [done|].
  rewrite iterate_S. unfold _iter_me, ProcessTTS_iter_me. rewrite K.
  destruct (_stream s) as [|c q] eqn:E; [done|].
  apply Forall_cons in Hd as [Hc Hd]. apply is_empty_false in Hc. rewrite Hc.
  by rewrite (IH (set_stream q s) K Hd).
Qed.

(** X11. The iterator of a process worker yields the chunks of the stream
    up to the first empty one, takes that one too, clears the reading flag
    and ends, leaving what follows in the stream; on a stream without an
    empty chunk it does not end (it waits in [get], however many turns it is
    given). *)
Theorem X11_process_iterator_ends_at_the_empty_chunk
    (s : TTS) (buff : nat) (chunks : list bytes) :
  kind s = ProcessTTS -> all_data chunks ->
  (forall rest, _stream s = chunks ++ [] :: rest ->
     iterate (S (length chunks)) buff s =
       Some (chunks, set_reading false (set_stream rest s))) /\
  (_stream s = chunks -> forall fuel, iterate fuel buff s = None).
Proof.
  intros K Hd. split.
  - intros rest Hst. by apply iterate_stream.
  - intros Hst fuel. apply iterate_blocks; [done|]. by rewrite Hst.
Qed.

Lemma X11_process_iterator_ends_at_the_empty_chunk_witness :
  let s := set_stream [["a"%byte]; ["b"%byte]; []; ["c"%byte]]
             (set_busy (TTS_init ProcessTTS ∅)) in
  iterate 3 1024 s =
    Some ([["a"%byte]; ["b"%byte]],
          set_reading false (set_stream [["c"%byte]] s)).
Proof.
  intros s.
  apply (proj1 (X11_process_iterator_ends_at_the_empty_chunk s 1024
                  [["a"%byte]; ["b"%byte]] eq_refl
                  ltac:(repeat constructor; discriminate)) [["c"%byte]]).
  reflexivity.
Defined.

Lemma iterate_encoder buff : (0 < buff)%nat -> forall fuel s j p,
  kind s = OneTTS -> _popen s = Some j -> procs (heap s) !! j = Some p ->
  Popen.state p <> Popen.Running ->
  (length (Popen.stdout p) < fuel)%nat ->
  exists s',
    iterate fuel buff s =
      Some (pieces (length (Popen.stdout p)) buff (Popen.stdout p), s') /\
    _popen s' = Some j /\
    Popen.stdout <$> procs (heap s') !! j = Some [].
Proof.
  intros Hb. induction fuel as [|fuel IH]; intros s j p K Hpo Hp Hs Hf; [lia|].
  set (p' := {| Popen.args := Popen.args p; Popen.stdin := Popen.stdin p;
                Popen.stdin_closed := Popen.stdin_closed p;
                Popen.state := Popen.state p;
                Popen.stdout := drop buff (Popen.stdout p) |}).
  set (s1 := set_heap (set_procs (<[j := p']> (procs (heap s))) (heap s)) s).
  assert (Hit : _iter_me buff s =
    Some (if is_empty (take buff (Popen.stdout p)) then None
          else Some (take buff (Popen.stdout p)), s1)).
  { unfold _iter_me, BaseTTS_iter_me. rewrite K, Hpo. simpl. rewrite Hp. simpl.
    by rewrite (stdout_read_gone_eq buff p Hs). }
  rewrite iterate_S, Hit.
  assert (Hp1 : procs (heap s1) !! j = Some p').
  { simpl. apply list_lookup_insert_eq. by eapply lookup_lt_Some. }
  destruct (Popen.stdout p) as [|b out] eqn:Eo.
  - rewrite take_nil. simpl. exists s1. split; [done|]. split; [done|].
    rewrite Hp1. simpl. by rewrite drop_nil.
  - assert (Hne : is_empty (take buff (b :: out)) = false)
      by (destruct buff; [lia|done]).
    rewrite Hne.
    destruct (IH s1 j p') as (s' & E & Hpo' & Hout); try done.
    { simpl Popen.stdout. rewrite length_drop. simpl in Hf. simpl. lia. }
    rewrite E. exists s'. split; [|done]. cbn [pieces length]. do 3 f_equal.
    simpl Popen.stdout. apply pieces_fuel; [done|done|].
    rewrite length_drop. simpl. lia.
Qed.

(** X12. The iterator of a thread worker on an encoder that is gone: with
    [buff > 0] it yields the pending output of the encoder in non-empty
    chunks of at most [buff] bytes, in order, and ends with the pipe empty;
    with [buff = 0] the first read returns the empty chunk, so it ends at
    once, yields nothing and leaves the output in the pipe. *)
Theorem X12_thread_iterator_reads_encoder_output
    (s : TTS) (j : nat) (p : Popen.t) (buff : nat) :
  kind s = OneTTS -> _popen s = Some j -> procs (heap s) !! j = Some p ->
  Popen.state p <> Popen.Running ->
  exists chunks s',
    iterate (S (length (Popen.stdout p))) buff s = Some (chunks, s') /\
    if (buff =? 0)%nat
    then chunks = [] /\ procs (heap s') !! j = Some p
    else concat chunks = Popen.stdout p /\
         Forall (fun c => c <> [] /\ (length c <= buff)%nat) chunks /\
         Popen.stdout <$> procs (heap s') !! j = Some [].
Proof.
  intros K Hpo Hp Hs. destruct buff as [|b].
  - rewrite iterate_S. unfold _iter_me, BaseTTS_iter_me. rewrite K, Hpo. simpl.
    rewrite Hp. simpl.
    do 2 eexists. split; [done|]. split; [done|]. simpl.
    rewrite list_lookup_insert_eq by (by eapply lookup_lt_Some).
    by destruct p.
  - destruct (iterate_encoder (S b) ltac:(lia) (S (length (Popen.stdout p)))
                s j p K Hpo Hp Hs ltac:(lia)) as (s' & E & _ & Hout).
    do 2 eexists. split; [done|].
    change (S b =? 0)%nat with false. cbv iota.
    split; [apply pieces_concat; [lia|done]|].
    split; [apply pieces_bound; lia|done].
Qed.
Lemma X10_relay_delivers_encoder_output_witness :
  let p := {| Popen.args := lame; Popen.stdin := []; Popen.stdin_closed := true;
              Popen.state := Popen.Exited;
              Popen.stdout := ["I"; "D"; "3"]%byte |} in
  let s := set_in_out (Some {| _in := SStdout 0; alive := true |})
             (set_heap {| files := []; procs := [p] |}
                (TTS_init ProcessTTS {[ "mp3"%string := lame ]})) in
  exists s' chunks,
    InOut_join (join_fuel s) s = Some s' /\
    _stream s' = _stream s ++ chunks ++ [[]] /\
    concat chunks = Popen.stdout p /\
    Forall (fun c => c <> [] /\ (length c <= InOut_BUFF)%nat) chunks /\
    relay_returned s' /\
    Popen.stdout <$> procs (heap s') !! 0%nat = Some [].
Proof.
  intros p s. apply (X10_relay_delivers_encoder_output s 0 p).
  - reflexivity.
  - reflexivity.
  - discriminate.
Defined.

Lemma X12_thread_iterator_reads_encoder_output_witness :
  let p := {| Popen.args := lame; Popen.stdin := []; Popen.stdin_closed := true;
              Popen.state := Popen.Exited;
              Popen.stdout := ["I"; "D"; "3"]%byte |} in
  let s := set_popen (Some 0%nat)
             (set_heap {| files := []; procs := [p] |}
                (TTS_init OneTTS {[ "mp3"%string := lame ]})) in
  exists chunks s',
    iterate (S (length (Popen.stdout p))) 2 s = Some (chunks, s') /\
    if (2 =? 0)%nat
    then chunks = [] /\ procs (heap s') !! 0%nat = Some p
    else concat chunks = Popen.stdout p /\
         Forall (fun c => c <> [] /\ (length c <= 2)%nat) chunks /\
         Popen.stdout <$> procs (heap s') !! 0%nat = Some [].
Proof.
  intros p s. apply (X12_thread_iterator_reads_encoder_output s 0 p 2).
  - reflexivity.
  - reflexivity.
  - reflexivity.
  - discriminate.
Defined.

(** ** The request loop, and a stream that is not ended *)

Lemma startable_set_queue q s : startable s -> startable (set_queue q s).
Proof.
  unfold startable, relay_can_finish.
  destruct s as [k cmd wt q0 sr fmt po fi wv wk pr rd st io pw hp fl].
  unfold teardown, _wave_close. simpl.
  destruct k; [done|]. by destruct wv, fi, po.
Qed.

(** X13. [run] serves the queued requests in order up to the first
    shutdown marker and no further: on a worker that can start a stream and
    has not been told to stop, with an engine that answers every request by
    a rate callback and chunk callbacks, [run] gets through every request
    before the marker, returns exactly when there is a marker, leaves the
    requests behind the marker in the queue untouched, and otherwise waits
    on the emptied queue; the worker is again able to start a stream. *)
Theorem X13_run_serves_up_to_the_marker
    (engine : Request -> Env) (s : TTS) :
  startable s -> _work s = true ->
  (forall req, Some req ∈ _queue s -> exists rate ds exited,
     engine req = {| callbacks := SetSampleRate rate :: (Speech <$> ds);
                     exits_in_time := exited |} /\ 0 < rate < 2 ^ 31) ->
  exists s',
    run engine s = Some (s', has_marker (_queue s)) /\
    _queue s' = after_marker (_queue s) /\ startable s' /\
    kind s' = kind s /\ _CMD s' = _CMD s /\ _work s' = true.
Proof.
  unfold run. generalize (_queue s) at 1 2 3 4. intros q. revert s.
  induction q as [|[req|] q IH]; intros s St Hwk Hq.
  - exists (set_queue [] s). repeat split; try done. by apply startable_set_queue.
  - destruct (Hq req) as (rate & ds & exited & He & Hr); [by left|].
    cbn [run_queue has_marker existsb after_marker orb]. rewrite He.
    destruct (startable_after_request req rate ds exited (set_queue q s)
                (startable_set_queue q s St) Hwk Hr) as (s1 & E & St1 & F).
    rewrite E. cbn [mbind option_bind].
    destruct F as (Fk & Fc & Fw & _).
    destruct (IH s1 St1) as (s' & E' & Hq' & St' & K' & C' & W').
    { by rewrite Fw. }
    { intros r Hr'. apply Hq. by right. }
    exists s'. split; [done|]. split; [done|]. split; [done|].
    split; [by rewrite K', Fk|]. split; [by rewrite C', Fc|done].
  - exists (set_queue q s). repeat split; try done. by apply startable_set_queue.
Qed.

Lemma X13_run_serves_up_to_the_marker_witness :
  let r1 := {| text := "a"; voice := "anna"; format_ := "wav" |} in
  let r2 := {| text := "b"; voice := "anna"; format_ := "mp3" |} in
  let engine := fun _ : Request =>
    {| callbacks := SetSampleRate 24000 :: (Speech <$> [["a"%byte; "b"%byte]]);
       exits_in_time := true |} in
  let s := set_queue [Some r1; Some r2; None; Some r1]
             (TTS_init ProcessTTS {[ "mp3"%string := lame ]}) in
  exists s',
    run engine s = Some (s', has_marker (_queue s)) /\
    _queue s' = after_marker (_queue s) /\ startable s' /\
    kind s' = kind s /\ _CMD s' = _CMD s /\ _work s' = true.
Proof.
  intros r1 r2 engine s.
  apply (X13_run_serves_up_to_the_marker engine s).
  - exact I.
  - reflexivity.
  - intros req _. exists 24000, [["a"%byte; "b"%byte]], true.
    split; [reflexivity|]. split; reflexivity.
Defined.

(** The relay thread on an open [FakeFile] without a terminal chunk takes
    what is pending and then waits. *)
Lemma relay_blocks fuel : forall s i f,
  _in_out s = Some {| _in := SFile i; alive := true |} ->
  files (heap s) !! i = Some f ->
  FakeFile._open f = true -> all_data (FakeFile.queue f) ->
  InOut_join fuel s = None.
Proof.
  induction fuel as [|fuel IH]; intros s i f Hio Hf Ho Hq.
  - simpl. by rewrite Hio.
  - cbn [InOut_join]. rewrite Hio. cbn [alive].
    unfold relay_step. rewrite Hio. cbn [alive negb _in mbind option_bind].
    rewrite Hf. cbn [mbind option_bind].
    rewrite (read_open_data f Ho Hq).
    destruct (FakeFile.queue f) as [|c q] eqn:E; [done|].
    cbn [mbind option_bind].
    assert (Hne : is_empty (concat (c :: q)) = false).
    { apply is_empty_false, all_data_concat. by apply Forall_cons in Hq as [? _]. }
    rewrite Hne. cbn [negb].
    eapply (IH _ i FakeFile.new); [done| |done|constructor].
    simpl. apply list_lookup_insert_eq. by eapply lookup_lt_Some.
Qed.

(** X14. A process worker whose relay thread reads a [FakeFile] that is
    still open and holds no terminal chunk cannot start another stream: the
    join of the relay thread in [_clear_old] does not return, whatever the
    number of turns, so neither do [_select_target], [_start_stream] nor a
    second rate callback. Only [_generate] ends the [FakeFile], after the
    engine has returned. *)
Theorem X14_unended_stream_blocks_the_next_one
    (s : TTS) (i : nat) (f : FakeFile.t) (rate : Z) :
  kind s = ProcessTTS ->
  _in_out s = Some {| _in := SFile i; alive := true |} ->
  files (heap s) !! i = Some f ->
  FakeFile._open f = true -> all_data (FakeFile.queue f) ->
  (forall fuel, InOut_join fuel s = None) /\
  _select_target s = None /\ _start_stream s = None /\
  _sr_callback rate s = None.
Proof.
  intros K Hio Hf Ho Hq.
  assert (J : forall s0, kind s0 = ProcessTTS -> _in_out s0 = _in_out s ->
                files (heap s0) = files (heap s) -> _select_target s0 = None).
  { intros s0 K0 Hio0 Hf0. unfold _select_target, ProcessTTS_select_target, _clear_old.
    rewrite K0, Hio0, Hio.
    rewrite (relay_blocks _ s0 i f); try done; [congruence|by rewrite Hf0]. }
  split; [intros fuel; by eapply relay_blocks|].
  split; [by apply J|].
  assert (S0 : forall s0, kind s0 = ProcessTTS -> _in_out s0 = _in_out s ->
                files (heap s0) = files (heap s) -> _start_stream s0 = None).
  { intros s0 K0 Hio0 Hf0. rewrite start_stream_unfold.
    destruct (teardown_fields s0) as ((Hk & _) & _ & _ & _ & _ & _ & _ & Hfl & _).
    rewrite (J (teardown s0)); [done| | |].
    - by rewrite Hk.
    - by rewrite teardown_relay.
    - by rewrite Hfl. }
  split; [by apply S0|].
  unfold _sr_callback. by rewrite (S0 (set_sample_rate rate s)).
Qed.

Lemma X14_unended_stream_blocks_the_next_one_witness :
  (forall fuel, InOut_join fuel (started ProcessTTS) = None) /\
  _select_target (started ProcessTTS) = None /\
  _start_stream (started ProcessTTS) = None /\
  _sr_callback 16000 (started ProcessTTS) = None.
Proof.
  apply (X14_unended_stream_blocks_the_next_one (started ProcessTTS) 0
           {| FakeFile.queue := wav_header 0xFFFFFFF 24000;
              FakeFile._open := true |} 16000).
  - vm_compute; reflexivity.
  - vm_compute; reflexivity.
  - vm_compute; reflexivity.
  - reflexivity.
  - repeat constructor; discriminate.
Defined.

(** ** A second rate callback on a thread worker *)

(** While the worker has not been told to stop, every callback asks the
    engine to go on. *)
Lemma callback_continues ev s s' b :
  _work s = true -> callback ev s = Some (s', b) -> b = true.
Proof.
  intros Hwk H. destruct ev as [rate|d]; simpl in H.
  - unfold _sr_callback in H. inv_some. done.
  - unfold _speech_callback in H. inv_some. done.
Qed.

Lemma engine_generate_app evs1 evs2 : forall s,
  _work s = true ->
  engine_generate (evs1 ++ evs2) s =
    engine_generate evs1 s ≫= engine_generate evs2.
Proof.
  induction evs1 as [|ev evs1 IH]; intros s Hwk; [done|].
  cbn [app engine_generate].
  destruct (callback ev s) as [[s1 b]|] eqn:E; [|done].
  pose proof (callback_continues _ _ _ _ Hwk E) as ->.
  apply callback_frame in E. destruct E as (_ & _ & Hw & _).
  apply IH. congruence.
Qed.

Lemma set_format_same f s : _format s = f -> set_format f s = s.
Proof. intros <-. by destruct s. Qed.

Lemma set_queue_same q s : _queue s = q -> set_queue q s = s.
Proof. intros <-. by destruct s. Qed.

(** X15. On a thread worker a second rate callback inside one request for
    the native format starts the stream again: at the end of the request the
    worker's [_file] is a [FakeFile] created after the first one, and it
    holds the header for the second rate, the samples that came after the
    second rate callback and the terminal chunk, and none of the samples
    that came before. *)
Theorem X15_second_rate_callback_restarts_the_stream
    (s : TTS) (req : Request) (r1 r2 : Z) (ds1 ds2 : list bytes)
    (exited : bool) :
  kind s = OneTTS -> _CMD s !! format_ req = None -> _work s = true ->
  0 < r1 < 2 ^ 31 -> 0 < r2 < 2 ^ 31 ->
  exists s' i,
    _generate req
      {| callbacks := (SetSampleRate r1 :: (Speech <$> ds1)) ++
                      SetSampleRate r2 :: (Speech <$> ds2);
         exits_in_time := exited |} s = Some s' /\
    _file s' = Some i /\ (length (files (heap s)) < i)%nat /\
    files (heap s') !! i =
      Some {| FakeFile.queue := wav_header 0xFFFFFFF r2 ++ queued ds2 ++ [[]];
              FakeFile._open := true |}.
Proof.
  intros K Hc Hwk Hr1 Hr2.
  assert (St : forall x, kind x = OneTTS -> startable x)
    by (intros x Kx; unfold startable; by rewrite Kx).
  destruct (returns_inv _ _
      (engine_native r1 ds1 (set_format (format_ req) s)
         (St (set_format (format_ req) s) K) Hc Hwk Hr1)) as (s1 & E1 & F1 & _ & Hf1 & Hs1 & _).
  pose proof F1 as (K1 & C1 & W1 & _). simpl in K1, C1, W1, Hf1.
  destruct (returns_inv _ _
      (BaseTTS_generate_native req r2 ds2 exited s1
         ltac:(by rewrite C1) (St _ ltac:(by rewrite K1))
         ltac:(by rewrite W1) Hr2))
    as (s' & E' & _ & _ & Hf & _ & _ & Hfile).
  exists s', (length (files (heap s1))).
  split.
  - unfold _generate. rewrite K. unfold BaseTTS_generate.
    cbn [callbacks exits_in_time].
    rewrite (engine_generate_app _ _ (set_format (format_ req) s) Hwk). rewrite E1. cbn [mbind option_bind].
    unfold BaseTTS_generate in E'. cbn [callbacks exits_in_time] in E'.
    rewrite (set_format_same _ s1 Hf1) in E'. exact E'.
  - split; [done|]. split; [|done].
    destruct Hs1 as (_ & _ & Hl & _). simpl in Hl.
    by apply lookup_lt_Some in Hl.
Qed.

Lemma X15_second_rate_callback_restarts_the_stream_witness :
  let s := TTS_init OneTTS ∅ in
  let req := {| text := "hi"; voice := "anna"; format_ := "wav" |} in
  exists s' i,
    _generate req
      {| callbacks := (SetSampleRate 24000 :: (Speech <$> [["a"%byte; "b"%byte]])) ++
                      SetSampleRate 16000 :: (Speech <$> [["c"%byte; "d"%byte]]);
         exits_in_time := true |} s = Some s' /\
    _file s' = Some i /\ (length (files (heap s)) < i)%nat /\
    files (heap s') !! i =
      Some {| FakeFile.queue :=
                wav_header 0xFFFFFFF 16000 ++ queued [["c"%byte; "d"%byte]] ++ [[]];
              FakeFile._open := true |}.
Proof.
  intros s req.
  apply (X15_second_rate_callback_restarts_the_stream s req 24000 16000
           [["a"%byte; "b"%byte]] [["c"%byte; "d"%byte]] true).
  - reflexivity.
  - reflexivity.
  - reflexivity.
  - split; reflexivity.
  - split; reflexivity.
Defined.

(** ** [to_file] *)

(** The wait event is set by the rate callback and by nothing else in a
    request. *)
Lemma callback_wait ev s s' b :
  callback ev s = Some (s', b) ->
  _wait s' = match ev with SetSampleRate _ => true | Speech _ => _wait s end.
Proof.
  intros H. destruct ev as [rate|d]; simpl in H.
  - unfold _sr_callback in H. inv_some. done.
  - unfold _speech_callback in H. inv_some. done.
Qed.

Lemma engine_speeches_wait ds : forall s s',
  engine_generate (Speech <$> ds) s = Some s' -> _wait s' = _wait s.
Proof.
  induction ds as [|d ds IH]; intros s s' H.
  - simpl in H. by injection H as <-.
  - rewrite fmap_cons in H. cbn [engine_generate] in H.
    destruct (callback (Speech d) s) as [[s1 b]|] eqn:E; [|done].
    apply callback_wait in E. destruct b.
    + apply IH in H. congruence.
    + injection H as <-. done.
Qed.

Lemma generate_sets_wait req rate ds exited s s' :
  BaseTTS_generate req
    {| callbacks := SetSampleRate rate :: (Speech <$> ds);
       exits_in_time := exited |} s = Some s' ->
  _wait s' = true.
Proof.
  unfold BaseTTS_generate. cbn [callbacks exits_in_time engine_generate].
  intros H.
  destruct (callback _ _) as [[s1 b]|] eqn:E; [|done].
  apply callback_wait in E.
  assert (H1 : exists s2, (if b then engine_generate (Speech <$> ds) s1 else Some s1)
                         = Some s2 /\ _wait s2 = true).
  { destruct b.
    - destruct (engine_generate _ s1) as [s2|] eqn:E2; [|done].
      exists s2. split; [done|]. apply engine_speeches_wait in E2. congruence.
    - by exists s1. }
  destruct H1 as (s2 & E2 & W2).
  assert (H' : (s0 ← Some s2;
            let s0 := _wave_close s0 in
            s0 ← match _file s0 with
                 | Some i => h ← end_file i (heap s0); Some (set_heap h s0)
                 | None => Some s0
                 end;
            match _popen s0 with
            | Some j => h ← close_and_wait exited j (heap s0); Some (set_heap h s0)
            | None => Some s0
            end) = Some s').
  { rewrite <- E2. destruct b; exact H. }
  clear H E2. simpl in H'. unfold _wave_close in H'.
  destruct (_wave s2); simpl in H'; inv_some; done.
Qed.

(** The iterator of a thread worker on a [FakeFile] that has been ended:
    everything pending comes as one chunk, then the iterator ends. *)
Lemma iterate_file_ended buff s i (chunks : list bytes) :
  kind s = OneTTS -> _popen s = None -> _file s = Some i ->
  files (heap s) !! i =
    Some {| FakeFile.queue := chunks ++ [[]]; FakeFile._open := true |} ->
  concat chunks <> [] ->
  exists s', iterate 2 buff s = Some ([concat chunks], s') /\
             _queue s' = _queue s /\ _wait s' = _wait s.
Proof.
  intros K Hp Hf Hfile Hne.
  apply is_empty_false in Hne.
  set (q := chunks ++ [[]]) in *.
  assert (Hlen : (1 <? length q)%nat = true).
  { unfold q. rewrite length_app. simpl. apply Nat.ltb_lt.
    destruct chunks; [done|simpl; lia]. }
  assert (Hall : forallb (fun c => negb (is_empty c)) q = false).
  { unfold q. rewrite forallb_app. simpl. by rewrite andb_false_r. }
  assert (Hdata : concat q = concat chunks).
  { unfold q. rewrite concat_app. simpl. by rewrite app_nil_r. }
  clearbody q.
  set (f' := {| FakeFile.queue := []; FakeFile._open := false |}).
  set (s2 := set_heap (set_files (<[i := f']> (files (heap s))) (heap s)) s).
  assert (R1 : _iter_me buff s = Some (Some (concat chunks), s2)).
  { unfold _iter_me, BaseTTS_iter_me. rewrite K, Hp, Hf. simpl.
    rewrite Hfile. simpl. unfold FakeFile.read, FakeFile.qsize. simpl.
    rewrite Hlen, drain_spec. simpl. by rewrite Hdata, Hall, Hne. }
  assert (R2 : _iter_me buff s2 = Some (None, s2)).
  { unfold _iter_me, BaseTTS_iter_me. simpl. rewrite K, Hp, Hf. simpl.
    rewrite list_lookup_insert_eq by (by eapply lookup_lt_Some).
    simpl. unfold s2. by rewrite list_insert_insert_eq. }
  exists s2. rewrite iterate_S, R1, iterate_S, R2. done.
Qed.

(** X16. [to_file] on an idle thread worker, for the native format on a
    worker whose table has no wav entry (no table of [_cmd_init] has one),
    with an engine that makes a rate callback and chunk callbacks: it
    returns without an error, and the file, whatever it held before, holds
    exactly the header for the announced rate followed by the sample
    buffers in order; the request queue is empty again and the wait event
    cleared. *)
Theorem X16_to_file_writes_header_and_samples
    (engine : Request -> Env) (timed_out : bool) (filename : string)
    (req : Request) (fs : gmap string bytes) (s : TTS)
    (rate : Z) (ds : list bytes) (exited : bool) :
  kind s = OneTTS -> _queue s = [] -> _work s = true ->
  format_ req = "wav"%string -> _CMD s !! "wav"%string = None ->
  engine req = {| callbacks := SetSampleRate rate :: (Speech <$> ds);
                  exits_in_time := exited |} ->
  0 < rate < 2 ^ 31 ->
  exists s',
    to_file engine timed_out 2 filename req fs s =
      Some (<[filename := concat (wav_header 0xFFFFFFF rate) ++ concat ds]> fs,
            s', None) /\
    _queue s' = [] /\ _wait s' = false.
Proof.
  intros K Hq Hwk Hfmt Hc He Hr. unfold to_file, BaseTTS_say.
  rewrite Hfmt. cbn [String.eqb Ascii.eqb Bool.eqb negb andb]. rewrite Hq.
  cbn [app]. unfold run. cbn [_queue set_queue run_queue]. rewrite He.
  set (s0 := set_queue [] (set_queue [Some req] s)).
  assert (St : startable s0)
    by (unfold startable; change (kind s0) with (kind s); by rewrite K).
  destruct (returns_inv _ _
      (BaseTTS_generate_native req rate ds exited s0
         ltac:(by rewrite Hfmt) St Hwk Hr))
    as (s1 & E1 & F & _ & Hf & Hp & _ & Hfile).
  pose proof (generate_sets_wait _ _ _ _ _ _ E1) as W1.
  destruct F as (K1 & _ & _ & _ & _ & Q1). simpl in K1, Q1.
  unfold _generate. change (kind s0) with (kind s). rewrite K, E1.
  cbn [mbind option_bind]. unfold say_wait. cbn [_wait set_queue]. rewrite W1.
  cbn [orb mbind option_bind].
  destruct (iterate_file_ended 1024 (set_wait false (set_queue [] s1))
              (length (files (heap s0)))
              (wav_header 0xFFFFFFF rate ++ queued ds))
    as (s' & E' & Q' & W').
  { simpl. congruence. }
  { exact Hp. }
  { exact Hf. }
  { change (files (heap s1) !! length (files (heap s0)) =
            Some {| FakeFile.queue :=
                      (wav_header 0xFFFFFFF rate ++ queued ds) ++ [[]];
                    FakeFile._open := true |}).
    rewrite <- app_assoc. exact Hfile. }
  { by destruct rate. }
  rewrite E'. cbn [mbind option_bind]. exists s'. split; [|done].
  unfold fs_append. rewrite lookup_insert_eq. cbn [default app].
  rewrite insert_insert_eq. do 3 f_equal. unfold id. cbn [app concat].
  by rewrite app_nil_r, concat_app, concat_queued.
Qed.

Lemma X16_to_file_writes_header_and_samples_witness :
  let engine := fun _ : Request =>
    {| callbacks := SetSampleRate 24000 :: (Speech <$> [["a"%byte; "b"%byte]]);
       exits_in_time := true |} in
  let req := {| text := "hi"; voice := "anna"; format_ := "wav" |} in
  let fs : gmap string bytes := {[ "wav.wav"%string := ["o"%byte; "l"%byte; "d"%byte] ]} in
  exists s',
    to_file engine false 2 "wav.wav" req fs
      (TTS_init OneTTS {[ "mp3"%string := lame ]}) =
      Some (<["wav.wav"%string :=
                concat (wav_header 0xFFFFFFF 24000) ++ concat [["a"%byte; "b"%byte]]]> fs,
            s', None) /\
    _queue s' = [] /\ _wait s' = false.
Proof.
  intros engine req fs.
  apply (X16_to_file_writes_header_and_samples engine false "wav.wav" req fs
           (TTS_init OneTTS {[ "mp3"%string := lame ]}) 24000
           [["a"%byte; "b"%byte]] true).
  - reflexivity.
  - reflexivity.
  - reflexivity.
  - reflexivity.
  - reflexivity.
  - reflexivity.
  - split; reflexivity.
Defined.

(** X17. [to_file] with a format that is neither wav nor in the worker's
    table: the file is opened for writing before the format is checked, so
    the call raises [Unsupported_format] and leaves the file created or
    truncated to nothing; the worker is not touched. *)
Theorem X17_to_file_unsupported_format_truncates
    (engine : Request -> Env) (timed_out : bool) (fuel : nat)
    (filename : string) (req : Request) (fs : gmap string bytes) (s : TTS) :
  format_ req <> "wav"%string -> _CMD s !! format_ req = None ->
  to_file engine timed_out fuel filename req fs s =
    Some (<[filename := []]> fs, s, Some (Unsupported_format (format_ req))).
Proof.
  intros Hw Hc. unfold to_file. by rewrite (BaseTTS_say_unsupported req s Hw Hc).
Qed.

Lemma X17_to_file_unsupported_format_truncates_witness :
  let engine := fun _ : Request => {| callbacks := []; exits_in_time := true |} in
  let req := {| text := "hi"; voice := "anna"; format_ := "opus" |} in
  let fs : gmap string bytes := {[ "opus.ogg"%string := ["o"%byte; "l"%byte; "d"%byte] ]} in
  let s := TTS_init OneTTS {[ "mp3"%string := lame ]} in
  to_file engine false 2 "opus.ogg" req fs s =
    Some (<["opus.ogg"%string := []]> fs, s,
          Some (Unsupported_format (format_ req))).
Proof.
  intros engine req fs s.
  apply (X17_to_file_unsupported_format_truncates engine false 2 "opus.ogg"
           req fs s).
  - discriminate.
  - reflexivity.
Defined.

(** ** A process worker through one request *)

(** A join of the relay thread that returns leaves the thread finished. *)
Lemma InOut_join_returns n : forall s s',
  InOut_join n s = Some s' -> relay_returned s'.
Proof.
  unfold relay_returned.
  induction n as [|n IH]; intros s s' H; simpl in H.
  - destruct (_in_out s) as [io|] eqn:Hio.
    + destruct (alive io) eqn:Ha; [done|]. injection H as <-. by rewrite Hio.
    + injection H as <-. by rewrite Hio.
  - destruct (_in_out s) as [io|] eqn:Hio.
    + destruct (alive io) eqn:Ha.
      * destruct (relay_step s) as [s1|]; [|done]. simpl in H. by eapply IH.
      * injection H as <-. by rewrite Hio.
    + injection H as <-. by rewrite Hio.
Qed.

(** X18. A clean process worker (no relay thread at work, nothing in the
    stream queue), once claimed, can serve a request for the native format
    and be clean and free again. In the run in which the worker process
    serves the request, then the relay thread runs to its end, then the
    caller passes its wait and the consumer reads to the end: the worker is
    busy after [set_busy] and [say] and still busy after [run] has served
    the request; the chunks the iterator yields, however they are cut,
    concatenate to the header and the samples of this request; then the
    worker is not busy, its request queue is empty and it is clean, so the
    same holds for the next request. *)
Theorem X18_claimed_worker_serves_and_is_free_again
    (engine : Request -> Env) (s : TTS) (req : Request)
    (rate : Z) (ds : list bytes) (exited : bool) :
  kind s = ProcessTTS -> clean s -> _queue s = [] -> _work s = true ->
  format_ req = "wav"%string -> _CMD s !! "wav"%string = None ->
  engine req = {| callbacks := SetSampleRate rate :: (Speech <$> ds);
                  exits_in_time := exited |} ->
  0 < rate < 2 ^ 31 ->
  exists s1 s2 s3 s4 s5 chunks,
    BaseTTS_say req (set_busy s) = inr s1 /\ busy s1 = true /\
    run engine s1 = Some (s2, false) /\ busy s2 = true /\
    InOut_join (join_fuel s2) s2 = Some s3 /\
    say_wait false s3 = Some s4 /\
    iterate (S (length chunks)) 1024 s4 = Some (chunks, s5) /\
    concat chunks = concat (wav_header 0xFFFFFFF rate) ++ concat ds /\
    busy s5 = false /\ _queue s5 = [] /\ clean s5 /\
    kind s5 = ProcessTTS /\ _work s5 = true /\ _CMD s5 = _CMD s.
Proof.
  intros K Cl Hq Hwk Hfmt Hc He Hr.
  set (s1 := set_queue [Some req] (set_busy s)).
  set (s0 := set_queue [] s1).
  assert (Cl0 : clean s0) by exact Cl.
  destruct (process_native_request_stream req rate ds exited s0 K
              ltac:(by rewrite Hfmt) Cl0 Hwk Hr)
    as (t1 & t2 & G & Hst1 & Hfuel & J & Hst2).
  assert (G' : exists x, BaseTTS_generate req
                 {| callbacks := SetSampleRate rate :: (Speech <$> ds);
                    exits_in_time := exited |} s0 = Some x /\
               t1 = set_processing true x).
  { unfold _generate, ProcessTTS_generate in G. change (kind s0) with (kind s) in G.
    rewrite K in G. destruct (BaseTTS_generate _ _ s0) as [x|]; [|done].
    simpl in G. injection G as <-. by exists x. }
  destruct G' as (x & Gx & ->).
  pose proof (generate_sets_wait _ _ _ _ _ _ Gx) as Wx.
  pose proof (BaseTTS_generate_frame _ _ _ _ Gx) as (Kx & Cx & Wkx & _ & Rx & Qx).
  simpl in Kx, Cx, Wkx, Rx, Qx.
  pose proof (InOut_join_only _ _ _ J)
    as ((K2 & C2 & Wk2 & _ & R2 & Q2) & W2 & _ & _ & _ & _ & _ & P2 & _).
  simpl in K2, C2, Wk2, R2, Q2, W2, P2.
  pose proof (InOut_join_returns _ _ _ J) as Ret.
  exists s1, (set_processing true x), t2, (set_wait false t2),
         (set_reading false (set_stream [] (set_wait false t2))),
         [concat (wav_header 0xFFFFFFF rate) ++ concat ds].
  split.
  { unfold BaseTTS_say. rewrite Hfmt. simpl. by rewrite Hq. }
  split; [reflexivity|].
  split.
  { unfold run. change (_queue s1) with [Some req]. cbn [run_queue].
    rewrite He. fold s0. rewrite G. cbn [mbind option_bind].
    by rewrite (set_queue_same [] (set_processing true x) Qx). }
  split; [unfold busy; simpl; by rewrite Rx|].
  split; [by rewrite Hfuel|].
  split; [unfold say_wait; by rewrite W2, Wx|].
  split.
  { apply (iterate_stream 1024
             [concat (wav_header 0xFFFFFFF rate) ++ concat ds]
             (set_wait false t2) []).
    - simpl. by rewrite K2, Kx.
    - constructor; [by destruct rate|constructor].
    - exact Hst2. }
  split; [simpl; by rewrite app_nil_r|].
  split; [unfold busy; simpl; by rewrite P2|].
  split; [simpl; by rewrite Q2|].
  split; [split; [exact Ret|done]|].
  split; [simpl; by rewrite K2, Kx|].
  split; [simpl; by rewrite Wk2, Wkx|].
  simpl. by rewrite C2, Cx.
Qed.

Lemma X18_claimed_worker_serves_and_is_free_again_witness :
  let engine := fun _ : Request =>
    {| callbacks := SetSampleRate 24000 :: (Speech <$> [["a"%byte; "b"%byte]]);
       exits_in_time := true |} in
  let req := {| text := "hi"; voice := "anna"; format_ := "wav" |} in
  let s := set_feeder_lag [3%nat] (TTS_init ProcessTTS {[ "mp3"%string := lame ]}) in
  exists s1 s2 s3 s4 s5 chunks,
    BaseTTS_say req (set_busy s) = inr s1 /\ busy s1 = true /\
    run engine s1 = Some (s2, false) /\ busy s2 = true /\
    InOut_join (join_fuel s2) s2 = Some s3 /\
    say_wait false s3 = Some s4 /\
    iterate (S (length chunks)) 1024 s4 = Some (chunks, s5) /\
    concat chunks =
      concat (wav_header 0xFFFFFFF 24000) ++ concat [["a"%byte; "b"%byte]] /\
    busy s5 = false /\ _queue s5 = [] /\ clean s5 /\
    kind s5 = ProcessTTS /\ _work s5 = true /\ _CMD s5 = _CMD s.
Proof.
  intros engine req s.
  apply (X18_claimed_worker_serves_and_is_free_again engine s req 24000
           [["a"%byte; "b"%byte]] true).
  - reflexivity.
  - split; [exact I|reflexivity].
  - reflexivity.
  - reflexivity.
  - reflexivity.
  - reflexivity.
  - reflexivity.
  - split; reflexivity.
Defined.

(** ** From the pool to the worker's queue *)

(** X19. When [MultiTTS.say] returns a context manager, entering it acts on
    the worker just marked busy and on no other: if the format is wav or in
    that worker's table the request is appended to that worker's queue, and
    otherwise [Unsupported_format] is raised with nothing queued; either way
    the worker stays marked busy. *)
Theorem X19_request_is_queued_on_the_claimed_worker
    (req : Request) (buff : nat) (now : Z) (sched : list (Z * list TTS))
    (pool pool' : MultiTTS.t) (cm : MultiTTS.ContextManager) :
  MultiTTS.say req buff now sched pool = Some (pool', MultiTTS.Returned cm) ->
  exists w,
    MultiTTS._workers pool' !! MultiTTS.cm_worker cm = Some w /\
    busy w = true /\
    if String.eqb (format_ req) "wav"
       || bool_decide (is_Some (_CMD w !! format_ req))
    then MultiTTS.enter cm pool' =
           Some (inr {| MultiTTS._workers :=
                          <[MultiTTS.cm_worker cm :=
                              set_queue (_queue w ++ [Some req]) w]>
                            (MultiTTS._workers pool');
                        MultiTTS._lock := false;
                        MultiTTS._work := MultiTTS._work pool |})
    else MultiTTS.enter cm pool' =
           Some (inl (Unsupported_format (format_ req))).
Proof.
  unfold MultiTTS.say. intros H.
  destruct (MultiTTS._lock pool); [done|]. simpl in H.
  destruct (MultiTTS.poll _ _ _ _ _) as [[ws out]|] eqn:P; [|done].
  simpl in H. injection H as <- ->.
  destruct (poll_outcome _ _ _ _ _ _ _ P)
    as (ws0 & _ & Hreq & _ & w & Hw & Hb & -> & _).
  exists (set_busy w). simpl.
  assert (L : <[MultiTTS.cm_worker cm := set_busy w]> ws0 !! MultiTTS.cm_worker cm
              = Some (set_busy w))
    by (apply list_lookup_insert_eq; by eapply lookup_lt_Some).
  split; [done|]. split; [reflexivity|].
  unfold MultiTTS.enter. simpl. rewrite L. simpl. rewrite Hreq.
  unfold BaseTTS_say. simpl.
  destruct (String.eqb (format_ req) "wav"); simpl; [done|].
  destruct (bool_decide (is_Some (_CMD w !! format_ req))); done.
Qed.

Lemma X19_request_is_queued_on_the_claimed_worker_witness :
  let req := {| text := "hi"; voice := "anna"; format_ := "mp3" |} in
  let cm := {| MultiTTS.cm_worker := 0; MultiTTS.cm_request := req;
               MultiTTS.cm_buff := 1024 |} in
  let pool' := {| MultiTTS._workers :=
                    [set_busy (TTS_init ProcessTTS {[ "mp3"%string := lame ]});
                     TTS_init ProcessTTS {[ "mp3"%string := lame ]}];
                  MultiTTS._lock := false; MultiTTS._work := true |} in
  exists w,
    MultiTTS._workers pool' !! MultiTTS.cm_worker cm = Some w /\
    busy w = true /\
    if String.eqb (format_ req) "wav"
       || bool_decide (is_Some (_CMD w !! format_ req))
    then MultiTTS.enter cm pool' =
           Some (inr {| MultiTTS._workers :=
                          <[MultiTTS.cm_worker cm :=
                              set_queue (_queue w ++ [Some req]) w]>
                            (MultiTTS._workers pool');
                        MultiTTS._lock := false;
                        MultiTTS._work := MultiTTS._work pool_of_two |})
    else MultiTTS.enter cm pool' =
           Some (inl (Unsupported_format (format_ req))).
Proof.
  intros req cm pool'.
  apply (X19_request_is_queued_on_the_claimed_worker req 1024 0 []
           pool_of_two pool' cm).
  reflexivity.
Defined.
